(** * claude-webex-bridge: a shallow embedding of the message relay engine

    The development follows the three source files:
    - [bot.py]: the byte-aware splitter ([split_message],
      [_hard_split_line]), the per-room [BotState] with its single-flight
      guard ([handle_text_message]) and the body of [poll_loop];
    - [webex_api.py]: the retry loop of [WebexAPI._request];
    - [claude_cli.py]: the subprocess bridge [send_message].

    Python [str] values are sequences of Unicode code points, modelled as
    [list N]; [bytes] values are lists of byte values.  Coroutines are
    modelled as resumptions: a computation runs on the shared store up to
    its next [await], where the environment chooses the awaited call's
    outcome (a value or a raised exception) and may change the store. *)

From Stdlib Require Import ZArith NArith List Lia Bool.
From stdpp Require Import base list gmap strings pretty.
Import ListNotations.
Open Scope Z_scope.
Set Warnings "-register-all".

(** ** Text *)

(** A Python [str]: its code points, in order, lone surrogates included
    (a [str] can hold them; they cannot be encoded). *)
Abbreviation str := (list N).
(** A Python [bytes] object: byte values, each below 256. *)
Abbreviation bytes := (list N) (only parsing).

(** A string literal of the source, as code points (the literals of the
    program are ASCII, apart from the ones written out by hand). *)
Definition py (s : string) : str :=
  map Byte.to_N (String.list_byte_of_string s).

Arguments py : simpl never.

Definition NL : N := 10%N.

(** The UTF-8 form of a code point. *)
Definition utf8_char (c : N) : bytes :=
  if (c <? 0x80)%N then [c]
  else if (c <? 0x800)%N then
    [N.lor 0xC0 (N.shiftr c 6); N.lor 0x80 (N.land c 0x3F)]
  else if (c <? 0x10000)%N then
    [N.lor 0xE0 (N.shiftr c 12);
     N.lor 0x80 (N.land (N.shiftr c 6) 0x3F);
     N.lor 0x80 (N.land c 0x3F)]
  else
    [N.lor 0xF0 (N.shiftr c 18);
     N.lor 0x80 (N.land (N.shiftr c 12) 0x3F);
     N.lor 0x80 (N.land (N.shiftr c 6) 0x3F);
     N.lor 0x80 (N.land c 0x3F)].

(** The code points U+D800 to U+DFFF, which a Python [str] can hold but
    which have no UTF-8 encoding. *)
Definition is_surrogate (c : N) : bool := ((0xD800 <=? c) && (c <=? 0xDFFF))%N.

(** [s.encode("utf-8")] for one code point; [None] stands for
    [UnicodeEncodeError], raised for a surrogate. *)
Definition encode_char (c : N) : option bytes :=
  if is_surrogate c then None else Some (utf8_char c).

(** [s.encode("utf-8")]; [None] stands for [UnicodeEncodeError]. *)
Fixpoint encode_utf8 (s : str) : option bytes :=
  match s with
  | [] => Some []
  | c :: s' =>
      match encode_char c, encode_utf8 s' with
      | Some b, Some bs => Some (b ++ bs)
      | _, _ => None
      end
  end.

(** The string can be encoded: it holds no surrogate. *)
Definition encodable (s : str) : bool :=
  forallb (fun c => negb (is_surrogate c)) s.

(** The number of bytes of the UTF-8 forms of the code points of [s]:
    the value of [len(s.encode("utf-8"))] when [s] can be encoded. *)
Definition byte_len (s : str) : Z :=
  Z.of_nat (length (flat_map utf8_char s)).

(** Truthiness of a string: [if current:] holds for a non-empty one. *)
Definition truthy (s : str) : bool :=
  match s with [] => false | _ :: _ => true end.

(** [s.split(sep)] for a one-character separator: one more piece than
    there are separators in [s], empty pieces included. *)
Fixpoint split (sep : N) (s : str) : list str :=
  match s with
  | [] => [[]]
  | c :: s' =>
      if (c =? sep)%N then [] :: split sep s'
      else match split sep s' with
           | l :: ls => (c :: l) :: ls
           | [] => [[c]]
           end
  end.

(** [sep.join(pieces)] for a one-character separator. *)
Fixpoint join (sep : N) (pieces : list str) : str :=
  match pieces with
  | [] => []
  | [l] => l
  | l :: ls => l ++ sep :: join sep ls
  end.

(** [sep.join(pieces)] for any separator. *)
Fixpoint join_str (sep : str) (pieces : list str) : str :=
  match pieces with
  | [] => []
  | [l] => l
  | l :: ls => l ++ sep ++ join_str sep ls
  end.

(** [c.isspace()] *)
Definition isspace (c : N) : bool :=
  ((9 <=? c) && (c <=? 13) || (28 <=? c) && (c <=? 32) ||
   (c =? 133) || (c =? 160) || (c =? 5760) ||
   (8192 <=? c) && (c <=? 8202) ||
   (c =? 8232) || (c =? 8233) || (c =? 8239) || (c =? 8287) ||
   (c =? 12288))%N.

Fixpoint lstrip (s : str) : str :=
  match s with
  | [] => []
  | c :: s' => if isspace c then lstrip s' else s
  end.

(** [s.strip()] *)
Definition strip (s : str) : str := rev (lstrip (rev (lstrip s))).

Fixpoint startswith (s prefix : str) : bool :=
  match prefix, s with
  | [], _ => true
  | _ :: _, [] => false
  | p :: prefix', c :: s' => (c =? p)%N && startswith s' prefix'
  end.

(** [needle in s] *)
Fixpoint contains (s needle : str) : bool :=
  startswith s needle ||
  match s with
  | [] => false
  | _ :: s' => contains s' needle
  end.

(** [str(n)] for an integer. *)
Definition str_of_Z (n : Z) : str := py (pretty n).
Arguments str_of_Z : simpl never.

(** ** Exceptions *)

(** The exceptions the three modules raise, catch or let through. *)
Inductive exn : Type :=
| SystemExit (msg : str)
| KeyboardInterrupt
| CancelledError
| RuntimeError (msg : str)
| KeyError (key : str)
| IndexError
| ValueError
| UnicodeEncodeError
| TimeoutError
| FileNotFoundError (msg : str)
| OSError (msg : str)
| RequestError (msg : str)
| HTTPStatusError (msg : str) (status : Z)
| OtherException (msg : str).

(** [isinstance(e, Exception)]: what a clause [except Exception] catches.
    [SystemExit], [KeyboardInterrupt] and [asyncio.CancelledError] derive
    from [BaseException] only. *)
Definition is_Exception (e : exn) : bool :=
  match e with
  | SystemExit _ | KeyboardInterrupt | CancelledError => false
  | _ => true
  end.

(** [isinstance(e, OSError)] *)
Definition is_OSError (e : exn) : bool :=
  match e with
  | FileNotFoundError _ | OSError _ => true
  | _ => false
  end.

(** [str(e)] *)
Definition exn_text (e : exn) : str :=
  match e with
  | SystemExit msg | RuntimeError msg | FileNotFoundError msg | OSError msg
  | RequestError msg | HTTPStatusError msg _ | OtherException msg => msg
  | KeyError key => key
  | _ => []
  end.

(** How a call ends: with a value, or with an exception raised. *)
Inductive result (T : Type) : Type :=
| Returned (v : T)
| Raised (e : exn).
Arguments Returned {T} v.
Arguments Raised {T} e.

(** ** Coroutines *)

(** A coroutine runs on a store up to its next call into the environment
    (an [await], or a query of the operating system), where it is
    suspended; it is resumed with the outcome of the call and with the
    store as the environment has left it. *)
Section Coroutine.

Context {call : Type} {reply : call -> Type} {store : Type}.

Inductive step (R : Type) : Type :=
| Finish (s : store) (r : result R)
| Suspend (s : store) (c : call) (k : result (reply c) -> store -> step R).
Arguments Finish {R} s r.
Arguments Suspend {R} s c k.

Definition coro (R : Type) : Type := store -> step R.

Definition ret {A : Type} (a : A) : coro A :=
  fun s => Finish s (Returned a).

Definition raise {A : Type} (e : exn) : coro A :=
  fun s => Finish s (Raised e).

(** [await c]: the value of the call, or the exception it raises. *)
Definition await (c : call) : coro (reply c) :=
  fun s => Suspend s c (fun r s' => Finish s' r).

(** A call inside [try: ... except ...]: its outcome as a value, for the
    clauses to tell apart. *)
Definition try_await (c : call) : coro (result (reply c)) :=
  fun s => Suspend s c (fun r s' => Finish s' (Returned r)).

Definition get_store : coro store :=
  fun s => Finish s (Returned s).

Definition modify (f : store -> store) : coro unit :=
  fun s => Finish (f s) (Returned tt).

Fixpoint bind_step {A B : Type} (m : step A) (f : A -> store -> step B)
  : step B :=
  match m with
  | Finish s (Returned a) => f a s
  | Finish s (Raised e) => Finish s (Raised e)
  | Suspend s c k => Suspend s c (fun r s' => bind_step (k r s') f)
  end.

Definition bind {A B : Type} (m : coro A) (f : A -> coro B) : coro B :=
  fun s => bind_step (m s) f.

(** [try: m  except ...: h e]: [h] tells which exceptions the clauses
    catch and what the handler does. *)
Fixpoint catch_step {A : Type} (m : step A)
    (h : exn -> option (store -> step A)) : step A :=
  match m with
  | Finish s (Returned a) => Finish s (Returned a)
  | Finish s (Raised e) =>
      match h e with
      | Some handler => handler s
      | None => Finish s (Raised e)
      end
  | Suspend s c k => Suspend s c (fun r s' => catch_step (k r s') h)
  end.

Definition try_except {A : Type} (m : coro A) (h : exn -> option (coro A))
  : coro A :=
  fun s => catch_step (m s) h.

(** [try: m  finally: fin]: [fin] runs however [m] ends, and [m]'s
    outcome stands unless [fin] itself raises. *)
Fixpoint finally_step {A : Type} (m : step A) (fin : coro unit) : step A :=
  match m with
  | Finish s r => bind_step (fin s) (fun _ s' => Finish s' r)
  | Suspend s c k => Suspend s c (fun r s' => finally_step (k r s') fin)
  end.

Definition try_finally {A : Type} (m : coro A) (fin : coro unit) : coro A :=
  fun s => finally_step (m s) fin.

(** [for x in xs: body x] *)
Fixpoint for_each {A : Type} (xs : list A) (body : A -> coro unit)
  : coro unit :=
  match xs with
  | [] => ret tt
  | x :: xs' => bind (body x) (fun _ => for_each xs' body)
  end.

(** The environment of a run: the outcome of each call, given the calls
    made before it, and what other tasks do to the store while the
    coroutine is suspended. *)
Record env : Type := {
  answer : list call -> forall c : call, result (reply c);
  interfere : list call -> store -> store
}.

(** A run to completion: the calls made, the final store, the outcome. *)
Fixpoint run {R : Type} (w : env) (h : list call) (m : step R)
  : list call * store * result R :=
  match m with
  | Finish s r => (h, s, r)
  | Suspend s c k =>
      run w (h ++ [c]) (k (answer w h c) (interfere w (h ++ [c]) s))
  end.

(** The three components of a run. *)
Definition trace {R : Type} (x : list call * store * result R) : list call :=
  fst (fst x).
Definition final {R : Type} (x : list call * store * result R) : store :=
  snd (fst x).
Definition outcome {R : Type} (x : list call * store * result R) : result R :=
  snd x.

(** The stores in which the run is suspended, each with the call it is
    suspended on. *)
Fixpoint suspensions {R : Type} (w : env) (h : list call) (m : step R)
  : list (store * call) :=
  match m with
  | Finish _ _ => []
  | Suspend s c k =>
      (s, c) ::
      suspensions w (h ++ [c]) (k (answer w h c) (interfere w (h ++ [c]) s))
  end.

End Coroutine.

Arguments step : clear implicits.
Arguments coro : clear implicits.
Arguments env : clear implicits.
Arguments Finish {call reply store R} s r.
Arguments Suspend {call reply store R} s c k.

Declare Scope coro_scope.
Delimit Scope coro_scope with coro.
Notation "'let*' x ':=' m 'in' k" := (bind m (fun x => k))
  (at level 10, x name, m at level 100, k at level 200) : coro_scope.
Notation "m ';;' k" := (bind m (fun _ => k))
  (at level 100, k at level 200, right associativity) : coro_scope.
(** ** webex_api.py *)

Module webex_api.

(** A JSON value, as [response.json()] returns it and as request bodies
    and parameters are built. *)
Inductive json : Type :=
| JNull
| JBool (b : bool)
| JNum (n : Z)
| JStr (s : str)
| JList (items : list json)
| JDict (fields : list (str * json)).

(** What [_request] reads of an [httpx.Response]. *)
Record response : Type := {
  status_code : Z;
  (** [response.headers.get("Retry-After")] *)
  retry_after : option str;
  (** [response.json()]: the body, or the error of decoding it *)
  json_body : result json
}.

(** The calls of the client into its environment. *)
Inductive call : Type :=
| ClientRequest (method path : str) (body params : option json)
| Sleep (seconds : Z).

Definition reply (c : call) : Type :=
  match c with
  | ClientRequest _ _ _ _ => response
  | Sleep _ => unit
  end.

(** The [WebexAPI] object. *)
Record WebexAPI : Type := {
  (** whether [self._client] is set *)
  _client : bool;
  bot_id : option str
}.

Definition MAX_RETRIES : Z := 3.

Section Client.

(** The builtin [int] on a string; [None] stands for [ValueError]. *)
Variable int : str -> option Z.
(** Whether [response.raise_for_status()] raises for a status code
    (httpx decides; it does for error statuses). *)
Variable raises_for_status : Z -> bool.

Local Open Scope coro_scope.
Local Abbreviation coro := (coro call reply WebexAPI).

(** [min(2 ** attempt, 30)] *)
Definition backoff (attempt : Z) : Z := Z.min (2 ^ attempt) 30.

(** [min(int(response.headers.get("Retry-After", "5")), 60)], and 5 on
    [ValueError]. *)
Definition retry_after_seconds (r : response) : Z :=
  match int (default (py "5") (retry_after r)) with
  | Some n => Z.min n 60
  | None => 5
  end.

(** The loop [for attempt in range(1, MAX_RETRIES + 1)] of [_request],
    over the attempts still to make; [last] is the variable [response]
    as the earlier iterations have left it. *)
Fixpoint request_attempts (method path : str) (body params : option json)
    (attempts : list Z) (last : option response) : coro json :=
  match attempts with
  | [] =>
      match last with
      | Some r => raise (HTTPStatusError (py "Retries exhausted") (status_code r))
      | None => raise (OtherException (py "UnboundLocalError"))
      end
  | attempt :: rest =>
      let* r := try_await (ClientRequest method path body params) in
      match r with
      | Raised (RequestError msg) =>
          if attempt <? MAX_RETRIES then
            await (Sleep (backoff attempt));;
            request_attempts method path body params rest last
          else raise (RequestError msg)
      | Raised e => raise e
      | Returned response =>
          if status_code response =? 429 then
            await (Sleep (retry_after_seconds response));;
            request_attempts method path body params rest (Some response)
          else if status_code response =? 401 then
            raise (SystemExit (py "Fatal: Webex API returned 401 Unauthorized."))
          else if (500 <=? status_code response) && (attempt <? MAX_RETRIES) then
            await (Sleep (backoff attempt));;
            request_attempts method path body params rest (Some response)
          else if raises_for_status (status_code response) then
            raise (HTTPStatusError (py "raise_for_status") (status_code response))
          else
            match json_body response with
            | Returned data => ret data
            | Raised e => raise e
            end
      end
  end.

Definition _request (method path : str) (body params : option json)
  : coro json :=
  let* self := get_store in
  if negb (_client self) then
    raise (RuntimeError (py "Call start() before making requests"))
  else
    request_attempts method path body params (seqZ 1 MAX_RETRIES) None.

Definition send_message (room_id text : str) : coro json :=
  _request (py "POST") (py "/messages")
    (Some (JDict [(py "roomId", JStr room_id); (py "markdown", JStr text)]))
    None.

(** [edit_message]: a failed request is answered with [None]; only
    [httpx.HTTPStatusError] and [httpx.RequestError] are caught. *)
Definition edit_message (message_id room_id text : str) : coro (option json) :=
  try_except
    (let* data :=
       _request (py "PUT") (py "/messages/" ++ message_id)
         (Some (JDict [(py "roomId", JStr room_id); (py "markdown", JStr text)]))
         None in
     ret (Some data))
    (fun e =>
       match e with
       | HTTPStatusError _ _ | RequestError _ => Some (ret None)
       | _ => None
       end).

End Client.

End webex_api.

(** ** claude_cli.py *)

Module claude_cli.

(** What [process.communicate()] gives, with [process.returncode] as it
    stands afterwards. *)
Record outputs : Type := {
  stdout : bytes;
  stderr : bytes;
  returncode : Z
}.

(** The calls of the bridge into its environment. *)
Inductive call : Type :=
| Which (name : str)                       (* shutil.which *)
| Environ                                  (* os.environ.copy() *)
| CreateSubprocessExec (cmd : list str) (cwd : option str)
    (env : gmap str str)
| OnProcessStarted                         (* on_process_started(process) *)
| Communicate (timeout : Z)   (* wait_for(process.communicate(), timeout) *)
| Kill                                     (* process.kill() *)
| Wait.                                    (* process.wait() *)

Definition reply (c : call) : Type :=
  match c with
  | Which _ => option str
  | Environ => gmap str str
  | CreateSubprocessExec _ _ _ => unit
  | OnProcessStarted => unit
  | Communicate _ => outputs
  | Kill => unit
  | Wait => Z
  end.

Inductive level : Type := INFO | ERROR.

(** The store of the bridge is the server-side log. *)
Abbreviation log := (list (level * str)).

Section Bridge.

(** The constant of [config.py], which is not among the sources. *)
Variable CLI_TIMEOUT_SECONDS : Z.
(** [b.decode("utf-8", errors="replace")] *)
Variable decode : bytes -> str.
(** [s.lower()] *)
Variable lower : str -> str.

Local Open Scope coro_scope.
Local Abbreviation coro := (coro call reply log).

Definition logger (lvl : level) (line : str) : coro unit :=
  modify (fun l => l ++ [(lvl, line)]).

Definition _clean_env : coro (gmap str str) :=
  let* env := await Environ in
  ret (delete (py "CLAUDECODE") env).

Definition not_found : str :=
  py "Error: 'claude' CLI not found on PATH. Make sure Claude Code is installed.".

Definition timed_out : str :=
  py "Error: CLI timed out after " ++ str_of_Z CLI_TIMEOUT_SECONDS ++
  py " seconds. The process was killed.".

Definition credentials_hint : str :=
  NL :: NL :: py "This may be an AWS credentials issue. Check your credentials.".

(** What is returned once the child has exited (the statements after the
    second [try]). *)
Definition report (out : outputs) : coro str :=
  let stdout_text := strip (decode (stdout out)) in
  let stderr_text := strip (decode (stderr out)) in
  if negb (returncode out =? 0) then
    let error_msg :=
      py "Claude encountered an error (exit code " ++
      str_of_Z (returncode out) ++
      py "). Try sending your message again, or disconnect and reconnect." in
    (if truthy stderr_text
     then logger ERROR (py "CLI stderr: " ++ take 1000 stderr_text)
     else ret tt);;
    if contains (lower stderr_text) (py "expired") ||
       contains (lower stderr_text) (py "credential")
    then ret (error_msg ++ credentials_hint)
    else ret error_msg
  else if negb (truthy stdout_text) then
    ret (py "Claude completed the request but returned no output.")
  else ret stdout_text.

Definition send_message (session_id message : str) (cwd : option str)
    (skip_permissions : bool) (on_process_started : bool) : coro str :=
  let* claude_path := await (Which (py "claude")) in
  match claude_path with
  | None => ret not_found
  | Some claude_path =>
      let cmd :=
        [claude_path; py "--print"; py "--output-format"; py "text";
         py "--resume"; session_id] ++
        (if skip_permissions then [py "--dangerously-skip-permissions"] else []) ++
        [py "--"; message] in
      logger INFO
        (py "Running: " ++ join_str (py " ") (take 6 cmd) ++ py " ..." ++
         py " (cwd=" ++ default (py "None") cwd ++ py ")");;
      let* failed :=
        try_except
          (let* env := _clean_env in
           await (CreateSubprocessExec cmd cwd env);;
           ret None)
          (fun e =>
             match e with
             | FileNotFoundError _ => Some (ret (Some not_found))
             | _ =>
                 if is_OSError e
                 then Some (ret (Some (py "Error starting CLI: " ++ exn_text e)))
                 else None
             end) in
      match failed with
      | Some message => ret message
      | None =>
          (if on_process_started then await OnProcessStarted else ret tt);;
          let* done :=
            try_except
              (let* out := await (Communicate CLI_TIMEOUT_SECONDS) in
               ret (Some out))
              (fun e =>
                 match e with
                 | TimeoutError => Some (await Kill;; await Wait;; ret None)
                 | _ => None
                 end) in
          match done with
          | None => ret timed_out
          | Some out => report out
          end
      end
  end.

End Bridge.

End claude_cli.

(** ** bot.py: message splitting *)

Module bot.

(** [len(s.encode("utf-8"))], which raises [UnicodeEncodeError] for a
    string with a surrogate. *)
Definition encoded_len (s : str) : result Z :=
  match encode_utf8 s with
  | Some b => Returned (Z.of_nat (length b))
  | None => Raised UnicodeEncodeError
  end.

(** Sequencing of statements that can raise. *)
Definition and_then {A B : Type} (r : result A) (f : A -> result B)
  : result B :=
  match r with
  | Returned a => f a
  | Raised e => Raised e
  end.

(** A [for] loop whose body can raise: the state after the last
    iteration, or the exception of the first iteration that raises. *)
Fixpoint for_loop {A S : Type} (body : S -> A -> result S) (xs : list A)
    (st : S) : result S :=
  match xs with
  | [] => Returned st
  | x :: xs' => and_then (body st x) (for_loop body xs')
  end.

(** One iteration of the loop of [_hard_split_line] over the characters
    of the line; the state is [(parts, current)]. *)
Definition hard_step (max_bytes : Z) (st : list str * str) (char : N)
  : result (list str * str) :=
  let '(parts, current) := st in
  let candidate := current ++ [char] in
  and_then (encoded_len candidate) (fun n =>
  if max_bytes <? n
  then Returned (parts ++ [current], [char])
  else Returned (parts, candidate)).

Definition _hard_split_line (line : str) (max_bytes : Z) : result (list str) :=
  and_then (for_loop (hard_step max_bytes) line ([], [])) (fun '(parts, current) =>
  Returned (if truthy current then parts ++ [current] else parts)).

(** One iteration of the loop of [split_message] over the lines; the
    state is [(chunks, current)]. *)
Definition split_step (max_bytes : Z) (st : list str * str) (line : str)
  : result (list str * str) :=
  let '(chunks, current) := st in
  let candidate := if truthy current then current ++ NL :: line else line in
  and_then (encoded_len candidate) (fun n =>
  if max_bytes <? n then
    let '(chunks, current) :=
      if truthy current then (chunks ++ [current], []) else (chunks, current) in
    and_then (encoded_len line) (fun k =>
    if max_bytes <? k
    then and_then (_hard_split_line line max_bytes) (fun parts =>
         Returned (chunks ++ parts, current))
    else Returned (chunks, line))
  else Returned (chunks, candidate)).

Definition split_message (text : str) (max_bytes : Z) : result (list str) :=
  and_then (encoded_len text) (fun n =>
  if n <=? max_bytes then Returned [text]
  else
    and_then (for_loop (split_step max_bytes) (split NL text) ([], []))
      (fun '(chunks, current) =>
    Returned (if truthy current then chunks ++ [current] else chunks))).


(** *** Conversation state and the calls of the bot *)

(** [sessions.SessionInfo], as far as [bot.py] reads it. *)
Record SessionInfo : Type := {
  info_session_id : str;
  display : str;
  cwd : str;
  project : str;
  timestamp : Z
}.

Record BotState : Type := {
  session_id : option str;
  session_cwd : option str;
  session_label : str;
  skip_permissions : bool;
  pending_sessions : list SessionInfo;
  processing : bool
}.

(** [BotState()] *)
Definition BotState_default : BotState := {|
  session_id := None;
  session_cwd := None;
  session_label := [];
  skip_permissions := false;
  pending_sessions := [];
  processing := false
|}.

(** A message object of the chat platform, as far as the bot reads it:
    each field is [None] when the key is absent. *)
Record message : Type := {
  id : option str;
  personId : option str;
  personEmail : option str;
  text : option str
}.

(** A room object of the chat platform. *)
Record room : Type := { room_id_field : option str }.

(** The memory of the bot: the module-level [_room_states], and the two
    locals of [poll_loop], which outlive the exceptions its loop catches.
    No other task can reach the locals. *)
Record memory : Type := {
  _room_states : gmap str BotState;
  last_seen : gmap str str;
  initialized_rooms : gset str
}.

(** The calls of the bot into its collaborators. *)
Inductive call : Type :=
| ApiSendMessage (room_id text : str)            (* api.send_message *)
| ApiEditMessage (message_id room_id text : str) (* api.edit_message *)
| ApiListDirectRooms (max_rooms : Z)             (* api.list_direct_rooms *)
| ApiListMessages (room_id : str) (max_messages : Z) (* api.list_messages *)
| CliSendMessage (session_id : option str) (message : str)
    (cwd : option str) (skip_permissions : bool) (* cli_send_message *)
| Dispatch (room_id text : str)                  (* dispatch, from poll_loop *)
| Sleep.                           (* asyncio.sleep(POLL_INTERVAL_SECONDS) *)

Definition reply (c : call) : Type :=
  match c with
  | ApiSendMessage _ _ => message
  | ApiEditMessage _ _ _ => option message
  | ApiListDirectRooms _ => list room
  | ApiListMessages _ _ => list message
  | CliSendMessage _ _ _ _ => str
  | Dispatch _ _ => unit
  | Sleep => unit
  end.

Section Bot.

(** The constant of [config.py], which is not among the sources. *)
Variable WEBEX_MAX_MESSAGE_BYTES : Z.
(** [auth.is_authorized], which is not among the sources. *)
Variable is_authorized : str -> bool.
(** [api.bot_id] *)
Variable bot_id : option str.

Local Open Scope coro_scope.
Local Abbreviation coro := (coro call reply memory).

Definition set_room_states (f : gmap str BotState -> gmap str BotState)
    (m : memory) : memory :=
  {| _room_states := f (_room_states m);
     last_seen := last_seen m;
     initialized_rooms := initialized_rooms m |}.

(** [get_state]: the state object of the room, created on first use.
    The value returned is the object as it is now; it is read again, with
    [current], wherever the source reads a field after an [await]. *)
Definition get_state (room_id : str) : coro BotState :=
  let* m := get_store in
  match _room_states m !! room_id with
  | Some state => ret state
  | None =>
      modify (set_room_states (insert room_id BotState_default));;
      ret BotState_default
  end.

(** The state object of the room, as it is now. *)
Definition current (room_id : str) : coro BotState :=
  let* m := get_store in
  ret (default BotState_default (_room_states m !! room_id)).

Definition with_processing (b : bool) (state : BotState) : BotState := {|
  session_id := session_id state;
  session_cwd := session_cwd state;
  session_label := session_label state;
  skip_permissions := skip_permissions state;
  pending_sessions := pending_sessions state;
  processing := b
|}.

(** [state.processing = b] *)
Definition set_processing (room_id : str) (b : bool) : coro unit :=
  modify (set_room_states (alter (with_processing b) room_id)).

(** [try: m  except Exception: handler] *)
Definition try_except_Exception {A : Type} (m : coro A) (handler : coro A)
  : coro A :=
  try_except m (fun e => if is_Exception e then Some handler else None).

Definition not_connected : str :=
  py "Not connected. Use `/sessions` to pick a session.".
Definition still_processing : str :=
  py "Still processing the previous message. Please wait.".
Definition thinking_text : str := py "Thinking...".
Definition error_text : str :=
  py "An error occurred while processing your message. Check the bot logs for details.".

(** The [except Exception] clause of [handle_text_message];
    [if thinking_id:] holds for an id that is neither [None] nor empty. *)
Definition on_error (room_id : str) (thinking_id : option str) : coro unit :=
  match thinking_id with
  | Some i =>
      if truthy i
      then await (ApiEditMessage i room_id error_text);; ret tt
      else await (ApiSendMessage room_id error_text);; ret tt
  | None => await (ApiSendMessage room_id error_text);; ret tt
  end.

(** The value of an expression that can raise. *)
Definition of_result {A : Type} (r : result A) : coro A :=
  match r with
  | Returned a => ret a
  | Raised e => raise e
  end.

(** The [try] block of [handle_text_message] from the call of the backend
    on, [thinking_id] being assigned. *)
Definition relay_turn (room_id text : str) (thinking_id : option str)
  : coro unit :=
  let* state := current room_id in
  let* response :=
    await (CliSendMessage (session_id state) text (session_cwd state)
             (skip_permissions state)) in
  let* chunks := of_result (split_message response WEBEX_MAX_MESSAGE_BYTES) in
  match chunks with
  | [] => raise IndexError            (* chunks[0] *)
  | first :: remaining =>
      match thinking_id with
      | Some i =>
          if truthy i then
            let* result := await (ApiEditMessage i room_id first) in
            match result with
            | None => await (ApiSendMessage room_id first);; ret tt
            | Some _ => ret tt
            end
          else await (ApiSendMessage room_id first);; ret tt
      | None => await (ApiSendMessage room_id first);; ret tt
      end;;
      for_each remaining
        (fun chunk => await (ApiSendMessage room_id chunk);; ret tt)
  end.

(** The [try] block of [handle_text_message].  Its handler reads the
    local [thinking_id], which the block assigns after its first call; the
    block is therefore written in two parts, the first call with the
    handler at [thinking_id = None], the rest with the handler at the
    value assigned.  When the handler has run, the block is over. *)
Definition try_block (room_id text : str) : coro unit :=
  let* thinking :=
    try_except_Exception
      (let* thinking := await (ApiSendMessage room_id thinking_text) in
       ret (Some thinking))
      (on_error room_id None;; ret None) in
  match thinking with
  | None => ret tt
  | Some thinking =>
      let thinking_id := id thinking in
      try_except_Exception
        (relay_turn room_id text thinking_id)
        (on_error room_id thinking_id)
  end.

Definition handle_text_message (room_id text : str) : coro unit :=
  let* state := get_state room_id in
  match session_id state with
  | None => await (ApiSendMessage room_id not_connected);; ret tt
  | Some _ =>
      if processing state then
        await (ApiSendMessage room_id still_processing);; ret tt
      else
        set_processing room_id true;;
        try_finally (try_block room_id text) (set_processing room_id false)
  end.

(** *** The polling loop *)

(** [msg["id"]] *)
Definition subscript_id (msg : message) : result str :=
  match id msg with
  | Some i => Returned i
  | None => Raised (KeyError (py "id"))
  end.

(** The loop that collects the messages newer than the cursor: it stops
    at the first message whose id is [last_seen.get(room_id)]. *)
Fixpoint collect_new (cursor : option str) (messages : list message)
  : result (list message) :=
  match messages with
  | [] => Returned []
  | msg :: messages' =>
      match subscript_id msg with
      | Raised e => Raised e
      | Returned i =>
          if decide (Some i = cursor) then Returned []
          else
            match collect_new cursor messages' with
            | Returned new_messages => Returned (msg :: new_messages)
            | Raised e => Raised e
            end
      end
  end.

(** The body of [for msg in new_messages]. *)
Definition process_message (room_id : str) (msg : message) : coro unit :=
  if decide (personId msg = bot_id) then ret tt
  else
    let sender_email := default [] (personEmail msg) in
    if negb (is_authorized sender_email) then ret tt
    else
      let text := strip (default [] (text msg)) in
      if negb (truthy text) then ret tt
      else await (Dispatch room_id text).

Definition mark_position (room_id newest_id : str) (m : memory) : memory :=
  {| _room_states := _room_states m;
     last_seen := <[room_id := newest_id]> (last_seen m);
     initialized_rooms := initialized_rooms m |}.

Definition mark_initialized (room_id : str) (m : memory) : memory :=
  {| _room_states := _room_states m;
     last_seen := last_seen m;
     initialized_rooms := {[room_id]} ∪ initialized_rooms m |}.

(** The body of [for room in rooms], after [room_id = room["id"]]. *)
Definition poll_room (room_id : str) : coro unit :=
  let* messages := await (ApiListMessages room_id 10) in
  match messages with
  | [] => ret tt
  | newest :: _ =>
      let* newest_id := of_result (subscript_id newest) in
      let* m := get_store in
      if decide (room_id ∈ initialized_rooms m) then
        if decide (last_seen m !! room_id = Some newest_id) then ret tt
        else
          let* new_messages :=
            of_result (collect_new (last_seen m !! room_id) messages) in
          modify (mark_position room_id newest_id);;
          for_each (rev new_messages) (process_message room_id)
      else
        modify (mark_initialized room_id);;
        modify (mark_position room_id newest_id)
  end.

(** One turn of the [while True] loop of [poll_loop]. *)
Definition poll_cycle : coro unit :=
  try_except
    (let* rooms := await (ApiListDirectRooms 50) in
     for_each rooms
       (fun room =>
          match room_id_field room with
          | Some room_id => poll_room room_id
          | None => raise (KeyError (py "id"))
          end))
    (fun e =>
       match e with
       | SystemExit _ => None
       | _ => if is_Exception e then Some (await Sleep) else None
       end);;
  await Sleep.

End Bot.


(** *** The commands that only read and write the conversation state *)

Section Commands.

Local Open Scope coro_scope.
Local Abbreviation coro := (coro call reply memory).

(** [state.session_id = None; state.session_cwd = None;
    state.session_label = ""] *)
Definition without_session (state : BotState) : BotState := {|
  session_id := None;
  session_cwd := None;
  session_label := [];
  skip_permissions := skip_permissions state;
  pending_sessions := pending_sessions state;
  processing := processing state
|}.

Definition with_skip_permissions (b : bool) (state : BotState) : BotState := {|
  session_id := session_id state;
  session_cwd := session_cwd state;
  session_label := session_label state;
  skip_permissions := b;
  pending_sessions := pending_sessions state;
  processing := processing state
|}.

Definition not_connected_to_any : str := py "Not connected to any session.".

(** [f"Disconnected from: {label}"] *)
Definition disconnected_from (label : str) : str :=
  py "Disconnected from: " ++ label.

Definition handle_disconnect (room_id : str) : coro unit :=
  let* state := get_state room_id in
  match session_id state with
  | None => await (ApiSendMessage room_id not_connected_to_any);; ret tt
  | Some _ =>
      let label := session_label state in
      modify (set_room_states (alter without_session room_id));;
      await (ApiSendMessage room_id (disconnected_from label));; ret tt
  end.

Definition mode_skip_permissions : str :=
  py "**Mode: skip-permissions**" ++ [NL] ++
  py "Claude will execute tools without asking for approval.".

Definition mode_safe : str :=
  py "**Mode: safe**" ++ [NL] ++
  py "WARNING: In --print mode, Claude cannot prompt for interactive permission " ++
  py "approval. Commands requiring approval may cause the CLI to hang. " ++
  py "Use `/safe` again to switch back if this happens.".

Definition handle_safe (room_id : str) : coro unit :=
  let* state := get_state room_id in
  let skip := negb (skip_permissions state) in
  modify (set_room_states (alter (with_skip_permissions skip) room_id));;
  if skip
  then await (ApiSendMessage room_id mode_skip_permissions);; ret tt
  else await (ApiSendMessage room_id mode_safe);; ret tt.

End Commands.
End bot.

(** ** The splitter on text that can be encoded

    What the two loops of the splitter compute when no [encode] raises,
    written without the exceptions; [split_message] and
    [_hard_split_line] return these values for every string without a
    surrogate, and raise for the others. *)

Definition pure_hard_step (max_bytes : Z) (st : list str * str) (char : N)
  : list str * str :=
  let '(parts, current) := st in
  let candidate := current ++ [char] in
  if max_bytes <? byte_len candidate
  then (parts ++ [current], [char])
  else (parts, candidate).

Definition pure_hard_split_line (line : str) (max_bytes : Z) : list str :=
  let '(parts, current) := fold_left (pure_hard_step max_bytes) line ([], []) in
  if truthy current then parts ++ [current] else parts.

Definition pure_split_step (max_bytes : Z) (st : list str * str) (line : str)
  : list str * str :=
  let '(chunks, current) := st in
  let candidate := if truthy current then current ++ NL :: line else line in
  if max_bytes <? byte_len candidate then
    let '(chunks, current) :=
      if truthy current then (chunks ++ [current], []) else (chunks, current) in
    if max_bytes <? byte_len line
    then (chunks ++ pure_hard_split_line line max_bytes, current)
    else (chunks, line)
  else (chunks, candidate).

Definition pure_split_message (text : str) (max_bytes : Z) : list str :=
  if byte_len text <=? max_bytes then [text]
  else
    let '(chunks, current) :=
      fold_left (pure_split_step max_bytes) (split NL text) ([], []) in
    if truthy current then chunks ++ [current] else chunks.

Import bot.

(** ** Vocabulary of the statements about the splitter *)

(** Chunks put back together, [seps] giving what stands between each
    chunk and the next. *)
Fixpoint rejoin (seps : list str) (chunks : list str) : str :=
  match chunks with
  | [] => []
  | [c] => c
  | c :: cs =>
      match seps with
      | [] => c ++ rejoin [] cs
      | sp :: seps' => c ++ sp ++ rejoin seps' cs
      end
  end.

(** A separator of the input that a chunk boundary can stand for: a line
    break, or nothing where a long line was cut. *)
Definition is_separator (sp : str) : Prop := sp = [] \/ sp = [NL].

(** No piece of [text.split("\n")] is empty: the text neither starts nor
    ends with a line break and has no two in a row. *)
Definition no_blank_line (text : str) : bool :=
  forallb truthy (split NL text).

(** Every character of the text fits the budget on its own. *)
Definition chars_fit (text : str) (max_bytes : Z) : bool :=
  forallb (fun c => byte_len [c] <=? max_bytes) text.

(** Some character of the text is not a line break. *)
Definition has_text (text : str) : bool :=
  existsb (fun c => negb (c =? NL)%N) text.

(** The line is empty, or its first character fits the budget on its
    own. *)
Definition first_fits (line : str) (max_bytes : Z) : Prop :=
  match line with
  | [] => True
  | c :: _ => byte_len [c] <= max_bytes
  end.

(** The chunk fits the budget. *)
Definition fits (max_bytes : Z) (c : str) : Prop := byte_len c <= max_bytes.

(** The loop state of either splitter holds only fitting chunks. *)
Definition state_fits (max_bytes : Z) (st : list str * str) : Prop :=
  Forall (fits max_bytes) (fst st) /\ fits max_bytes (snd st).

(** What a loop state will have emitted if the loop stops there. *)
Definition emitted (st : list str * str) : list str :=
  if truthy (snd st) then fst st ++ [snd st] else fst st.

(** The chunks give [text] back once a separator, a line break or
    nothing, is put between each chunk and the next. *)
Definition rejoins (chunks : list str) (text : str) : Prop :=
  exists seps : list str,
    length seps = Nat.pred (length chunks) /\
    Forall is_separator seps /\
    rejoin seps chunks = text.

(** The loop state accounts for the text read so far. *)
Definition accounts (st : list str * str) (t : str) : Prop :=
  emitted st <> [] /\ rejoins (emitted st) t.

(** A run of line breaks, possibly empty. *)
Definition line_breaks (sp : str) : Prop := Forall (fun c => c = NL) sp.

(** [covers chunks t]: the text [t] is the chunks in order, with a run of
    line breaks before the first, between any two, and after the last. *)
Inductive covers : list str -> str -> Prop :=
| covers_nil (sp : str) :
    line_breaks sp -> covers [] sp
| covers_snoc (chunks : list str) (t c sp : str) :
    covers chunks t -> line_breaks sp -> covers (chunks ++ [c]) (t ++ c ++ sp).

(** The state of the line loop covers the text read so far. *)
Definition covered (st : list str * str) (t : str) : Prop :=
  exists t0, covers (fst st) t0 /\ t = t0 ++ snd st.

(** ** Vocabulary of the statements about coroutines *)

Section Invariants.

Context {call : Type} {reply : call -> Type} {store : Type}.
Variable P : store -> Prop.

(** The coroutine keeps [P]: it is suspended and it ends in stores where
    [P] holds, as long as the environment gives it back such stores. *)
Fixpoint keeps {R : Type} (m : step call reply store R) : Prop :=
  match m with
  | Finish s _ => P s
  | Suspend s _ k => P s /\ forall r s', P s' -> keeps (k r s')
  end.

(** [P] holds wherever the coroutine is suspended. *)
Fixpoint awaits_in {R : Type} (m : step call reply store R) : Prop :=
  match m with
  | Finish _ _ => True
  | Suspend s _ k => P s /\ forall r s', P s' -> awaits_in (k r s')
  end.

(** The coroutine keeps [P] from every store where [P] holds. *)
Definition keeps_coro {R : Type} (m : coro call reply store R) : Prop :=
  forall s, P s -> keeps (m s).

End Invariants.

(** ** Vocabulary of the statements about the client *)

(** What [_request] raises on status 401. *)
Definition unauthorized : exn :=
  SystemExit (py "Fatal: Webex API returned 401 Unauthorized.").

(** ** Vocabulary of the statements about the bridge *)

Section BridgeVocabulary.

Import claude_cli.

Variable decode : bytes -> str.
Variable lower : str -> str.

(** The test of [send_message] on the child's stderr: whether its text,
    in lower case, holds "expired" or "credential". *)
Definition mentions_credentials (stderr : bytes) : bool :=
  contains (lower (strip (decode stderr))) (py "expired") ||
  contains (lower (strip (decode stderr))) (py "credential").

(** The text [report] returns. *)
Definition report_text (out : outputs) : str :=
  if negb (returncode out =? 0) then
    py "Claude encountered an error (exit code " ++
    str_of_Z (returncode out) ++
    py "). Try sending your message again, or disconnect and reconnect." ++
    (if mentions_credentials (stderr out) then credentials_hint else [])
  else if negb (truthy (strip (decode (stdout out)))) then
    py "Claude completed the request but returned no output."
  else strip (decode (stdout out)).

(** Two outcomes of the wait on the child that differ in the stderr
    content at most, and agree on the test made of it when the exit code
    is not zero. *)
Definition same_but_stderr (r1 r2 : result outputs) : Prop :=
  match r1, r2 with
  | Returned out1, Returned out2 =>
      stdout out1 = stdout out2 /\
      returncode out1 = returncode out2 /\
      (returncode out1 <> 0 ->
       mentions_credentials (stderr out1) = mentions_credentials (stderr out2))
  | Raised e1, Raised e2 => e1 = e2
  | _, _ => False
  end.

End BridgeVocabulary.

(** ** Vocabulary of the statements about the bot *)

Section BotVocabulary.

Variable is_authorized : str -> bool.
Variable bot_id : option str.

Implicit Types (w : env call reply memory) (m : memory).

(** The text [poll_loop] dispatches for a new message, if any: nothing
    for the bot's own messages, for senders not authorized and for texts
    that are blank. *)
Definition dispatched_text (msg : message) : option str :=
  if decide (personId msg = bot_id) then None
  else if negb (is_authorized (default [] (personEmail msg))) then None
  else if negb (truthy (strip (default [] (text msg)))) then None
  else Some (strip (default [] (text msg))).

(** The text has a character that is no white space. *)
Definition visible (t : str) : bool := existsb (fun c => negb (isspace c)) t.

(** The message is one [poll_loop] dispatches: it is not the bot's own,
    its sender is authorized, and its text is not blank. *)
Definition passes_filters (msg : message) : bool :=
  negb (bool_decide (personId msg = bot_id)) &&
  is_authorized (default [] (personEmail msg)) &&
  visible (default [] (text msg)).

(** The locals of [poll_loop] are its own: no other task changes them. *)
Definition keeps_cursors w : Prop :=
  forall h m,
    last_seen (interfere w h m) = last_seen m /\
    initialized_rooms (interfere w h m) = initialized_rooms m.

(** The calls of [dispatch] return. *)
Definition dispatch_returns w : Prop :=
  forall h room_id text, answer w h (Dispatch room_id text) = Returned tt.

(** [state.processing] of the room; a room without a state object has
    the one [get_state] would create, where the guard is not set. *)
Definition processing_of (room_id : str) m : bool :=
  processing (default BotState_default (_room_states m !! room_id)).

(** The state object of the room; for a room without one, the object
    [get_state] would create. *)
Definition state_of (room_id : str) m : BotState :=
  default BotState_default (_room_states m !! room_id).

(** The room has a state object, and its single-flight guard is set. *)
Definition guard_set (room_id : str) m : Prop :=
  exists state,
    _room_states m !! room_id = Some state /\ processing state = true.

(** The memory once a turn has set the guard of the room. *)
Definition with_guard (room_id : str) m : memory :=
  set_room_states (alter (with_processing true) room_id) m.

(** The room is connected and its single-flight guard is not set. *)
Definition guard_free (room_id : str) m : Prop :=
  exists state,
    _room_states m !! room_id = Some state /\
    processing state = false /\
    session_id state <> None.

End BotVocabulary.

(** ** Concrete environments and memories *)

Section Examples.

Import bot.

(** An environment in which no call fails and no other task runs: a
    created message has the id "m1", the backend answers "hello", and the
    feed of every room holds four messages of an authorized user, the
    newest first. *)
Definition user_message (i body : string) : message :=
  {| id := Some (py i); personId := Some (py "user");
     personEmail := Some (py "user@example.com"); text := Some (py body) |}.

Definition feed : list message :=
  [user_message "a" "newest"; user_message "b" " second ";
   user_message "x" "seen"; user_message "c" "oldest"].

Definition calm : env call reply memory :=
  {| answer := fun _ c =>
       match c return result (reply c) with
       | ApiSendMessage _ _ => Returned (user_message "m1" "")
       | ApiEditMessage _ _ _ => Returned (Some (user_message "m1" ""))
       | ApiListDirectRooms _ => Returned [ {| room_id_field := Some (py "room") |} ]
       | ApiListMessages _ _ => Returned feed
       | CliSendMessage _ _ _ _ => Returned (py "hello")
       | Dispatch _ _ => Returned tt
       | Sleep => Returned tt
       end;
     interfere := fun _ m => m |}.

Definition connected : BotState :=
  {| session_id := Some (py "s1"); session_cwd := Some (py "/tmp");
     session_label := py "demo"; skip_permissions := true;
     pending_sessions := []; processing := false |}.

(** The memory at start-up, the room connected. *)
Definition fresh : memory :=
  {| _room_states := {[ py "room" := connected ]};
     last_seen := ∅; initialized_rooms := ∅ |}.

(** The memory once the room has been polled, the cursor on [cursor]. *)
Definition polled (cursor : string) : memory :=
  {| _room_states := {[ py "room" := connected ]};
     last_seen := {[ py "room" := py cursor ]};
     initialized_rooms := {[ py "room" ]} |}.

Definition everyone (email : str) : bool := true.

(** The memory while a turn of the room is in progress. *)
Definition busy : memory :=
  {| _room_states := {[ py "room" := with_processing true connected ]};
     last_seen := ∅; initialized_rooms := ∅ |}.

(** Only the one user is authorized. *)
Definition only_user (email : str) : bool :=
  bool_decide (email = py "user@example.com").

(** A page with, newest first: a message of the user, one of the bot, a
    second one of the user, one of a stranger, a blank one of the user,
    and a third one of the user. *)
Definition mixed_feed : list message :=
  [user_message "a" "newest";
   {| id := Some (py "k"); personId := Some (py "bot");
      personEmail := Some (py "bot@example.com"); text := Some (py "Thinking...") |};
   user_message "b" " second ";
   {| id := Some (py "i"); personId := Some (py "stranger");
      personEmail := Some (py "stranger@example.com"); text := Some (py "hello") |};
   user_message "e" "   ";
   user_message "c" "oldest"].

(** As [calm], with [mixed_feed] as the feed of every room. *)
Definition crowded : env call reply memory :=
  {| answer := fun _ c =>
       match c return result (reply c) with
       | ApiSendMessage _ _ => Returned (user_message "m1" "")
       | ApiEditMessage _ _ _ => Returned (Some (user_message "m1" ""))
       | ApiListDirectRooms _ => Returned [ {| room_id_field := Some (py "room") |} ]
       | ApiListMessages _ _ => Returned mixed_feed
       | CliSendMessage _ _ _ _ => Returned (py "hello")
       | Dispatch _ _ => Returned tt
       | Sleep => Returned tt
       end;
     interfere := fun _ m => m |}.

End Examples.

Section ExamplesOfTheCollaborators.

Import webex_api claude_cli.

(** The platform answers the first request with status 429 and every
    later one with status 401. *)
Definition limited_then_refused : env webex_api.call webex_api.reply WebexAPI :=
  {| answer := fun h c =>
       match c return result (webex_api.reply c) with
       | ClientRequest _ _ _ _ =>
           Returned {| status_code := if (length h =? 0)%nat then 429 else 401;
                       retry_after := Some (py "10");
                       json_body := Returned JNull |}
       | webex_api.Sleep _ => Returned tt
       end;
     interfere := fun _ api => api |}.

Definition started : WebexAPI := {| _client := true; bot_id := Some (py "bot") |}.

Definition list_rooms : webex_api.call :=
  ClientRequest (py "GET") (py "/rooms") None None.

(** The child is started, and then either never answers or exits with
    code [rc] and the given stderr. *)
Definition child (exit : option (Z * string)) : env claude_cli.call claude_cli.reply log :=
  {| answer := fun _ c =>
       match c return result (claude_cli.reply c) with
       | Which _ => Returned (Some (py "/usr/bin/claude"))
       | Environ => Returned ∅
       | CreateSubprocessExec _ _ _ => Returned tt
       | OnProcessStarted => Returned tt
       | Communicate _ =>
           match exit with
           | None => Raised TimeoutError
           | Some (rc, err) =>
               Returned {| stdout := []; stderr := py err; returncode := rc |}
           end
       | Kill => Returned tt
       | Wait => Returned (-9)
       end;
     interfere := fun _ l => l |}.

(** Stand-ins for the decoder and for [lower] on ASCII text without
    capitals. *)
Definition as_code_points (b : bytes) : str := b.
Definition unchanged (s : str) : str := s.

End ExamplesOfTheCollaborators.

(** ** Vocabulary of the further statements about the client *)

(** The call is an HTTP request. *)
Definition is_request (c : webex_api.call) : bool :=
  match c with
  | webex_api.ClientRequest _ _ _ _ => true
  | webex_api.Sleep _ => false
  end.

(** The number of HTTP requests among the calls. *)
Definition requests_made (t : list webex_api.call) : nat :=
  length (filter (fun c => is_request c = true) t).

(** A wait, if the call is one, lasts sixty seconds at most. *)
Definition wait_bounded (c : webex_api.call) : Prop :=
  match c with
  | webex_api.ClientRequest _ _ _ _ => True
  | webex_api.Sleep seconds => seconds <= 60
  end.

(** ** Vocabulary of the further statements about the bridge *)

(** What a call that starts the child must look like: the fixed options,
    the session, the permission flag when asked for, and the message as
    the last argument, after "--"; the working directory asked for; an
    environment without CLAUDECODE. *)
Definition starts_child_properly (session_id message : str)
    (cwd : option str) (skip_permissions : bool) (c : claude_cli.call) : Prop :=
  match c with
  | claude_cli.CreateSubprocessExec cmd cwd' env =>
      (exists claude_path : str,
         cmd = [claude_path; py "--print"; py "--output-format"; py "text";
                py "--resume"; session_id] ++
               (if skip_permissions
                then [py "--dangerously-skip-permissions"] else []) ++
               [py "--"; message]) /\
      cwd' = cwd /\
      env !! py "CLAUDECODE" = None
  | _ => True
  end.

(** The call belongs to the start of the child: looking the executable
    up, copying the environment, creating the process. *)
Definition before_child_runs (c : claude_cli.call) : Prop :=
  match c with
  | claude_cli.Which _ | claude_cli.Environ
  | claude_cli.CreateSubprocessExec _ _ _ => True
  | _ => False
  end.

(** ** Vocabulary of the further statements about the splitter *)

(** The part [p] is full: it cannot take the first character of the part
    [q] that follows it without exceeding the budget. *)
Definition cannot_take (max_bytes : Z) (p q : str) : Prop :=
  match q with
  | [] => False
  | c :: _ => max_bytes < byte_len (p ++ [c])
  end.

(** Every part but the last is full. *)
Fixpoint each_full (max_bytes : Z) (parts : list str) : Prop :=
  match parts with
  | p :: (q :: _) as rest => cannot_take max_bytes p q /\ each_full max_bytes rest
  | _ => True
  end.

(** The lines of a text that are not empty. *)
Definition nonempty_lines (text : str) : list str :=
  filter (fun l => l <> []) (split NL text).

(** ** Vocabulary of the further statements about the bot *)

Section BotMoreVocabulary.

Implicit Types (w : env call reply memory) (m : memory).

(** The memory once [get_state] has run for the room. *)
Definition with_state (room_id : str) m : memory :=
  match _room_states m !! room_id with
  | Some _ => m
  | None => set_room_states (insert room_id BotState_default) m
  end.

(** The cursor of the room is on the message with this id, and the room
    is initialized. *)
Definition cursor_at (room_id newest_id : str) m : Prop :=
  last_seen m !! room_id = Some newest_id /\ room_id ∈ initialized_rooms m.

(** Other tasks leave the state object of the room alone. *)
Definition leaves_room (room_id : str) w : Prop :=
  forall h m, _room_states (interfere w h m) !! room_id = _room_states m !! room_id.

(** Sending a message to the room succeeds. *)
Definition sends_return (room_id : str) w : Prop :=
  forall h text, exists sent, answer w h (ApiSendMessage room_id text) = Returned sent.

(** The waits between two polls are not interrupted. *)
Definition sleeps_return w : Prop :=
  forall h, answer w h Sleep = Returned tt.

End BotMoreVocabulary.

(** ** Further concrete environments *)

Section MoreExamples.

Import bot.

(** As [calm], but the backend and the listing of the rooms raise [e]. *)
Definition failing (e : exn) : env call reply memory :=
  {| answer := fun _ c =>
       match c return result (reply c) with
       | ApiSendMessage _ _ => Returned (user_message "m1" "")
       | ApiEditMessage _ _ _ => Returned (Some (user_message "m1" ""))
       | ApiListDirectRooms _ => Raised e
       | ApiListMessages _ _ => Returned feed
       | CliSendMessage _ _ _ _ => Raised e
       | Dispatch _ _ => Returned tt
       | Sleep => Returned tt
       end;
     interfere := fun _ m => m |}.

(** As [calm], but a dispatch raises [e]. *)
Definition broken_dispatch (e : exn) : env call reply memory :=
  {| answer := fun _ c =>
       match c return result (reply c) with
       | ApiSendMessage _ _ => Returned (user_message "m1" "")
       | ApiEditMessage _ _ _ => Returned (Some (user_message "m1" ""))
       | ApiListDirectRooms _ => Returned [ {| room_id_field := Some (py "room") |} ]
       | ApiListMessages _ _ => Returned feed
       | CliSendMessage _ _ _ _ => Returned (py "hello")
       | Dispatch _ _ => Raised e
       | Sleep => Returned tt
       end;
     interfere := fun _ m => m |}.

(** As [calm], but the response of the backend has three lines, the
    second one long, and the platform refuses every edit:
    [edit_message] returns [None]. *)
Definition edit_refused : env call reply memory :=
  {| answer := fun _ c =>
       match c return result (reply c) with
       | ApiSendMessage _ _ => Returned (user_message "m1" "")
       | ApiEditMessage _ _ _ => Returned None
       | ApiListDirectRooms _ => Returned [ {| room_id_field := Some (py "room") |} ]
       | ApiListMessages _ _ => Returned feed
       | CliSendMessage _ _ _ _ =>
           Returned (py "ab" ++ NL :: py "cdefgh" ++ NL :: py "ij")
       | Dispatch _ _ => Returned tt
       | Sleep => Returned tt
       end;
     interfere := fun _ m => m |}.

(** The memory of a bot that has seen no room yet. *)
Definition blank : memory :=
  {| _room_states := ∅; last_seen := ∅; initialized_rooms := ∅ |}.

End MoreExamples.

Section MoreExamplesOfTheCollaborators.

Import webex_api claude_cli.

(** The platform answers the request made after [n] calls with
    [script n]; the waits return. *)
Definition scripted (script : nat -> result response)
  : env webex_api.call webex_api.reply WebexAPI :=
  {| answer := fun h c =>
       match c return result (webex_api.reply c) with
       | ClientRequest _ _ _ _ => script (length h)
       | webex_api.Sleep _ => Returned tt
       end;
     interfere := fun _ api => api |}.

Definition responded (status : Z) : response :=
  {| status_code := status;
     retry_after := Some (py "10");
     json_body := Returned JNull |}.

(** Status 429 first, 200 afterwards. *)
Definition limited_then_served : env webex_api.call webex_api.reply WebexAPI :=
  scripted (fun n => Returned (responded (if (n =? 0)%nat then 429 else 200))).

Definition always_limited : env webex_api.call webex_api.reply WebexAPI :=
  scripted (fun _ => Returned (responded 429)).

Definition unreachable : env webex_api.call webex_api.reply WebexAPI :=
  scripted (fun _ => Raised (RequestError (py "down"))).

(** The executable is found, but the process cannot be created. *)
Definition no_child (e : exn) : env claude_cli.call claude_cli.reply log :=
  {| answer := fun _ c =>
       match c return result (claude_cli.reply c) with
       | Which _ => Returned (Some (py "/usr/bin/claude"))
       | Environ => Returned ∅
       | CreateSubprocessExec _ _ _ => Raised e
       | OnProcessStarted => Returned tt
       | Communicate _ => Raised TimeoutError
       | Kill => Returned tt
       | Wait => Returned (-9)
       end;
     interfere := fun _ l => l |}.

End MoreExamplesOfTheCollaborators.

(** ** Properties of the text operations *)

Section TextFacts.

Lemma byte_len_nil : byte_len [] = 0.
Proof. reflexivity. Qed.

Lemma byte_len_app (a b : str) : byte_len (a ++ b) = byte_len a + byte_len b.
Proof.
  unfold byte_len.
  rewrite flat_map_app, length_app. lia.
Qed.

Lemma byte_len_cons (c : N) (s : str) :
  byte_len (c :: s) = byte_len [c] + byte_len s.
Proof. apply (byte_len_app [c] s). Qed.

Lemma byte_len_nonneg (s : str) : 0 <= byte_len s.
Proof. unfold byte_len. lia. Qed.

(** A code point takes between one and four bytes. *)
Lemma byte_len_char (c : N) : 1 <= byte_len [c] <= 4.
Proof.
  unfold byte_len, utf8_char. simpl.
  repeat case_match; simpl; lia.
Qed.

Lemma encodable_app (a b : str) :
  encodable (a ++ b) = encodable a && encodable b.
Proof. apply forallb_app. Qed.

(** A string without surrogates is encoded, into [byte_len] bytes. *)
Lemma encode_utf8_encodable (s : str) :
  encodable s = true -> encode_utf8 s = Some (flat_map utf8_char s).
Proof.
  induction s as [|c s IH]; [reflexivity|].
  simpl. unfold encode_char. intros H. apply andb_true_iff in H as [Hc Hs].
  destruct (is_surrogate c); [discriminate|]. now rewrite (IH Hs).
Qed.

(** A string with a surrogate is not. *)
Lemma encode_utf8_surrogate (s : str) :
  encodable s = false -> encode_utf8 s = None.
Proof.
  induction s as [|c s IH]; [discriminate|].
  simpl. unfold encode_char. intros H. apply andb_false_iff in H as [Hc|Hs].
  - destruct (is_surrogate c); [reflexivity|discriminate].
  - rewrite (IH Hs). now destruct (is_surrogate c).
Qed.

Lemma truthy_true (s : str) : truthy s = true <-> s <> [].
Proof. destruct s; simpl; split; congruence. Qed.

Lemma truthy_false (s : str) : truthy s = false <-> s = [].
Proof. destruct s; simpl; split; congruence. Qed.

Lemma split_not_nil (sep : N) (s : str) : split sep s <> [].
Proof. destruct s as [|c s]; simpl; repeat case_match; congruence. Qed.

(** Splitting loses nothing: joining the pieces gives the text back. *)
Lemma join_split (sep : N) (s : str) : join sep (split sep s) = s.
Proof.
  induction s as [|c s IH]; [reflexivity|].
  simpl. destruct (N.eqb_spec c sep) as [->|Hne].
  - pose proof (split_not_nil sep s) as Hnn.
    destruct (split sep s) as [|l ls]; [congruence|].
    simpl in *. now rewrite IH.
  - destruct (split sep s) as [|l ls] eqn:E; [now destruct (split_not_nil sep s)|].
    simpl in *. destruct ls; simpl in *; now rewrite <- IH.
Qed.

(** The characters of every piece are characters of the text. *)
Lemma split_Forall (P : N -> Prop) (sep : N) (s : str) :
  Forall P s -> Forall (Forall P) (split sep s).
Proof.
  induction 1 as [|c s Hc Hs IH]; simpl.
  - repeat constructor.
  - destruct (c =? sep)%N; [constructor; [constructor|assumption]|].
    destruct (split sep s) as [|l ls]; [repeat constructor; assumption|].
    inversion IH; subst. constructor; [constructor|]; assumption.
Qed.

(** A character other than the separator lies in some piece. *)
Lemma split_has_piece (sep c : N) (s : str) :
  In c s -> c <> sep -> Exists (fun l => l <> []) (split sep s).
Proof.
  induction s as [|d s IH]; simpl; [tauto|].
  intros [->|Hin] Hne.
  - destruct (N.eqb_spec c sep); [congruence|].
    destruct (split sep s); constructor; congruence.
  - specialize (IH Hin Hne).
    destruct (d =? sep)%N; [now apply Exists_cons_tl|].
    destruct (split sep s) as [|l ls]; [constructor; congruence|].
    inversion IH; subst; [constructor; congruence|now apply Exists_cons_tl].
Qed.

(** An invariant of a left fold whose elements all satisfy [Q]. *)
Lemma fold_left_invariant {A B : Type} (P : A -> Prop) (Q : B -> Prop)
    (f : A -> B -> A) :
  (forall a b, P a -> Q b -> P (f a b)) ->
  forall l a, Forall Q l -> P a -> P (fold_left f l a).
Proof.
  intros Hstep l. induction l as [|b l IH]; simpl; intros a Hl Ha; [assumption|].
  inversion Hl; subst. apply IH; auto.
Qed.

End TextFacts.

(** ** The splitter: byte budget *)

Section SplitterBudget.

Variable max_bytes : Z.
Hypothesis budget_pos : 0 < max_bytes.

Local Abbreviation fits := (fits max_bytes).
Local Abbreviation state_fits := (state_fits max_bytes).

Lemma chars_fit_Forall (s : str) :
  chars_fit s max_bytes = true <-> Forall (fun c => fits [c]) s.
Proof.
  unfold chars_fit, fits. rewrite forallb_forall, List.Forall_forall.
  split; intros H c Hc; specialize (H c Hc); lia.
Qed.

Lemma state_fits_init : state_fits ([], []).
Proof. split; [constructor|]. unfold fits. simpl. rewrite byte_len_nil. lia. Qed.

Lemma hard_step_fits (st : list str * str) (c : N) :
  state_fits st -> fits [c] -> state_fits (pure_hard_step max_bytes st c).
Proof.
  destruct st as [parts current]. intros [Hp Hc] Hch.
  unfold pure_hard_step. destruct (Z.ltb_spec max_bytes (byte_len (current ++ [c]))).
  - split; simpl; [|assumption].
    apply Forall_app; split; [assumption|]. constructor; [assumption|constructor].
  - split; simpl; assumption.
Qed.

Lemma hard_split_fits (line : str) :
  Forall (fun c => fits [c]) line ->
  Forall fits (pure_hard_split_line line max_bytes).
Proof.
  intros Hl. unfold pure_hard_split_line.
  pose proof (fold_left_invariant state_fits (fun c => fits [c])
                (pure_hard_step max_bytes) hard_step_fits line ([], []) Hl
                state_fits_init) as Hinv.
  destruct (fold_left (pure_hard_step max_bytes) line ([], [])) as [parts current].
  destruct Hinv as [Hp Hc]. simpl in *.
  destruct (truthy current); [|assumption].
  apply Forall_app; split; [assumption|]. constructor; [assumption|constructor].
Qed.

Lemma split_step_fits (st : list str * str) (line : str) :
  state_fits st -> Forall (fun c => fits [c]) line ->
  state_fits (pure_split_step max_bytes st line).
Proof.
  destruct st as [chunks current]. intros [Hp Hc] Hl. simpl in Hp, Hc.
  unfold pure_split_step.
  destruct (Z.ltb_spec max_bytes
              (byte_len (if truthy current then current ++ NL :: line else line)))
    as [Hbig|Hok].
  - assert (Hflush : state_fits
              (if truthy current then (chunks ++ [current], []) else (chunks, current))).
    { destruct (truthy current); split; simpl; try assumption.
      - apply Forall_app; split; [assumption|]. constructor; [assumption|constructor].
      - apply state_fits_init. }
    destruct (if truthy current then (chunks ++ [current], []) else (chunks, current))
      as [chunks1 current1].
    destruct Hflush as [Hp1 Hc1]. simpl in Hp1, Hc1.
    destruct (Z.ltb_spec max_bytes (byte_len line)).
    + split; simpl; [|assumption].
      apply Forall_app; split; [assumption|]. now apply hard_split_fits.
    + split; simpl; assumption.
  - split; simpl; assumption.
Qed.

Lemma split_message_fits (text : str) :
  Forall (fun c => fits [c]) text ->
  Forall fits (pure_split_message text max_bytes).
Proof.
  intros Ht. unfold pure_split_message.
  destruct (Z.leb_spec (byte_len text) max_bytes) as [Hle|Hgt].
  - constructor; [assumption|constructor].
  - pose proof (fold_left_invariant state_fits (Forall (fun c => fits [c]))
                  (pure_split_step max_bytes) split_step_fits (split NL text) ([], [])
                  (split_Forall _ NL text Ht) state_fits_init) as Hinv.
    destruct (fold_left (pure_split_step max_bytes) (split NL text) ([], []))
      as [chunks current].
    destruct Hinv as [Hp Hc]. simpl in *.
    destruct (truthy current); [|assumption].
    apply Forall_app; split; [assumption|]. constructor; [assumption|constructor].
Qed.

(** From four bytes on, every character fits. *)
Lemma chars_fit_from_4 (text : str) : 4 <= max_bytes -> chars_fit text max_bytes = true.
Proof.
  intros H4. unfold chars_fit. apply forallb_forall. intros c _.
  pose proof (byte_len_char c). lia.
Qed.

End SplitterBudget.

(** ** The splitter: what is emitted *)

Section SplitterOutput.

Variable max_bytes : Z.

Lemma emitted_snoc (chunks : list str) (current : str) :
  current <> [] -> emitted (chunks, current) = chunks ++ [current].
Proof. intros H. unfold emitted. simpl. apply truthy_true in H. now rewrite H. Qed.

Lemma hard_split_emitted (line : str) :
  pure_hard_split_line line max_bytes =
  emitted (fold_left (pure_hard_step max_bytes) line ([], [])).
Proof.
  unfold pure_hard_split_line, emitted.
  now destruct (fold_left (pure_hard_step max_bytes) line ([], [])).
Qed.

Lemma split_message_emitted (text : str) :
  max_bytes < byte_len text ->
  pure_split_message text max_bytes =
  emitted (fold_left (pure_split_step max_bytes) (split NL text) ([], [])).
Proof.
  intros H. unfold pure_split_message, emitted.
  destruct (Z.leb_spec (byte_len text) max_bytes); [lia|].
  now destruct (fold_left (pure_split_step max_bytes) (split NL text) ([], [])).
Qed.

(** After a character has been read, the hard splitter holds a non-empty
    [current]. *)
Lemma hard_step_current (st : list str * str) (c : N) :
  snd (pure_hard_step max_bytes st c) <> [].
Proof.
  destruct st as [parts current]. unfold pure_hard_step.
  destruct (max_bytes <? byte_len (current ++ [c])); simpl; [congruence|].
  destruct current; simpl; congruence.
Qed.

Lemma hard_fold_current (line : str) (st : list str * str) :
  snd st <> [] -> snd (fold_left (pure_hard_step max_bytes) line st) <> [].
Proof.
  revert st. induction line as [|c line IH]; simpl; intros st H; [assumption|].
  apply IH, hard_step_current.
Qed.

Lemma hard_split_not_nil (line : str) :
  line <> [] -> pure_hard_split_line line max_bytes <> [].
Proof.
  destruct line as [|c line]; [congruence|]. intros _.
  rewrite hard_split_emitted. simpl.
  pose proof (hard_fold_current line (pure_hard_step max_bytes ([], []) c)
                (hard_step_current _ _)) as H.
  destruct (fold_left _ line _) as [parts current]. simpl in H.
  rewrite emitted_snoc by assumption. destruct parts; simpl; congruence.
Qed.

(** The hard splitter cuts, and cuts only: its parts concatenate to what
    it has read. *)
Lemma hard_fold_concat (line : str) (st : list str * str) :
  let st' := fold_left (pure_hard_step max_bytes) line st in
  concat (fst st') ++ snd st' = (concat (fst st) ++ snd st) ++ line.
Proof.
  revert st. induction line as [|c line IH]; intros [parts current]; simpl.
  - now rewrite app_nil_r.
  - simpl in IH. rewrite IH. unfold pure_hard_step.
    destruct (max_bytes <? byte_len (current ++ [c])); simpl.
    + rewrite concat_app. simpl. rewrite app_nil_r, <- !app_assoc. reflexivity.
    + rewrite <- !app_assoc. reflexivity.
Qed.

Lemma hard_split_concat (line : str) :
  concat (pure_hard_split_line line max_bytes) = line.
Proof.
  rewrite hard_split_emitted.
  pose proof (hard_fold_concat line ([], [])) as H. simpl in H.
  destruct (fold_left (pure_hard_step max_bytes) line ([], [])) as [parts current].
  simpl in H. unfold emitted. simpl.
  destruct current as [|c current]; simpl.
  - now rewrite app_nil_r in H.
  - rewrite concat_app. simpl. now rewrite app_nil_r.
Qed.

(** With every character fitting the budget, no part is empty. *)
Lemma hard_step_parts (st : list str * str) (c : N) :
  byte_len [c] <= max_bytes ->
  Forall (fun p => p <> []) (fst st) ->
  Forall (fun p => p <> []) (fst (pure_hard_step max_bytes st c)).
Proof.
  destruct st as [parts current]. intros Hc Hp. simpl in Hp. unfold pure_hard_step.
  destruct (Z.ltb_spec max_bytes (byte_len (current ++ [c]))); simpl; [|assumption].
  apply Forall_app; split; [assumption|]. constructor; [|constructor].
  intros ->. simpl in *. lia.
Qed.

Lemma hard_split_no_empty (line : str) :
  chars_fit line max_bytes = true ->
  Forall (fun p => p <> []) (pure_hard_split_line line max_bytes).
Proof.
  intros Hl. rewrite hard_split_emitted.
  assert (Hinv : Forall (fun p => p <> [])
            (fst (fold_left (pure_hard_step max_bytes) line ([], [])))).
  { apply (fold_left_invariant (fun st => Forall (fun p : str => p <> []) (fst st))
             (fun c => byte_len [c] <= max_bytes)).
    - intros a b Ha Hb. now apply hard_step_parts.
    - unfold chars_fit in Hl. rewrite forallb_forall in Hl.
      apply List.Forall_forall. intros c Hc. specialize (Hl c Hc). lia.
    - constructor. }
  destruct (fold_left (pure_hard_step max_bytes) line ([], [])) as [parts current].
  unfold emitted. simpl in *. destruct current; simpl; [assumption|].
  apply Forall_app; split; [assumption|]. constructor; [congruence|constructor].
Qed.

(** Once the line splitter has something to emit, it keeps having. *)
Lemma split_step_emitted_keeps (st : list str * str) (line : str) :
  emitted st <> [] -> emitted (pure_split_step max_bytes st line) <> [].
Proof.
  destruct st as [chunks current]. unfold emitted, pure_split_step. simpl.
  destruct current as [|c current]; simpl; intros H.
  - destruct (max_bytes <? byte_len line) eqn:E; simpl.
    + destruct chunks; simpl in *; congruence.
    + destruct line; simpl; [assumption|]. destruct chunks; simpl; congruence.
  - destruct (max_bytes <? byte_len (c :: current ++ NL :: line)); simpl.
    + destruct (max_bytes <? byte_len line); simpl.
      * destruct chunks; simpl; congruence.
      * destruct line; simpl; destruct chunks; simpl; congruence.
    + destruct chunks; simpl; congruence.
Qed.

(** A non-empty line gives it something to emit. *)
Lemma split_step_emitted_line (st : list str * str) (line : str) :
  line <> [] -> emitted (pure_split_step max_bytes st line) <> [].
Proof.
  intros Hl. destruct st as [chunks current].
  destruct current as [|c current].
  - unfold emitted, pure_split_step. simpl.
    destruct (max_bytes <? byte_len line) eqn:E; simpl.
    + pose proof (hard_split_not_nil line Hl).
      destruct chunks, (pure_hard_split_line line max_bytes); simpl; congruence.
    + destruct line; [congruence|]. simpl. destruct chunks; simpl; congruence.
  - apply split_step_emitted_keeps. unfold emitted. simpl.
    destruct chunks; simpl; congruence.
Qed.

Lemma split_fold_emitted_keeps (lines : list str) (st : list str * str) :
  emitted st <> [] -> emitted (fold_left (pure_split_step max_bytes) lines st) <> [].
Proof.
  revert st. induction lines as [|l lines IH]; simpl; intros st H; [assumption|].
  apply IH, split_step_emitted_keeps, H.
Qed.

Lemma split_fold_emitted (lines : list str) (st : list str * str) :
  Exists (fun l => l <> []) lines ->
  emitted (fold_left (pure_split_step max_bytes) lines st) <> [].
Proof.
  intros Hex. revert st. induction Hex as [l lines Hl|l lines _ IH]; simpl; intros st.
  - apply split_fold_emitted_keeps, split_step_emitted_line, Hl.
  - apply IH.
Qed.

End SplitterOutput.

(** ** The splitter: putting the chunks back together *)

Section SplitterRejoin.

Variable max_bytes : Z.

Lemma rejoin_cons2 (sp : str) (seps : list str) (c c' : str) (cs : list str) :
  rejoin (sp :: seps) (c :: c' :: cs) = c ++ sp ++ rejoin seps (c' :: cs).
Proof. reflexivity. Qed.

Lemma rejoins_single (c : str) : rejoins [c] c.
Proof. exists []. repeat split. constructor. Qed.

Lemma rejoins_app (a b : list str) (t u sp : str) :
  a <> [] -> b <> [] -> is_separator sp ->
  rejoins a t -> rejoins b u -> rejoins (a ++ b) (t ++ sp ++ u).
Proof.
  intros Ha Hb Hsp [sa (Hla & Hfa & Hja)] [sb (Hlb & Hfb & Hjb)].
  exists (sa ++ sp :: sb). split; [|split].
  - rewrite !length_app. simpl. destruct a, b; simpl in *; congruence || lia.
  - apply Forall_app; split; [assumption|]. now constructor.
  - subst t u. clear Hfa Hfb Hlb.
    revert sa Hla. induction a as [|c a IH]; [congruence|]. intros sa Hla.
    destruct a as [|c' a].
    + destruct sa; [|discriminate]. destruct b as [|d b]; [congruence|].
      reflexivity.
    + destruct sa as [|s0 sa]; [discriminate|].
      change ((c :: c' :: a) ++ b) with (c :: c' :: (a ++ b)).
      change ((s0 :: sa) ++ sp :: sb) with (s0 :: (sa ++ sp :: sb)).
      rewrite !rejoin_cons2.
      change (c' :: a ++ b) with ((c' :: a) ++ b).
      rewrite IH; [|congruence|simpl in *; lia].
      now rewrite <- !app_assoc.
Qed.

Lemma rejoins_extend_last (cs : list str) (c x t : str) :
  rejoins (cs ++ [c]) t -> rejoins (cs ++ [c ++ x]) (t ++ x).
Proof.
  intros [seps (Hl & Hf & Hj)]. exists seps. split; [|split; [assumption|]].
  - rewrite length_app in *. simpl in *. assumption.
  - subst t. clear Hf. revert seps Hl.
    induction cs as [|d cs IH]; intros seps Hl; [reflexivity|].
    destruct seps as [|sp seps]; [rewrite length_app in Hl; simpl in Hl; lia|].
    destruct cs as [|d' cs].
    + simpl. now rewrite <- !app_assoc.
    + change ((d :: d' :: cs) ++ [c ++ x]) with (d :: d' :: (cs ++ [c ++ x])).
      change ((d :: d' :: cs) ++ [c]) with (d :: d' :: (cs ++ [c])).
      rewrite !rejoin_cons2.
      change (d' :: cs ++ [c ++ x]) with ((d' :: cs) ++ [c ++ x]).
      rewrite IH; [|simpl in *; lia].
      now rewrite <- !app_assoc.
Qed.

Lemma rejoins_concat (cs : list str) : cs <> [] -> rejoins cs (concat cs).
Proof.
  induction cs as [|c cs IH]; [congruence|]. intros _.
  destruct cs as [|c' cs].
  - simpl. rewrite app_nil_r. apply rejoins_single.
  - change (concat (c :: c' :: cs)) with (c ++ [] ++ concat (c' :: cs)).
    apply (rejoins_app [c] (c' :: cs)); try congruence.
    + now left.
    + apply rejoins_single.
    + apply IH. congruence.
Qed.

Lemma rejoins_hard_split (line : str) :
  line <> [] -> rejoins (pure_hard_split_line line max_bytes) line.
Proof.
  intros Hl. rewrite <- (hard_split_concat max_bytes line) at 2.
  apply rejoins_concat, hard_split_not_nil, Hl.
Qed.

Lemma split_step_first (line : str) :
  line <> [] -> accounts (pure_split_step max_bytes ([], []) line) line.
Proof.
  intros Hl. unfold pure_split_step. simpl.
  destruct (max_bytes <? byte_len line); simpl.
  - split; unfold emitted; simpl.
    + now apply hard_split_not_nil.
    + now apply rejoins_hard_split.
  - split; rewrite emitted_snoc by assumption; simpl; [congruence|].
    apply rejoins_single.
Qed.

Lemma split_step_accounts (st : list str * str) (t line : str) :
  line <> [] -> accounts st t ->
  accounts (pure_split_step max_bytes st line) (t ++ NL :: line).
Proof.
  intros Hl [Hne Hrj]. split; [now apply split_step_emitted_keeps|].
  assert (Hnl : is_separator [NL]) by now right.
  pose proof (hard_split_not_nil max_bytes line Hl) as Hhard.
  pose proof (rejoins_hard_split line Hl) as Hhardj.
  pose proof (rejoins_single line) as Hline.
  destruct st as [chunks current]. destruct current as [|c current].
  - unfold emitted in Hne, Hrj. simpl in Hne, Hrj.
    unfold pure_split_step. simpl.
    destruct (max_bytes <? byte_len line) eqn:E; simpl.
    + unfold emitted. simpl.
      now apply (rejoins_app chunks _ t line [NL]).
    + rewrite emitted_snoc by assumption.
      apply (rejoins_app chunks [line] t line [NL]); auto.
  - rewrite emitted_snoc in Hrj by congruence.
    assert (Hflush : chunks ++ [c :: current] <> [])
      by (destruct chunks; simpl; congruence).
    unfold pure_split_step.
    change (truthy (c :: current)) with true. cbv iota.
    destruct (max_bytes <? byte_len ((c :: current) ++ NL :: line)).
    + cbv iota beta. destruct (max_bytes <? byte_len line).
      * unfold emitted. simpl.
        now apply (rejoins_app (chunks ++ [c :: current]) _ t line [NL]).
      * rewrite emitted_snoc by assumption.
        apply (rejoins_app (chunks ++ [c :: current]) [line] t line [NL]); auto.
    + rewrite emitted_snoc by (simpl; congruence).
      now apply rejoins_extend_last.
Qed.

Lemma split_fold_accounts (lines : list str) (st : list str * str) (t : str) :
  Forall (fun l => l <> []) lines -> accounts st t ->
  accounts (fold_left (pure_split_step max_bytes) lines st)
           (fold_left (fun t l => t ++ NL :: l) lines t).
Proof.
  intros Hl. revert st t.
  induction Hl as [|l lines Hne _ IH]; simpl; intros st t Hacc; [assumption|].
  apply IH, split_step_accounts; assumption.
Qed.

Lemma join_fold (l : str) (lines : list str) :
  join NL (l :: lines) = fold_left (fun t l => t ++ NL :: l) lines l.
Proof.
  revert l. induction lines as [|l' lines IH]; intros l; [reflexivity|].
  simpl fold_left. rewrite <- IH.
  change (join NL (l :: l' :: lines)) with (l ++ NL :: join NL (l' :: lines)).
  destruct lines as [|l'' lines]; simpl; [reflexivity|].
  now rewrite <- app_assoc.
Qed.

Lemma split_message_rejoins (text : str) :
  byte_len text <= max_bytes \/ no_blank_line text = true ->
  rejoins (pure_split_message text max_bytes) text.
Proof.
  intros H.
  destruct (Z.leb_spec (byte_len text) max_bytes) as [Hle|Hgt].
  - unfold pure_split_message.
    destruct (Z.leb_spec (byte_len text) max_bytes); [|lia].
    apply rejoins_single.
  - destruct H as [H|H]; [lia|].
    rewrite split_message_emitted by assumption.
    unfold no_blank_line in H. rewrite forallb_forall in H.
    assert (Hall : Forall (fun l : str => l <> []) (split NL text)).
    { apply List.Forall_forall. intros l Hin. apply truthy_true. now apply H. }
    pose proof (join_split NL text) as Hjoin.
    pose proof (split_not_nil NL text) as Hnn.
    destruct (split NL text) as [|l lines]; [congruence|].
    inversion Hall as [|l0 lines0 Hl0 Hrest].
    rewrite join_fold in Hjoin. rewrite <- Hjoin.
    simpl fold_left at 1.
    apply split_fold_accounts; [assumption|].
    now apply split_step_first.
Qed.

End SplitterRejoin.

(** ** The splitter: what the chunk boundaries stand for *)

Section SplitterCovers.

Variable max_bytes : Z.

Lemma line_breaks_nil : line_breaks [].
Proof. constructor. Qed.

Lemma line_breaks_one : line_breaks [NL].
Proof. repeat constructor. Qed.

Lemma line_breaks_app (a b : str) :
  line_breaks a -> line_breaks b -> line_breaks (a ++ b).
Proof. intros Ha Hb. apply Forall_app. now split. Qed.

Lemma covers_snoc_plain (chunks : list str) (t c : str) :
  covers chunks t -> covers (chunks ++ [c]) (t ++ c).
Proof.
  intros H. rewrite <- (app_nil_r c) at 2.
  apply covers_snoc; [assumption|apply line_breaks_nil].
Qed.

(** More line breaks at the end are covered as well. *)
Lemma covers_extend (chunks : list str) (t sp : str) :
  covers chunks t -> line_breaks sp -> covers chunks (t ++ sp).
Proof.
  intros H Hsp. destruct H as [sp0 H0|chunks t c sp0 H H0].
  - apply covers_nil. now apply line_breaks_app.
  - rewrite <- !app_assoc. apply covers_snoc; [assumption|].
    now apply line_breaks_app.
Qed.

(** Parts cut from one line follow one another with nothing between. *)
Lemma covers_parts (parts chunks : list str) (t : str) :
  covers chunks t -> covers (chunks ++ parts) (t ++ concat parts).
Proof.
  revert chunks t. induction parts as [|p parts IH]; intros chunks t H; simpl.
  - now rewrite !app_nil_r.
  - change (chunks ++ p :: parts) with (chunks ++ [p] ++ parts).
    rewrite !app_assoc. apply IH. now apply covers_snoc_plain.
Qed.

Lemma split_step_covered_first (line : str) :
  covered (pure_split_step max_bytes ([], []) line) line.
Proof.
  unfold pure_split_step. simpl.
  destruct (max_bytes <? byte_len line); simpl.
  - exists line. split; [|now rewrite app_nil_r].
    rewrite <- (hard_split_concat max_bytes line) at 2.
    apply (covers_parts _ [] []). apply covers_nil, line_breaks_nil.
  - exists []. split; [|reflexivity]. apply covers_nil, line_breaks_nil.
Qed.

Lemma split_step_covered (st : list str * str) (t line : str) :
  covered st t -> covered (pure_split_step max_bytes st line) (t ++ NL :: line).
Proof.
  destruct st as [chunks current]. intros (t0 & Hcov & ->). simpl in Hcov.
  pose proof (hard_split_concat max_bytes line) as Hhard.
  destruct current as [|c current].
  - rewrite app_nil_r. unfold pure_split_step. simpl.
    assert (Hnl : covers chunks (t0 ++ [NL]))
      by (apply covers_extend; [assumption|apply line_breaks_one]).
    destruct (max_bytes <? byte_len line); simpl.
    + exists (t0 ++ NL :: line). split; [|now rewrite app_nil_r].
      rewrite <- Hhard at 2.
      change (t0 ++ NL :: concat (pure_hard_split_line line max_bytes))
        with (t0 ++ [NL] ++ concat (pure_hard_split_line line max_bytes)).
      rewrite app_assoc. now apply covers_parts.
    + exists (t0 ++ [NL]). split; [assumption|]. now rewrite <- app_assoc.
  - unfold pure_split_step.
    change (truthy (c :: current)) with true. cbv iota.
    assert (Hflush : covers (chunks ++ [c :: current])
                       (t0 ++ (c :: current) ++ [NL]))
      by (apply covers_snoc; [assumption|apply line_breaks_one]).
    destruct (max_bytes <? byte_len ((c :: current) ++ NL :: line)).
    + cbv iota beta. destruct (max_bytes <? byte_len line); simpl.
      * exists ((t0 ++ c :: current) ++ NL :: line).
        split; [|now rewrite app_nil_r].
        rewrite <- Hhard at 2.
        replace ((t0 ++ c :: current) ++
                 NL :: concat (pure_hard_split_line line max_bytes))
          with ((t0 ++ (c :: current) ++ [NL]) ++
                concat (pure_hard_split_line line max_bytes))
          by (now rewrite <- !app_assoc).
        now apply covers_parts.
      * exists (t0 ++ (c :: current) ++ [NL]). split; [assumption|].
        now rewrite <- !app_assoc.
    + exists t0. split; [assumption|]. simpl. now rewrite <- !app_assoc.
Qed.

Lemma split_fold_covered (lines : list str) (st : list str * str) (t : str) :
  covered st t ->
  covered (fold_left (pure_split_step max_bytes) lines st)
          (fold_left (fun t l => t ++ NL :: l) lines t).
Proof.
  revert st t. induction lines as [|l lines IH]; simpl; intros st t H;
    [assumption|].
  apply IH, split_step_covered, H.
Qed.

Lemma covered_emitted (st : list str * str) (t : str) :
  covered st t -> covers (emitted st) t.
Proof.
  destruct st as [chunks current]. intros (t0 & Hcov & ->). simpl in Hcov.
  unfold emitted. simpl. destruct current as [|c current]; simpl.
  - now rewrite app_nil_r.
  - now apply covers_snoc_plain.
Qed.

Lemma split_message_covers (text : str) :
  covers (pure_split_message text max_bytes) text.
Proof.
  destruct (Z.leb_spec (byte_len text) max_bytes) as [Hle|Hgt].
  - unfold pure_split_message.
    destruct (Z.leb_spec (byte_len text) max_bytes); [|lia].
    apply (covers_snoc_plain [] [] text). apply covers_nil, line_breaks_nil.
  - rewrite split_message_emitted by assumption.
    apply covered_emitted.
    pose proof (join_split NL text) as Hjoin.
    pose proof (split_not_nil NL text) as Hnn.
    destruct (split NL text) as [|l lines]; [congruence|].
    rewrite join_fold in Hjoin. rewrite <- Hjoin.
    simpl fold_left at 1.
    apply split_fold_covered, split_step_covered_first.
Qed.

Lemma rejoin_snoc (seps chunks : list str) (sp c : str) :
  chunks <> [] -> length seps = Nat.pred (length chunks) ->
  rejoin (seps ++ [sp]) (chunks ++ [c]) = rejoin seps chunks ++ sp ++ c.
Proof.
  revert seps. induction chunks as [|d chunks IH]; [congruence|].
  intros seps _ Hlen. destruct chunks as [|d' chunks].
  - destruct seps; [reflexivity|discriminate].
  - destruct seps as [|s0 seps]; [discriminate|].
    change ((d :: d' :: chunks) ++ [c]) with (d :: d' :: (chunks ++ [c])).
    change ((s0 :: seps) ++ [sp]) with (s0 :: (seps ++ [sp])).
    rewrite !rejoin_cons2.
    change (d' :: chunks ++ [c]) with ((d' :: chunks) ++ [c]).
    rewrite IH; [|congruence|simpl in *; lia].
    now rewrite <- !app_assoc.
Qed.

(** A covered text is the chunks rejoined with runs of line breaks, with
    a run before and a run after. *)
Lemma covers_rejoin (chunks : list str) (t : str) :
  covers chunks t ->
  exists (lead : str) (seps : list str) (trail : str),
    line_breaks lead /\ Forall line_breaks seps /\ line_breaks trail /\
    length seps = Nat.pred (length chunks) /\
    t = lead ++ rejoin seps chunks ++ trail.
Proof.
  induction 1 as [sp Hsp|chunks t c sp _ IH Hsp].
  - exists sp, [], []. repeat split; try constructor; try assumption.
    simpl. now rewrite app_nil_r.
  - destruct IH as (lead & seps & trail & Hlead & Hseps & Htrail & Hlen & ->).
    destruct chunks as [|d chunks].
    + exists (lead ++ trail), [], sp. simpl in Hlen.
      destruct seps; [|discriminate]. simpl.
      split; [now apply line_breaks_app|]. split; [constructor|].
      split; [assumption|]. split; [reflexivity|].
      now rewrite <- !app_assoc.
    + exists lead, (seps ++ [trail]), sp.
      split; [assumption|].
      split; [apply Forall_app; split; [assumption|now constructor]|].
      split; [assumption|].
      split; [rewrite !length_app; simpl in *; lia|].
      rewrite rejoin_snoc by (congruence || assumption).
      now rewrite <- !app_assoc.
Qed.

End SplitterCovers.

(** ** The splitter and the exceptions of the encoder *)

Section SplitterEncoding.

Variable max_bytes : Z.

Lemma encoded_len_returns (s : str) :
  encodable s = true -> encoded_len s = Returned (byte_len s).
Proof.
  intros H. unfold encoded_len, byte_len. now rewrite encode_utf8_encodable.
Qed.

Lemma encoded_len_raises (s : str) :
  encodable s = false -> encoded_len s = Raised UnicodeEncodeError.
Proof. intros H. unfold encoded_len. now rewrite encode_utf8_surrogate. Qed.

Lemma encodable_cons (c : N) (s : str) :
  encodable (c :: s) = negb (is_surrogate c) && encodable s.
Proof. reflexivity. Qed.

Lemma encodable_snoc (s : str) (c : N) :
  encodable (s ++ [c]) = encodable s && negb (is_surrogate c).
Proof. rewrite encodable_app. simpl. now rewrite andb_true_r. Qed.

Lemma encodable_Forall (s : str) :
  encodable s = true <-> Forall (fun c => is_surrogate c = false) s.
Proof.
  induction s as [|c s IH]; simpl; [split; [constructor|reflexivity]|].
  rewrite andb_true_iff, IH, negb_true_iff. split.
  - intros [Hc Hs]. now constructor.
  - intros H. inversion H; subst. auto.
Qed.

(** The lines of a text that can be encoded can be encoded. *)
Lemma encodable_lines (text : str) :
  encodable text = true ->
  Forall (fun l => encodable l = true) (split NL text).
Proof.
  intros H. apply encodable_Forall in H.
  eapply Forall_impl; [apply (split_Forall _ NL text H)|].
  intros l Hl. now apply encodable_Forall.
Qed.

Lemma hard_step_returns (st : list str * str) (c : N) :
  encodable (snd st) = true -> is_surrogate c = false ->
  hard_step max_bytes st c = Returned (pure_hard_step max_bytes st c) /\
  encodable (snd (pure_hard_step max_bytes st c)) = true.
Proof.
  destruct st as [parts current]. simpl. intros Hcur Hc.
  unfold hard_step, pure_hard_step.
  rewrite encoded_len_returns by (rewrite encodable_snoc, Hcur, Hc; reflexivity).
  simpl. destruct (max_bytes <? byte_len (current ++ [c])); simpl.
  - split; [reflexivity|]. now rewrite Hc.
  - split; [reflexivity|]. now rewrite encodable_snoc, Hcur, Hc.
Qed.

Lemma hard_loop_returns (line : str) :
  forall st, encodable (snd st) = true -> encodable line = true ->
    for_loop (hard_step max_bytes) line st
    = Returned (fold_left (pure_hard_step max_bytes) line st).
Proof.
  induction line as [|c line IH]; intros st Hst Hline; [reflexivity|].
  rewrite encodable_cons in Hline. apply andb_true_iff in Hline as [Hc Hline].
  apply negb_true_iff in Hc.
  destruct (hard_step_returns st c Hst Hc) as [Hstep Hnext].
  simpl. rewrite Hstep. simpl. now apply IH.
Qed.

Lemma hard_loop_raises (line : str) :
  forall st, encodable (snd st) = true -> encodable line = false ->
    for_loop (hard_step max_bytes) line st = Raised UnicodeEncodeError.
Proof.
  induction line as [|c line IH]; intros st Hst Hline; [discriminate|].
  rewrite encodable_cons in Hline.
  destruct (is_surrogate c) eqn:Hc.
  - destruct st as [parts current]. simpl. unfold hard_step.
    rewrite encoded_len_raises; [reflexivity|].
    now rewrite encodable_snoc, Hc, andb_false_r.
  - simpl in Hline.
    destruct (hard_step_returns st c Hst Hc) as [Hstep Hnext].
    simpl. rewrite Hstep. simpl. now apply IH.
Qed.

(** [_hard_split_line] returns for a line that can be encoded. *)
Lemma hard_split_returns (line : str) :
  encodable line = true ->
  _hard_split_line line max_bytes = Returned (pure_hard_split_line line max_bytes).
Proof.
  intros H. unfold _hard_split_line, pure_hard_split_line.
  rewrite hard_loop_returns by (reflexivity || assumption). simpl.
  now destruct (fold_left _ _ _).
Qed.

(** It raises for a line with a surrogate. *)
Lemma hard_split_raises (line : str) :
  encodable line = false ->
  _hard_split_line line max_bytes = Raised UnicodeEncodeError.
Proof.
  intros H. unfold _hard_split_line.
  now rewrite hard_loop_raises by (reflexivity || assumption).
Qed.

Lemma split_step_returns (st : list str * str) (line : str) :
  encodable (snd st) = true -> encodable line = true ->
  split_step max_bytes st line = Returned (pure_split_step max_bytes st line) /\
  encodable (snd (pure_split_step max_bytes st line)) = true.
Proof.
  destruct st as [chunks current]. simpl. intros Hcur Hline.
  unfold split_step, pure_split_step.
  assert (Hcand : encodable (if truthy current then current ++ NL :: line else line)
                  = true).
  { destruct (truthy current); [|assumption].
    rewrite encodable_app, Hcur. simpl. exact Hline. }
  rewrite (encoded_len_returns _ Hcand). simpl.
  destruct (max_bytes <? byte_len _); [|now split].
  rewrite (encoded_len_returns _ Hline). simpl.
  destruct (max_bytes <? byte_len line).
  - rewrite (hard_split_returns _ Hline). simpl.
    destruct (truthy current); simpl; auto.
  - destruct (truthy current); simpl; auto.
Qed.

Lemma split_loop_returns (lines : list str) :
  forall st, encodable (snd st) = true ->
    Forall (fun l => encodable l = true) lines ->
    for_loop (split_step max_bytes) lines st
    = Returned (fold_left (pure_split_step max_bytes) lines st).
Proof.
  induction lines as [|line lines IH]; intros st Hst Hlines; [reflexivity|].
  inversion Hlines as [|? ? Hline Hrest]; subst.
  destruct (split_step_returns st line Hst Hline) as [Hstep Hnext].
  simpl. rewrite Hstep. simpl. now apply IH.
Qed.

(** [split_message] returns for a text that can be encoded. *)
Lemma split_message_returns (text : str) :
  encodable text = true ->
  split_message text max_bytes = Returned (pure_split_message text max_bytes).
Proof.
  intros H. unfold split_message, pure_split_message.
  rewrite (encoded_len_returns _ H). simpl.
  destruct (byte_len text <=? max_bytes); [reflexivity|].
  rewrite split_loop_returns by (reflexivity || now apply encodable_lines).
  simpl. now destruct (fold_left _ _ _).
Qed.

(** It raises for a text with a surrogate: the first statement encodes
    the whole text. *)
Lemma split_message_raises (text : str) :
  encodable text = false ->
  split_message text max_bytes = Raised UnicodeEncodeError.
Proof.
  intros H. unfold split_message. now rewrite (encoded_len_raises _ H).
Qed.

(** The two cases together. *)
Lemma split_message_cases (text : str) :
  (encodable text = true /\
   split_message text max_bytes = Returned (pure_split_message text max_bytes)) \/
  (encodable text = false /\
   split_message text max_bytes = Raised UnicodeEncodeError).
Proof.
  destruct (encodable text) eqn:E; [left|right]; split; try reflexivity.
  - now apply split_message_returns.
  - now apply split_message_raises.
Qed.

Lemma hard_split_cases (line : str) :
  (encodable line = true /\
   _hard_split_line line max_bytes = Returned (pure_hard_split_line line max_bytes)) \/
  (encodable line = false /\
   _hard_split_line line max_bytes = Raised UnicodeEncodeError).
Proof.
  destruct (encodable line) eqn:E; [left|right]; split; try reflexivity.
  - now apply hard_split_returns.
  - now apply hard_split_raises.
Qed.

End SplitterEncoding.

(** ** The splitter: what the chunks are made of *)

Section SplitterParts.

Variable max_bytes : Z.

Local Abbreviation enc_state :=
  (fun st : list str * str =>
     Forall (fun p => encodable p = true) (fst st) /\ encodable (snd st) = true).

Lemma pure_hard_step_encodable (st : list str * str) (c : N) :
  enc_state st -> is_surrogate c = false ->
  enc_state (pure_hard_step max_bytes st c).
Proof.
  destruct st as [parts current]. simpl. intros [Hp Hc] Hs.
  unfold pure_hard_step.
  destruct (max_bytes <? byte_len (current ++ [c])); simpl.
  - split; [|now rewrite Hs].
    apply Forall_app. split; [assumption|now constructor].
  - split; [assumption|]. now rewrite encodable_snoc, Hc, Hs.
Qed.

(** The parts of a line that can be encoded can be encoded. *)
Lemma pure_hard_split_encodable (line : str) :
  encodable line = true ->
  Forall (fun p => encodable p = true) (pure_hard_split_line line max_bytes).
Proof.
  intros H. apply encodable_Forall in H. unfold pure_hard_split_line.
  pose proof (fold_left_invariant enc_state (fun c => is_surrogate c = false)
                (pure_hard_step max_bytes) pure_hard_step_encodable line ([], [])
                H (conj (List.Forall_nil _) eq_refl)) as Hinv.
  destruct (fold_left _ line _) as [parts current]. simpl in Hinv.
  destruct Hinv as [Hp Hc]. destruct (truthy current); [|assumption].
  apply Forall_app. split; [assumption|now constructor].
Qed.

Lemma pure_split_step_encodable (st : list str * str) (line : str) :
  enc_state st -> encodable line = true ->
  enc_state (pure_split_step max_bytes st line).
Proof.
  destruct st as [chunks current]. simpl. intros [Hp Hc] Hl.
  unfold pure_split_step.
  destruct (max_bytes <? byte_len _).
  - assert (Hflush : enc_state (if truthy current
                                then (chunks ++ [current], [])
                                else (chunks, current))).
    { destruct (truthy current); simpl; [|now split].
      split; [|reflexivity]. apply Forall_app. split; [assumption|now constructor]. }
    destruct (if truthy current then _ else _) as [chunks' current'].
    simpl in Hflush. destruct Hflush as [Hp' Hc'].
    destruct (max_bytes <? byte_len line); simpl.
    + split; [|assumption]. apply Forall_app. split; [assumption|].
      now apply pure_hard_split_encodable.
    + now split.
  - simpl. split; [assumption|].
    destruct (truthy current); [|assumption].
    rewrite encodable_app, Hc. simpl. exact Hl.
Qed.

(** The chunks of a text that can be encoded can be encoded. *)
Lemma pure_split_message_encodable (text : str) :
  encodable text = true ->
  Forall (fun c => encodable c = true) (pure_split_message text max_bytes).
Proof.
  intros H. unfold pure_split_message.
  destruct (byte_len text <=? max_bytes); [now constructor|].
  pose proof (fold_left_invariant enc_state (fun l => encodable l = true)
                (pure_split_step max_bytes) pure_split_step_encodable
                (split NL text) ([], [])
                (encodable_lines text H) (conj (List.Forall_nil _) eq_refl)) as Hinv.
  destruct (fold_left _ _ _) as [chunks current]. simpl in Hinv.
  destruct Hinv as [Hp Hc]. destruct (truthy current); [|assumption].
  apply Forall_app. split; [assumption|now constructor].
Qed.

(** Once a character has been read, every part the hard splitter closes
    is non-empty. *)
Lemma hard_fold_parts_nonempty (line : str) :
  forall st, snd st <> [] -> Forall (fun p => p <> []) (fst st) ->
    Forall (fun p => p <> []) (emitted (fold_left (pure_hard_step max_bytes) line st)).
Proof.
  induction line as [|c line IH]; intros [parts current] Hc Hp;
    cbn [fold_left fst snd] in *.
  - unfold emitted. simpl. destruct current; [congruence|]. simpl.
    apply Forall_app. split; [assumption|]. constructor; [congruence|constructor].
  - apply IH; [apply hard_step_current|].
    unfold pure_hard_step. destruct (max_bytes <? byte_len (current ++ [c])); simpl.
    + apply Forall_app. split; [assumption|now constructor].
    + assumption.
Qed.

(** An empty part, once closed, stays. *)
Lemma hard_fold_keeps_empty (line : str) :
  forall st, In [] (fst st) ->
    In [] (emitted (fold_left (pure_hard_step max_bytes) line st)).
Proof.
  induction line as [|c line IH]; intros [parts current] Hin;
    cbn [fold_left fst snd] in *.
  - unfold emitted. simpl. destruct (truthy current); [|assumption].
    apply in_or_app. now left.
  - apply IH. unfold pure_hard_step.
    destruct (max_bytes <? byte_len (current ++ [c])); simpl; [|assumption].
    apply in_or_app. now left.
Qed.

(** The hard splitter emits an empty part exactly when the first
    character of the line is wider than the budget. *)
Lemma hard_split_no_empty_iff (line : str) :
  Forall (fun p => p <> []) (pure_hard_split_line line max_bytes)
  <-> first_fits line max_bytes.
Proof.
  rewrite hard_split_emitted.
  destruct line as [|c line]; [split; [intros _; exact I|intros _; constructor]|].
  cbn [fold_left first_fits]. unfold pure_hard_step at 2. cbn [app].
  destruct (Z.ltb_spec max_bytes (byte_len [c])) as [Hwide|Hfits].
  - split; [|lia]. intros Hall. exfalso.
    pose proof (hard_fold_keeps_empty line ([[]], [c]) (or_introl eq_refl)) as Hin.
    rewrite List.Forall_forall in Hall. now apply (Hall [] Hin).
  - split; [intros _; exact Hfits|]. intros _.
    apply hard_fold_parts_nonempty; simpl; [congruence|constructor].
Qed.

End SplitterParts.

(** ** The splitter: the claims *)

(** The chunks of a text that can be encoded, rejoined. *)
Lemma pure_split_message_roundtrip (s : str) (B : Z) :
  exists (lead : str) (seps : list str) (trail : str),
    line_breaks lead /\ Forall line_breaks seps /\ line_breaks trail /\
    length seps = Nat.pred (length (pure_split_message s B)) /\
    s = lead ++ rejoin seps (pure_split_message s B) ++ trail /\
    (byte_len s <= B \/ no_blank_line s = true ->
     lead = [] /\ trail = [] /\ Forall is_separator seps).
Proof.
  destruct ((byte_len s <=? B) || no_blank_line s) eqn:Hplain.
  - assert (Hs : byte_len s <= B \/ no_blank_line s = true).
    { apply orb_true_iff in Hplain as [H|H]; [left; lia|now right]. }
    destruct (split_message_rejoins B s Hs) as (seps & Hlen & Hseps & Hjoin).
    exists [], seps, []. split; [constructor|]. split.
    { eapply Forall_impl; [exact Hseps|]. intros sp [->| ->].
      - apply line_breaks_nil.
      - apply line_breaks_one. }
    split; [constructor|]. split; [exact Hlen|].
    split; [now rewrite Hjoin, app_nil_r|]. auto.
  - destruct (covers_rejoin _ _ (split_message_covers B s))
      as (lead & seps & trail & Hlead & Hseps & Htrail & Hlen & Hs).
    exists lead, seps, trail. repeat (split; [assumption|]).
    intros [H|H]; exfalso; apply orb_false_iff in Hplain as [H1 H2].
    + apply Z.leb_gt in H1. lia.
    + congruence.
Qed.

(** A text that fits, or that holds a character other than a line break,
    gives at least one chunk. *)
Lemma pure_split_message_nonempty (s : str) (B : Z) :
  0 < B ->
  byte_len s <= B \/ has_text s = true ->
  pure_split_message s B <> [].
Proof.
  intros HB Hs. destruct (Z.leb_spec (byte_len s) B) as [Hle|Hgt].
  - unfold pure_split_message.
    destruct (Z.leb_spec (byte_len s) B); [congruence|lia].
  - destruct Hs as [Hs|Hs]; [lia|].
    rewrite split_message_emitted by assumption.
    apply split_fold_emitted.
    unfold has_text in Hs. apply existsb_exists in Hs as [c [Hin Hc]].
    apply (split_has_piece NL c); [assumption|].
    intros ->. now rewrite N.eqb_refl in Hc.
Qed.

(** C1, counterexample: the text "aaaa" followed by a line break, under
    a budget of four bytes, comes back as the single chunk "aaaa"; the
    final line break is in no chunk, and with one chunk there is nothing
    to put a separator between. *)
Lemma C1_counterexample :
  0 < 4 /\
  split_message (py "aaaa" ++ [NL]) 4 = Returned [py "aaaa"] /\
  forall seps : list str,
    rejoin seps [py "aaaa"] <> py "aaaa" ++ [NL].
Proof.
  split; [lia|]. split; [reflexivity|].
  intros seps. vm_compute. discriminate.
Qed.

(** C1 (amended): for every text s and budget B > 0, the chunks returned
    by split_message(s, B), in order, give s back exactly once the line
    breaks that the chunk boundaries stand for are put back: a run of line
    breaks between each chunk and the next, and a run before the first
    chunk and after the last.  When s fits the budget as a whole, or has
    no empty line, nothing stands before the first chunk or after the
    last, and what stands between two chunks is one line break, or nothing
    where a long line was cut.  Chunks are returned for every text that
    can be encoded; for a text with a lone surrogate split_message raises
    UnicodeEncodeError and returns nothing. *)
Theorem C1_split_message_roundtrip (s : str) (B : Z) :
  0 < B ->
  match split_message s B with
  | Returned chunks =>
      exists (lead : str) (seps : list str) (trail : str),
        line_breaks lead /\ Forall line_breaks seps /\ line_breaks trail /\
        length seps = Nat.pred (length chunks) /\
        s = lead ++ rejoin seps chunks ++ trail /\
        (byte_len s <= B \/ no_blank_line s = true ->
         lead = [] /\ trail = [] /\ Forall is_separator seps)
  | Raised e => e = UnicodeEncodeError /\ encodable s = false
  end.
Proof.
  intros _. destruct (split_message_cases B s) as [[_ ->]|[Hs ->]].
  - apply pure_split_message_roundtrip.
  - now split.
Qed.

Lemma C1_witness :
  0 < 4 /\
  split_message (NL :: py "ab" ++ NL :: py "cdefgh" ++ NL :: NL :: py "ij") 4
    = Returned [py "ab"; py "cdef"; py "gh"; py "ij"] /\
  exists (lead : str) (seps : list str) (trail : str),
    line_breaks lead /\ Forall line_breaks seps /\ line_breaks trail /\
    length seps = Nat.pred (length [py "ab"; py "cdef"; py "gh"; py "ij"]) /\
    NL :: py "ab" ++ NL :: py "cdefgh" ++ NL :: NL :: py "ij"
    = lead ++ rejoin seps [py "ab"; py "cdef"; py "gh"; py "ij"] ++ trail /\
    (byte_len (NL :: py "ab" ++ NL :: py "cdefgh" ++ NL :: NL :: py "ij") <= 4 \/
     no_blank_line (NL :: py "ab" ++ NL :: py "cdefgh" ++ NL :: NL :: py "ij") = true ->
     lead = [] /\ trail = [] /\ Forall is_separator seps).
Proof.
  assert (HB : 0 < 4) by lia.
  split; [exact HB|]. split; [reflexivity|].
  exact (C1_split_message_roundtrip
           (NL :: py "ab" ++ NL :: py "cdefgh" ++ NL :: NL :: py "ij") 4 HB).
Defined.

(** C3, counterexample: under a budget of one byte the one-character text
    U+00E9, two bytes long, is split into an empty chunk and a chunk of
    two bytes. *)
Lemma C3_counterexample :
  0 < 1 /\
  split_message [233%N] 1 = Returned [[]; [233%N]] /\
  encoded_len [233%N] = Returned 2 /\
  ~ Forall (fun c => byte_len c <= 1) [[]; [233%N]].
Proof.
  split; [lia|]. split; [reflexivity|]. split; [reflexivity|].
  intros H. apply Forall_inv_tail, Forall_inv in H.
  apply H. reflexivity.
Qed.

(** C3 (amended): for every text s and budget B > 0 such that every
    character of s encodes to at most B bytes (always so when B >= 4),
    every chunk returned by split_message(s, B) can be encoded, and
    encodes to at most B bytes.  Chunks are returned for every text that
    can be encoded; for a text with a lone surrogate split_message raises
    UnicodeEncodeError and returns nothing. *)
Theorem C3_chunks_within_budget (s : str) (B : Z) :
  0 < B ->
  chars_fit s B = true ->
  match split_message s B with
  | Returned chunks =>
      Forall (fun c => encoded_len c = Returned (byte_len c) /\ byte_len c <= B)
        chunks
  | Raised e => e = UnicodeEncodeError /\ encodable s = false
  end.
Proof.
  intros HB Hs. destruct (split_message_cases B s) as [[Henc ->]|[Henc ->]].
  - pose proof (split_message_fits B HB s (proj1 (chars_fit_Forall B s) Hs)) as Hfit.
    pose proof (pure_split_message_encodable B s Henc) as Hen.
    rewrite List.Forall_forall in *. intros c Hc. split.
    + apply encoded_len_returns. now apply Hen.
    + now apply Hfit.
  - now split.
Qed.

Lemma C3_witness :
  0 < 4 /\
  chars_fit (py "ab" ++ NL :: [233%N; 8364%N; 128512%N; 100%N]) 4 = true /\
  split_message (py "ab" ++ NL :: [233%N; 8364%N; 128512%N; 100%N]) 4
    = Returned [py "ab"; [233%N]; [8364%N]; [128512%N]; [100%N]] /\
  Forall (fun c => encoded_len c = Returned (byte_len c) /\ byte_len c <= 4)
    [py "ab"; [233%N]; [8364%N]; [128512%N]; [100%N]].
Proof.
  assert (HB : 0 < 4) by lia.
  split; [exact HB|]. split; [reflexivity|]. split; [reflexivity|].
  exact (C3_chunks_within_budget
           (py "ab" ++ NL :: [233%N; 8364%N; 128512%N; 100%N]) 4 HB eq_refl).
Defined.

(** From four bytes on the budget bound holds for every text that can
    be encoded. *)
Corollary chunks_within_budget_from_4 (s : str) (B : Z) :
  4 <= B -> encodable s = true ->
  exists chunks,
    split_message s B = Returned chunks /\
    Forall (fun c => byte_len c <= B) chunks.
Proof.
  intros HB Hs. exists (pure_split_message s B).
  split; [now apply split_message_returns|].
  apply (split_message_fits B); [lia|].
  apply chars_fit_Forall, chars_fit_from_4, HB.
Qed.

(** C4, counterexample: two line breaks under a budget of one byte give
    no chunk at all; a text that is one lone surrogate, U+D800, gives no
    chunks either, as split_message raises; and the hard splitter, given
    the two-byte character U+00E9 under a budget of one byte, emits an
    empty part first. *)
Lemma C4_counterexample :
  0 < 1 /\
  split_message [NL; NL] 1 = Returned [] /\
  split_message [55296%N] 4 = Raised UnicodeEncodeError /\
  _hard_split_line [233%N] 1 = Returned [[]; [233%N]].
Proof. split; [lia|]. repeat split; reflexivity. Qed.

(** C4 (amended): for every budget B > 0, split_message returns at least
    one chunk for every text that can be encoded and that fits B as a
    whole or holds a character other than a line break; for a text with a
    lone surrogate it raises UnicodeEncodeError; the empty text yields
    exactly one empty chunk; and _hard_split_line, which returns for a
    line that can be encoded and raises UnicodeEncodeError for the others,
    emits no empty part exactly when the line is empty or its first
    character encodes to at most B bytes (always so when B >= 4). *)
Theorem C4_chunks_nonempty (s line : str) (B : Z) :
  0 < B ->
  (encodable s = true ->
   byte_len s <= B \/ has_text s = true ->
   exists chunk chunks, split_message s B = Returned (chunk :: chunks)) /\
  (encodable s = false -> split_message s B = Raised UnicodeEncodeError) /\
  split_message [] B = Returned [[]] /\
  (encodable line = true ->
   exists parts,
     _hard_split_line line B = Returned parts /\
     (Forall (fun p => p <> []) parts <-> first_fits line B)) /\
  (encodable line = false -> _hard_split_line line B = Raised UnicodeEncodeError) /\
  (4 <= B -> first_fits line B).
Proof.
  intros HB. split; [|split; [|split; [|split; [|split]]]].
  - intros Henc Hs. rewrite (split_message_returns B s Henc).
    pose proof (pure_split_message_nonempty s B HB Hs) as Hne.
    destruct (pure_split_message s B) as [|chunk chunks]; [congruence|].
    now exists chunk, chunks.
  - apply split_message_raises.
  - rewrite (split_message_returns B [] eq_refl). unfold pure_split_message.
    destruct (Z.leb_spec (byte_len []) B) as [|Hgt]; [reflexivity|].
    rewrite byte_len_nil in Hgt. lia.
  - intros Henc. exists (pure_hard_split_line line B).
    split; [now apply hard_split_returns|apply hard_split_no_empty_iff].
  - apply hard_split_raises.
  - intros H4. destruct line as [|c line]; [exact I|]. simpl.
    pose proof (byte_len_char c). lia.
Qed.

Lemma C4_witness :
  0 < 2 /\
  (exists chunk chunks,
     split_message [NL; 233%N; NL; 97%N; 98%N] 2 = Returned (chunk :: chunks)) /\
  split_message [NL; 55296%N] 2 = Raised UnicodeEncodeError /\
  split_message [] 2 = Returned [[]] /\
  (exists parts,
     _hard_split_line [233%N; 97%N; 98%N] 2 = Returned parts /\
     (Forall (fun p => p <> []) parts <-> first_fits [233%N; 97%N; 98%N] 2)) /\
  _hard_split_line [97%N; 56320%N] 2 = Raised UnicodeEncodeError.
Proof.
  assert (HB : 0 < 2) by lia.
  split; [exact HB|].
  destruct (C4_chunks_nonempty [NL; 233%N; NL; 97%N; 98%N] [233%N; 97%N; 98%N] 2 HB)
    as (Hsome & _ & Hempty & Hparts & _ & _).
  destruct (C4_chunks_nonempty [NL; 55296%N] [97%N; 56320%N] 2 HB)
    as (_ & Hraise & _ & _ & Hraise' & _).
  split; [apply Hsome; [reflexivity|right; reflexivity]|].
  split; [apply Hraise; reflexivity|].
  split; [exact Hempty|].
  split; [apply Hparts; reflexivity|].
  apply Hraise'. reflexivity.
Defined.

(** ** Invariants of coroutines *)

Section Invariants.

Context {call : Type} {reply : call -> Type} {store : Type}.
Variable P : store -> Prop.

Local Abbreviation keeps :=
  (keeps (call:=call) (reply:=reply) (store:=store) P).
Local Abbreviation awaits_in :=
  (awaits_in (call:=call) (reply:=reply) (store:=store) P).
Local Abbreviation keeps_coro :=
  (keeps_coro (call:=call) (reply:=reply) (store:=store) P).

Lemma keeps_ret {R : Type} (a : R) : keeps_coro (ret a).
Proof. intros s Hs. exact Hs. Qed.

Lemma keeps_raise {R : Type} (e : exn) : keeps_coro (@raise call reply store R e).
Proof. intros s Hs. exact Hs. Qed.

Lemma keeps_await (c : call) : keeps_coro (await c).
Proof. intros s Hs. split; [exact Hs|]. intros r s' Hs'. exact Hs'. Qed.

Lemma keeps_get_store : keeps_coro get_store.
Proof. intros s Hs. exact Hs. Qed.

Lemma keeps_bind_step {A B : Type} (m : step call reply store A)
    (f : A -> coro call reply store B) :
  keeps m -> (forall a, keeps_coro (f a)) -> keeps (bind_step m f).
Proof.
  intros Hm Hf. induction m as [s [a|e]|s c k IH]; simpl in *.
  - now apply Hf.
  - exact Hm.
  - destruct Hm as [Hs Hk]. split; [exact Hs|]. intros r s' Hs'.
    apply IH, Hk, Hs'.
Qed.

Lemma keeps_bind {A B : Type} (m : coro call reply store A)
    (f : A -> coro call reply store B) :
  keeps_coro m -> (forall a, keeps_coro (f a)) -> keeps_coro (bind m f).
Proof. intros Hm Hf s Hs. apply keeps_bind_step; auto. Qed.

Lemma keeps_try_except {A : Type} (m : coro call reply store A)
    (h : exn -> option (coro call reply store A)) :
  keeps_coro m -> (forall e handler, h e = Some handler -> keeps_coro handler) ->
  keeps_coro (try_except m h).
Proof.
  intros Hm Hh s Hs. unfold try_except. specialize (Hm s Hs).
  induction (m s) as [s0 [a|e]|s0 c k IH]; simpl in *.
  - exact Hm.
  - destruct (h e) as [handler|] eqn:E; [|exact Hm]. now apply (Hh e).
  - destruct Hm as [Hs0 Hk]. split; [exact Hs0|]. intros r s' Hs'.
    apply IH, Hk, Hs'.
Qed.

Lemma keeps_for_each {A : Type} (xs : list A)
    (body : A -> coro call reply store unit) :
  (forall x, keeps_coro (body x)) -> keeps_coro (for_each xs body).
Proof.
  intros Hbody. induction xs as [|x xs IH]; simpl.
  - apply keeps_ret.
  - apply keeps_bind; auto.
Qed.

(** Under [finally: modify f], [P] still holds at every suspension,
    whatever [f] does at the end. *)
Lemma awaits_in_finally {R : Type} (m : step call reply store R)
    (f : store -> store) :
  keeps m -> awaits_in (finally_step m (modify f)).
Proof.
  induction m as [s r|s c k IH]; simpl; [trivial|].
  intros [Hs Hk]. split; [exact Hs|]. intros r s' Hs'. apply IH, Hk, Hs'.
Qed.

(** In a run whose environment preserves [P], the stores of the
    suspensions satisfy it. *)
Lemma suspensions_awaits_in {R : Type} (w : env call reply store)
    (m : step call reply store R) :
  (forall h s, P s -> P (interfere w h s)) ->
  forall h, awaits_in m -> Forall (fun sc => P (fst sc)) (suspensions w h m).
Proof.
  intros Hw. induction m as [s r|s c k IH]; intros h Hm; simpl.
  - constructor.
  - destruct Hm as [Hs Hk]. constructor; [exact Hs|].
    apply IH, Hk, Hw, Hs.
Qed.

End Invariants.

Create HintDb keeps.
#[export] Hint Resolve keeps_ret keeps_raise keeps_await keeps_get_store
  keeps_bind keeps_for_each : keeps.

(** ** Properties of runs *)

Section RunFacts.

Context {call : Type} {reply : call -> Type} {store : Type}.
Implicit Types (w : env call reply store) (h : list call).

(** A run only adds to the calls made before it. *)
Lemma run_extends {R : Type} w h (m : step call reply store R) :
  h `prefix_of` trace (run w h m).
Proof.
  revert h. induction m as [s r|s c k IH]; intros h; simpl.
  - reflexivity.
  - etransitivity; [|apply IH]. now apply prefix_app_r.
Qed.

(** Two histories of one run that are equally long are the same, and so
    are the calls that follow them. *)
Lemma prefix_snoc_same (t h h' : list call) (c c' : call) :
  (h ++ [c]) `prefix_of` t -> (h' ++ [c']) `prefix_of` t ->
  length h = length h' -> h = h' /\ c = c'.
Proof.
  intros [k ->] [k' Hk'] Hlen.
  rewrite <- !app_assoc in Hk'.
  apply app_inj_1 in Hk' as [-> Hk']; [|assumption].
  simpl in Hk'. now inversion Hk'.
Qed.

(** However its body ends, [try: ... finally: modify f] ends in a store
    that [f] has just been applied to. *)
Lemma run_finally_modify {R : Type} w h (m : step call reply store R)
    (f : store -> store) :
  exists s, final (run w h (finally_step m (modify f))) = f s.
Proof.
  revert h. induction m as [s r|s c k IH]; intros h; simpl.
  - exists s. reflexivity.
  - apply IH.
Qed.

(** The run of a sequence is the run of its first part, then of the
    rest from where the first part ends. *)
Lemma run_bind {A B : Type} w h (m : step call reply store A)
    (f : A -> store -> step call reply store B) :
  run w h (bind_step m f) =
  match run w h m with
  | (h', s', Returned a) => run w h' (f a s')
  | (h', s', Raised e) => (h', s', Raised e)
  end.
Proof.
  revert h. induction m as [s [a|e]|s c k IH]; intros h; simpl; auto.
Qed.

End RunFacts.

(** ** webex_api.py: properties of the retry loop *)

Section ClientFacts.

Import webex_api.

Variable int : str -> option Z.
Variable raises_for_status : Z -> bool.

Implicit Types (w : env call reply WebexAPI) (h : list call).

Local Abbreviation request_attempts := (request_attempts int raises_for_status).
Local Abbreviation _request := (_request int raises_for_status).

(** The call found after a history of the run is the one made there. *)
Lemma prefix_snoc_lookup (t h : list call) (c : call) :
  (h ++ [c]) `prefix_of` t -> t !! length h = Some c.
Proof.
  intros Hpre. eapply prefix_lookup_Some; [|exact Hpre].
  now apply list_lookup_middle.
Qed.

Lemma sleep_is_no_request (t h h' : list call) (n : Z) (c : call) m p b q :
  (h ++ [ClientRequest m p b q]) `prefix_of` t ->
  (h' ++ [c; Sleep n]) `prefix_of` t ->
  length h <> S (length h').
Proof.
  intros H1 H2 Hlen. apply prefix_snoc_lookup in H1.
  assert (H3 : t !! S (length h') = Some (Sleep n)).
  { eapply prefix_lookup_Some; [|exact H2].
    change (h' ++ [c; Sleep n]) with (h' ++ [c] ++ [Sleep n]).
    rewrite app_assoc.
    replace (S (length h')) with (length (h' ++ [c]))
      by (rewrite length_app; simpl; lia).
    now apply list_lookup_middle. }
  rewrite Hlen in H1. congruence.
Qed.

Ltac no_later_request Hpre :=
  exfalso; cbn in Hpre; apply prefix_length in Hpre;
  rewrite !length_app in Hpre; simpl in Hpre; lia.

(** Wherever in the loop a request is answered with status 401, the loop
    ends on that request. *)
Lemma attempts_unauthorized w method path body params attempts :
  forall (last : option response) h0 (api : WebexAPI) h (resp : response),
    (h ++ [ClientRequest method path body params]) `prefix_of`
      trace (run w h0 (request_attempts method path body params attempts last api)) ->
    (length h0 <= length h)%nat ->
    answer w h (ClientRequest method path body params) = Returned resp ->
    status_code resp = 401 ->
    trace (run w h0 (request_attempts method path body params attempts last api))
      = h ++ [ClientRequest method path body params] /\
    outcome (run w h0 (request_attempts method path body params attempts last api))
      = Raised unauthorized.
Proof.
  set (c := ClientRequest method path body params).
  induction attempts as [|attempt rest IH]; intros last h0 api h resp Hpre Hlen Hans H401.
  - exfalso. cbn in Hpre. destruct last; cbn in Hpre;
      apply prefix_length in Hpre; rewrite length_app in Hpre; simpl in Hpre; lia.
  - cbn [webex_api.request_attempts] in *.
    unfold bind, try_await in *. cbn [bind_step run] in *. fold c in Hpre |- *.
    destruct (decide (length h = length h0)) as [Heq|Hne].
    + (* the request of this very attempt *)
      destruct (prefix_snoc_same _ h h0 c c Hpre (run_extends w (h0 ++ [c]) _) Heq)
        as [-> _].
      rewrite Hans. cbn. rewrite H401. cbn. split; reflexivity.
    + (* a request of a later attempt *)
      assert (Hlater :
        forall n last' api',
          (h ++ [c]) `prefix_of`
            trace (run w (h0 ++ [c])
                     (bind_step (await (Sleep n) api')
                        (fun _ => request_attempts method path body params rest last'))) ->
          trace (run w (h0 ++ [c])
                   (bind_step (await (Sleep n) api')
                      (fun _ => request_attempts method path body params rest last')))
            = h ++ [c] /\
          outcome (run w (h0 ++ [c])
                     (bind_step (await (Sleep n) api')
                        (fun _ => request_attempts method path body params rest last')))
            = Raised unauthorized).
      { intros n last' api' Hpre'. cbn in Hpre' |- *.
        assert (Hpos : length h <> S (length h0)).
        { apply (sleep_is_no_request _ h h0 n c method path body params Hpre').
          replace (h0 ++ [c; Sleep n]) with ((h0 ++ [c]) ++ [Sleep n])
            by now rewrite <- app_assoc.
          apply run_extends. }
        destruct (answer w (h0 ++ [c]) (Sleep n)) as [[]|e].
        - apply (IH last' _ _ h resp); try assumption.
          rewrite !length_app. simpl. lia.
        - exfalso. cbn in Hpre'. apply prefix_length in Hpre'.
          rewrite !length_app in Hpre'. simpl in Hpre'. lia. }
      destruct (answer w h0 c) as [response|e].
      * destruct (status_code response =? 429); [now apply Hlater|].
        destruct (status_code response =? 401); [no_later_request Hpre|].
        destruct ((500 <=? status_code response) && (attempt <? MAX_RETRIES));
          [now apply Hlater|].
        destruct (raises_for_status (status_code response)); [no_later_request Hpre|].
        destruct (json_body response); no_later_request Hpre.
      * destruct e; try no_later_request Hpre.
        destruct (attempt <? MAX_RETRIES); [now apply Hlater|no_later_request Hpre].
Qed.

(** C7: whichever attempt of _request a response with status 401 answers,
    the first or a later one, the request ends there: that attempt's call
    is the last call made (no wait, no further attempt) and SystemExit is
    raised. *)
Theorem C7_unauthorized_is_fatal w (method path : str)
    (body params : option json) (api : WebexAPI) h (resp : response) :
  (h ++ [ClientRequest method path body params]) `prefix_of`
    trace (run w [] (_request method path body params api)) ->
  answer w h (ClientRequest method path body params) = Returned resp ->
  status_code resp = 401 ->
  trace (run w [] (_request method path body params api))
    = h ++ [ClientRequest method path body params] /\
  outcome (run w [] (_request method path body params api))
    = Raised unauthorized.
Proof.
  intros Hpre Hans H401.
  unfold webex_api._request, bind, get_store in *. cbn [bind_step] in *.
  destruct (negb (_client api)).
  - exfalso. cbn in Hpre. apply prefix_length in Hpre.
    rewrite length_app in Hpre. simpl in Hpre. lia.
  - apply (attempts_unauthorized w method path body params _ None [] api h resp);
      try assumption. simpl. lia.
Qed.

End ClientFacts.

(** ** claude_cli.py: properties of the bridge *)

Section BridgeFacts.

Import claude_cli.

Variable CLI_TIMEOUT_SECONDS : Z.
Variable decode : bytes -> str.
Variable lower : str -> str.

Implicit Types (w : env call reply log) (out : outputs).

Local Abbreviation send_message :=
  (send_message CLI_TIMEOUT_SECONDS decode lower).
Local Abbreviation mentions_credentials := (mentions_credentials decode lower).
Local Abbreviation report_text := (report_text decode lower).
Local Abbreviation same_but_stderr := (same_but_stderr decode lower).

(** [report] makes no call and always returns. *)
Lemma run_report w h out (l : log) :
  exists l', run w h (report decode lower out l) = (h, l', Returned (report_text out)).
Proof.
  unfold report, report_text, mentions_credentials, bind, logger, modify, ret.
  destruct (negb (returncode out =? 0)); cbn.
  - destruct (truthy (strip (decode (stderr out)))); cbn;
      destruct (contains _ (py "expired") || contains _ (py "credential")); cbn;
      rewrite <- ?app_assoc, ?app_nil_r; eexists; reflexivity.
  - destruct (negb (truthy (strip (decode (stdout out))))); cbn;
      eexists; reflexivity.
Qed.

(** On a non-zero exit the text depends on stderr through the test only;
    on a zero exit it does not depend on stderr. *)
Lemma report_text_stderr out1 out2 :
  stdout out1 = stdout out2 ->
  returncode out1 = returncode out2 ->
  (returncode out1 <> 0 ->
   mentions_credentials (stderr out1) = mentions_credentials (stderr out2)) ->
  report_text out1 = report_text out2.
Proof.
  intros Hout Hrc Hhint. unfold report_text. rewrite <- Hout, <- Hrc.
  destruct (Z.eqb_spec (returncode out1) 0) as [Hz|Hnz]; cbn; [reflexivity|].
  now rewrite Hhint.
Qed.

Local Arguments report : simpl never.

Ltac next_answer :=
  match goal with
  | |- context [answer ?w ?h ?c] =>
      let E := fresh "E" in destruct (answer w h c) eqn:E; cbn
  end.

Ltac next_match :=
  match goal with
  | |- context [match ?x with _ => _ end] => is_var x; destruct x; cbn
  end.

(** C8: when the wait on the child, bounded by the fixed timeout, times
    out, send_message kills the child, waits on it and returns the text
    "Error: CLI timed out after N seconds. The process was killed.", N
    being the timeout; it does not raise.  (The run is one in which the
    wait is reached, and in which the kill and the wait on the child
    return.) *)
Theorem C8_timeout_kills_waits_and_reports w (session_id message : str)
    (cwd : option str) (skip_permissions on_process_started : bool)
    (l : log) (rc : Z) :
  (forall h, answer w h (Communicate CLI_TIMEOUT_SECONDS) = Raised TimeoutError) ->
  (forall h, answer w h Kill = Returned tt) ->
  (forall h, answer w h Wait = Returned rc) ->
  In (Communicate CLI_TIMEOUT_SECONDS)
    (trace (run w [] (send_message session_id message cwd skip_permissions
                        on_process_started l))) ->
  (exists h,
     trace (run w [] (send_message session_id message cwd skip_permissions
                        on_process_started l))
     = h ++ [Communicate CLI_TIMEOUT_SECONDS; Kill; Wait]) /\
  outcome (run w [] (send_message session_id message cwd skip_permissions
                       on_process_started l))
  = Returned (py "Error: CLI timed out after " ++
              str_of_Z CLI_TIMEOUT_SECONDS ++
              py " seconds. The process was killed.").
Proof.
  intros Hcomm Hkill Hwait.
  unfold claude_cli.send_message, bind, await. cbn.
  repeat (first [rewrite Hcomm | rewrite Hkill | rewrite Hwait
                | next_answer | next_match]; cbn).
  all: try (intros Hin; exfalso; cbn in Hin; intuition discriminate).
  all: intros _; split; [|reflexivity].
  all: match goal with
       | |- exists h, ?t = _ => exists (take (length t - 3) t); reflexivity
       end.
Qed.

(** C9: two runs of send_message whose environments differ only in the
    stderr content of the child return the same string, provided that,
    when the exit code is not zero, the two stderr texts agree on holding
    "expired" or "credential": the returned string depends on stderr
    through that test alone, and not at all on a zero exit. *)
Theorem C9_stderr_is_not_echoed w1 w2 (session_id message : str)
    (cwd : option str) (skip_permissions on_process_started : bool)
    (l1 l2 : log) :
  (forall h c, (forall timeout, c <> Communicate timeout) ->
               answer w1 h c = answer w2 h c) ->
  (forall h timeout, same_but_stderr (answer w1 h (Communicate timeout))
                                     (answer w2 h (Communicate timeout))) ->
  outcome (run w1 [] (send_message session_id message cwd skip_permissions
                        on_process_started l1))
  = outcome (run w2 [] (send_message session_id message cwd skip_permissions
                          on_process_started l2)) /\
  trace (run w1 [] (send_message session_id message cwd skip_permissions
                      on_process_started l1))
  = trace (run w2 [] (send_message session_id message cwd skip_permissions
                        on_process_started l2)).
Proof.
  intros Hsame Hcomm.
  unfold claude_cli.send_message, bind, await. cbn.
  repeat (first
    [ match goal with
      | |- context [answer w2 ?h (Communicate ?t)] =>
          let H := fresh "H" in
          pose proof (Hcomm h t) as H; unfold same_but_stderr in H;
          destruct (answer w1 h (Communicate t)), (answer w2 h (Communicate t));
          try contradiction; [destruct H as (? & ? & ?)|subst]
      | |- context [answer w2 ?h ?c] => rewrite <- (Hsame h c) by (intros ?; discriminate)
      end
    | next_answer | next_match]; cbn).
  all: try (split; reflexivity).
  all: repeat match goal with
       | |- context [run ?w ?h (report _ _ ?o ?s)] =>
           destruct (run_report w h o s) as [? ->]
       end.
  all: cbn; split; [|reflexivity]; f_equal; now apply report_text_stderr.
Qed.

End BridgeFacts.

(** ** bot.py: properties of the polling loop *)

Section PollFacts.

Variable is_authorized : str -> bool.
Variable bot_id : option str.

Implicit Types (w : env call reply memory) (h : list call) (m : memory).

Local Abbreviation poll_room := (poll_room is_authorized bot_id).
Local Abbreviation process_message := (process_message is_authorized bot_id).
Local Abbreviation dispatched_text := (dispatched_text is_authorized bot_id).

Lemma run_process_message w h m (room_id : str) (msg : message) :
  dispatch_returns w ->
  run w h (process_message room_id msg m) =
  match dispatched_text msg with
  | None => (h, m, Returned tt)
  | Some text =>
      (h ++ [Dispatch room_id text],
       interfere w (h ++ [Dispatch room_id text]) m, Returned tt)
  end.
Proof.
  intros Hret. unfold bot.process_message, dispatched_text.
  destruct (decide (personId msg = bot_id)); [reflexivity|].
  destruct (negb (is_authorized (default [] (personEmail msg)))); [reflexivity|].
  destruct (negb (truthy (strip (default [] (text msg))))); [reflexivity|].
  cbn. now rewrite Hret.
Qed.

(** The loop over the new messages dispatches, in order, the texts of
    those that pass the filters, and leaves the cursors alone. *)
Lemma run_process_all w (room_id : str) (msgs : list message) :
  dispatch_returns w -> keeps_cursors w ->
  forall h m,
    trace (run w h (for_each msgs (process_message room_id) m))
      = h ++ map (Dispatch room_id) (omap dispatched_text msgs) /\
    outcome (run w h (for_each msgs (process_message room_id) m)) = Returned tt /\
    last_seen (final (run w h (for_each msgs (process_message room_id) m)))
      = last_seen m /\
    initialized_rooms (final (run w h (for_each msgs (process_message room_id) m)))
      = initialized_rooms m.
Proof.
  intros Hret Hkeep.
  induction msgs as [|msg msgs IH]; intros h m.
  - cbn. now rewrite app_nil_r.
  - cbn [for_each]. unfold bind. rewrite run_bind, run_process_message by assumption.
    change (omap dispatched_text (msg :: msgs))
      with (match dispatched_text msg with
            | Some y => y :: omap dispatched_text msgs
            | None => omap dispatched_text msgs
            end).
    destruct (dispatched_text msg) as [text|].
    + destruct (IH (h ++ [Dispatch room_id text])
                  (interfere w (h ++ [Dispatch room_id text]) m))
        as (Ht & Ho & Hl & Hi).
      destruct (Hkeep (h ++ [Dispatch room_id text]) m) as [Hl' Hi'].
      rewrite Ht, Ho, Hl, Hi. cbn. rewrite <- app_assoc. auto.
    + apply IH.
Qed.

(** Every message of a page in which the cursor does not occur is
    collected. *)
Lemma collect_new_all (cursor : option str) (messages : list message) :
  Forall (fun msg => exists i, id msg = Some i /\ Some i <> cursor) messages ->
  collect_new cursor messages = Returned messages.
Proof.
  induction 1 as [|msg messages (i & Hi & Hne) _ IH]; [reflexivity|].
  cbn. unfold subscript_id. rewrite Hi.
  destruct (decide (Some i = cursor)); [contradiction|]. now rewrite IH.
Qed.

(** A poll of an initialized room whose newest message is not the one the
    cursor holds: the messages collected are dispatched oldest first, and
    the cursor moves to the newest. *)
Lemma poll_room_initialized w m (room_id newest_id : str)
    (newest : message) (older new_messages : list message) :
  dispatch_returns w -> keeps_cursors w ->
  answer w [] (ApiListMessages room_id 10) = Returned (newest :: older) ->
  id newest = Some newest_id ->
  room_id ∈ initialized_rooms m ->
  last_seen m !! room_id <> Some newest_id ->
  collect_new (last_seen m !! room_id) (newest :: older) = Returned new_messages ->
  trace (run w [] (poll_room room_id m))
    = ApiListMessages room_id 10 ::
      map (Dispatch room_id) (omap dispatched_text (rev new_messages)) /\
  outcome (run w [] (poll_room room_id m)) = Returned tt /\
  last_seen (final (run w [] (poll_room room_id m))) !! room_id = Some newest_id /\
  room_id ∈ initialized_rooms (final (run w [] (poll_room room_id m))).
Proof.
  intros Hret Hkeep Hans Hid Hinit Hcur Hnew.
  unfold bot.poll_room, bind, await. cbn [bind_step run]. rewrite Hans.
  cbn [bind_step app]. unfold subscript_id. rewrite Hid.
  cbn [of_result ret bind_step get_store].
  destruct (Hkeep [ApiListMessages room_id 10] m) as [Hl Hi].
  rewrite Hl, Hi.
  destruct (decide (room_id ∈ initialized_rooms m)); [|contradiction].
  destruct (decide (last_seen m !! room_id = Some newest_id)); [contradiction|].
  rewrite Hnew. cbn [of_result ret bind_step modify].
  match goal with
  | |- context [run w ?h (for_each ?l ?f ?m')] =>
      destruct (run_process_all w room_id l Hret Hkeep h m') as (Ht & Ho & Hl' & Hi')
  end.
  rewrite Ht, Ho, Hl', Hi'. cbn.
  repeat split; try reflexivity.
  - apply lookup_insert_eq.
  - rewrite Hi. assumption.
Qed.

(** C5: the first poll of a room whose feed is not empty records the id
    of the newest message as the cursor, marks the room initialized and
    dispatches nothing: the fetch of the feed is the only call made. *)
Theorem C5_first_poll_marks_position w m (room_id newest_id : str)
    (newest : message) (older : list message) :
  keeps_cursors w ->
  answer w [] (ApiListMessages room_id 10) = Returned (newest :: older) ->
  id newest = Some newest_id ->
  room_id ∉ initialized_rooms m ->
  trace (run w [] (poll_room room_id m)) = [ApiListMessages room_id 10] /\
  outcome (run w [] (poll_room room_id m)) = Returned tt /\
  last_seen (final (run w [] (poll_room room_id m))) !! room_id = Some newest_id /\
  room_id ∈ initialized_rooms (final (run w [] (poll_room room_id m))).
Proof.
  intros Hkeep Hans Hid Hinit.
  unfold bot.poll_room, bind, await. cbn [bind_step run]. rewrite Hans.
  cbn [bind_step app]. unfold subscript_id. rewrite Hid.
  cbn [of_result ret bind_step get_store].
  destruct (Hkeep [ApiListMessages room_id 10] m) as [Hl Hi].
  rewrite Hi.
  destruct (decide (room_id ∈ initialized_rooms m)); [contradiction|].
  cbn. repeat split.
  - apply lookup_insert_eq.
  - apply elem_of_union. left. now apply elem_of_singleton.
Qed.

(** C6: for an initialized room whose cursor is the id of X, and the
    newest-first feed [A, B, X, C], where A and B are messages that pass
    the filters of the loop (not the bot's own, an authorized sender, a
    text that is not blank), the calls of dispatch are those for B and
    for A, in this order; X and C are not dispatched, and the cursor
    becomes the id of A. *)
Theorem C6_dispatches_newer_oldest_first w m (room_id : str)
    (A B X C : message) (a b x text_A text_B : str) :
  dispatch_returns w -> keeps_cursors w ->
  answer w [] (ApiListMessages room_id 10) = Returned [A; B; X; C] ->
  id A = Some a -> id B = Some b -> id X = Some x ->
  a <> x -> b <> x ->
  room_id ∈ initialized_rooms m ->
  last_seen m !! room_id = Some x ->
  dispatched_text A = Some text_A ->
  dispatched_text B = Some text_B ->
  trace (run w [] (poll_room room_id m))
    = [ApiListMessages room_id 10;
       Dispatch room_id text_B; Dispatch room_id text_A] /\
  outcome (run w [] (poll_room room_id m)) = Returned tt /\
  last_seen (final (run w [] (poll_room room_id m))) !! room_id = Some a.
Proof.
  intros Hret Hkeep Hans HA HB HX Hax Hbx Hinit Hcur HtA HtB.
  destruct (poll_room_initialized w m room_id a A [B; X; C] [A; B])
    as (Ht & Ho & Hl & _); try assumption.
  - rewrite Hcur. congruence.
  - rewrite Hcur. cbn. unfold subscript_id. rewrite HA, HB, HX.
    destruct (decide (Some a = Some x)); [congruence|].
    destruct (decide (Some b = Some x)); [congruence|].
    destruct (decide (Some x = Some x)); [reflexivity|congruence].
  - rewrite Ht, Ho, Hl. cbn. rewrite HtA, HtB. auto.
Qed.

(** What [strip] leaves of a text is empty exactly when the text holds
    white space only. *)
Lemma visible_rev (s : str) : visible (rev s) = visible s.
Proof.
  unfold visible. induction s as [|c s IH]; [reflexivity|].
  simpl. rewrite existsb_app, IH. simpl. rewrite orb_false_r. apply orb_comm.
Qed.

Lemma visible_lstrip (s : str) : visible (lstrip s) = visible s.
Proof.
  unfold visible. induction s as [|c s IH]; [reflexivity|].
  simpl. destruct (isspace c) eqn:E; [exact IH|]. simpl. now rewrite E.
Qed.

Lemma truthy_lstrip (s : str) : truthy (lstrip s) = visible s.
Proof.
  unfold visible. induction s as [|c s IH]; [reflexivity|].
  simpl. destruct (isspace c) eqn:E; [exact IH|reflexivity].
Qed.

Lemma truthy_rev (s : str) : truthy (rev s) = truthy s.
Proof.
  destruct s as [|c s]; [reflexivity|]. simpl.
  now destruct (rev s).
Qed.

Lemma truthy_strip (s : str) : truthy (strip s) = visible s.
Proof.
  unfold strip.
  now rewrite truthy_rev, truthy_lstrip, visible_rev, visible_lstrip.
Qed.

(** The filters of the loop, one by one. *)
Lemma dispatched_text_passes (msg : message) :
  dispatched_text msg =
  if passes_filters is_authorized bot_id msg
  then Some (strip (default [] (text msg))) else None.
Proof.
  unfold dispatched_text, passes_filters.
  destruct (decide (personId msg = bot_id)) as [Hown|Hother].
  - now rewrite (bool_decide_eq_true_2 _ Hown).
  - rewrite (bool_decide_eq_false_2 _ Hother). cbn [negb andb].
    destruct (is_authorized (default [] (personEmail msg))); [|reflexivity].
    cbn [negb andb]. rewrite truthy_strip.
    now destruct (visible (default [] (text msg))).
Qed.

Lemma omap_dispatched_text (msgs : list message) :
  omap dispatched_text msgs =
  map (fun msg => strip (default [] (text msg)))
    (List.filter (passes_filters is_authorized bot_id) msgs).
Proof.
  induction msgs as [|msg msgs IH]; [reflexivity|].
  change (omap dispatched_text (msg :: msgs))
    with (match dispatched_text msg with
          | Some y => y :: omap dispatched_text msgs
          | None => omap dispatched_text msgs
          end).
  rewrite dispatched_text_passes, IH. simpl.
  now destruct (passes_filters is_authorized bot_id msg).
Qed.

(** C10: for an initialized room, when the id held by the cursor is the
    id of no message of the fetched page, every message of the page is
    taken as new, whether older than the cursor position or not: going
    through the whole page from the oldest message to the newest, the
    loop calls dispatch, with the stripped text, for every message that is
    not the bot's own, whose sender is authorized and whose text is not
    blank, and for no other; the cursor becomes the id of the newest
    message. *)
Theorem C10_lost_cursor_replays_the_page w m (room_id newest_id : str)
    (newest : message) (older : list message) :
  dispatch_returns w -> keeps_cursors w ->
  answer w [] (ApiListMessages room_id 10) = Returned (newest :: older) ->
  id newest = Some newest_id ->
  room_id ∈ initialized_rooms m ->
  Forall (fun msg => exists i, id msg = Some i /\
                               Some i <> last_seen m !! room_id)
    (newest :: older) ->
  trace (run w [] (poll_room room_id m))
    = ApiListMessages room_id 10 ::
      map (fun msg => Dispatch room_id (strip (default [] (text msg))))
        (List.filter (passes_filters is_authorized bot_id)
           (rev (newest :: older))) /\
  outcome (run w [] (poll_room room_id m)) = Returned tt /\
  last_seen (final (run w [] (poll_room room_id m))) !! room_id = Some newest_id.
Proof.
  intros Hret Hkeep Hans Hid Hinit Hall.
  destruct (poll_room_initialized w m room_id newest_id newest older (newest :: older))
    as (Ht & Ho & Hl & _); try assumption.
  - apply Forall_inv in Hall. destruct Hall as (i & Hi & Hne). congruence.
  - now apply collect_new_all.
  - rewrite Ht, omap_dispatched_text, map_map. auto.
Qed.

End PollFacts.

(** ** bot.py: properties of the conversational turn *)

Section TurnFacts.

Variable WEBEX_MAX_MESSAGE_BYTES : Z.

Implicit Types (w : env call reply memory) (h : list call) (m : memory).

Local Abbreviation handle_text_message :=
  (handle_text_message WEBEX_MAX_MESSAGE_BYTES).

Lemma keeps_on_error (room_id : str) (thinking_id : option str) Q :
  keeps_coro Q (on_error room_id thinking_id).
Proof.
  unfold on_error. destruct thinking_id as [i|]; [destruct (truthy i)|];
    auto with keeps.
Qed.

Lemma keeps_relay_turn (room_id text : str) (thinking_id : option str) Q :
  keeps_coro Q (relay_turn WEBEX_MAX_MESSAGE_BYTES room_id text thinking_id).
Proof.
  unfold relay_turn, current.
  apply keeps_bind; [auto with keeps|]. intros state.
  apply keeps_bind; [auto with keeps|]. intros response.
  apply keeps_bind;
    [destruct (split_message response WEBEX_MAX_MESSAGE_BYTES); cbn; auto with keeps|].
  intros [|first remaining]; [auto with keeps|].
  apply keeps_bind; [|auto with keeps].
  destruct thinking_id as [i|]; [destruct (truthy i)|]; auto with keeps.
  apply keeps_bind; [auto with keeps|]. intros [result|]; auto with keeps.
Qed.

Lemma keeps_try_except_Exception {A : Type} (body handler : coro call reply memory A) Q :
  keeps_coro Q body -> keeps_coro Q handler ->
  keeps_coro Q (try_except_Exception body handler).
Proof.
  intros Hb Hh. apply keeps_try_except; [exact Hb|].
  intros e k Hk. destruct (is_Exception e); [|discriminate].
  now injection Hk as <-.
Qed.

(** The [try] block of [handle_text_message] writes nothing. *)
Lemma keeps_try_block (room_id text : str) Q :
  keeps_coro Q (try_block WEBEX_MAX_MESSAGE_BYTES room_id text).
Proof.
  apply keeps_bind.
  - apply keeps_try_except_Exception; auto with keeps.
    apply keeps_bind; [apply keeps_on_error|auto with keeps].
  - intros [thinking|]; [|auto with keeps].
    apply keeps_try_except_Exception;
      [apply keeps_relay_turn|apply keeps_on_error].
Qed.

(** What the turn does once it has found the guard free. *)
Lemma free_turn_unfold m (room_id text : str) :
  guard_free room_id m ->
  handle_text_message room_id text m =
  finally_step
    (try_block WEBEX_MAX_MESSAGE_BYTES room_id text
       (set_room_states (alter (with_processing true) room_id) m))
    (set_processing room_id false).
Proof.
  intros (state & Hst & Hproc & Hsid).
  unfold bot.handle_text_message, get_state, get_store, bind.
  cbn [bind_step]. rewrite Hst. cbn [bind_step ret].
  destruct (session_id state); [|congruence]. rewrite Hproc.
  reflexivity.
Qed.

(** A turn that finds the guard set, whether the room is still connected
    or not, is turned away: one reply, and no write to the memory. *)
Lemma guarded_turn_rejected w m (room_id text : str) :
  guard_set room_id m ->
  trace (run w [] (handle_text_message room_id text m))
    = [ApiSendMessage room_id
         match session_id (state_of room_id m) with
         | Some _ => py "Still processing the previous message. Please wait."
         | None => py "Not connected. Use `/sessions` to pick a session."
         end] /\
  final (run w [] (handle_text_message room_id text m))
    = interfere w
        [ApiSendMessage room_id
           match session_id (state_of room_id m) with
           | Some _ => py "Still processing the previous message. Please wait."
           | None => py "Not connected. Use `/sessions` to pick a session."
           end] m.
Proof.
  intros (state & Hst & Hproc). unfold state_of.
  unfold bot.handle_text_message, get_state, get_store, bind.
  cbn [bind_step]. rewrite Hst. cbn [bind_step ret default from_option].
  destruct (session_id state) eqn:Hsid.
  - rewrite Hproc. cbn. rewrite Hsid. destruct (answer w [] _); cbn; auto.
  - cbn. rewrite Hsid. destruct (answer w [] _); cbn; auto.
Qed.

Lemma guard_set_after_claim m (room_id : str) :
  guard_free room_id m -> guard_set room_id (with_guard room_id m).
Proof.
  intros (state & Hst & Hproc & Hsid).
  exists (with_processing true state). cbn. rewrite lookup_alter_eq, Hst.
  split; reflexivity.
Qed.

Lemma guard_set_processing m (room_id : str) :
  guard_set room_id m -> processing_of room_id m = true.
Proof. intros (state & Hst & Hproc). unfold processing_of. now rewrite Hst. Qed.

(** The first two suspensions of a turn that has found the guard free:
    on the placeholder, with the guard just set, and, once the placeholder
    is sent, on the backend. *)
Lemma free_turn_suspensions w m (room_id text : str) :
  guard_free room_id m ->
  (exists rest,
     suspensions w [] (handle_text_message room_id text m)
     = (with_guard room_id m, ApiSendMessage room_id (py "Thinking...")) :: rest) /\
  forall thinking,
    answer w [] (ApiSendMessage room_id (py "Thinking...")) = Returned thinking ->
    In (interfere w [ApiSendMessage room_id (py "Thinking...")]
          (with_guard room_id m),
        CliSendMessage
          (session_id
             (state_of room_id
                (interfere w [ApiSendMessage room_id (py "Thinking...")]
                   (with_guard room_id m))))
          text
          (session_cwd
             (state_of room_id
                (interfere w [ApiSendMessage room_id (py "Thinking...")]
                   (with_guard room_id m))))
          (skip_permissions
             (state_of room_id
                (interfere w [ApiSendMessage room_id (py "Thinking...")]
                   (with_guard room_id m)))))
       (suspensions w [] (handle_text_message room_id text m)).
Proof.
  intros Hfree. rewrite (free_turn_unfold m room_id text Hfree).
  unfold try_block, try_except_Exception, try_except, bind, await.
  cbn [bind_step catch_step finally_step suspensions app].
  split; [eexists; reflexivity|].
  intros thinking Hthink. right.
  change thinking_text with (py "Thinking...").
  rewrite Hthink. cbn [bind_step catch_step finally_step ret].
  unfold relay_turn, current, get_store, bind, await.
  cbn [bind_step catch_step finally_step ret suspensions app].
  left. reflexivity.
Qed.

(** C2 (amended): a turn that finds the room connected and the guard free
    sets the guard before its first await, the one that sends
    "Thinking...", and calls the backend after it; the guard is false again
    when handle_text_message is over, however it ends (a reply sent, an
    exception caught or let through, a timeout of the backend) and
    whatever the environment does.  As long as the other tasks leave a
    set guard set, the guard is set wherever that turn is suspended, and
    a second turn for the same room that starts there makes one call and
    writes nothing to the memory: it sends "Still processing the previous
    message. Please wait." if the room is still connected, and the
    not-connected prompt if the room has been disconnected in the
    meantime; in neither case is the backend called. *)
Theorem C2_single_flight_guard w m (room_id text : str) :
  guard_free room_id m ->
  processing_of room_id (final (run w [] (handle_text_message room_id text m)))
    = false /\
  (exists rest,
     suspensions w [] (handle_text_message room_id text m)
     = (with_guard room_id m, ApiSendMessage room_id (py "Thinking...")) :: rest) /\
  (forall thinking,
     answer w [] (ApiSendMessage room_id (py "Thinking...")) = Returned thinking ->
     In (interfere w [ApiSendMessage room_id (py "Thinking...")]
           (with_guard room_id m),
         CliSendMessage
           (session_id
              (state_of room_id
                 (interfere w [ApiSendMessage room_id (py "Thinking...")]
                    (with_guard room_id m))))
           text
           (session_cwd
              (state_of room_id
                 (interfere w [ApiSendMessage room_id (py "Thinking...")]
                    (with_guard room_id m))))
           (skip_permissions
              (state_of room_id
                 (interfere w [ApiSendMessage room_id (py "Thinking...")]
                    (with_guard room_id m)))))
        (suspensions w [] (handle_text_message room_id text m))) /\
  ((forall h s, guard_set room_id s -> guard_set room_id (interfere w h s)) ->
   forall s c,
     In (s, c) (suspensions w [] (handle_text_message room_id text m)) ->
     processing_of room_id s = true /\
     forall w' (text' : str),
       trace (run w' [] (handle_text_message room_id text' s))
         = [ApiSendMessage room_id
              match session_id (state_of room_id s) with
              | Some _ => py "Still processing the previous message. Please wait."
              | None => py "Not connected. Use `/sessions` to pick a session."
              end] /\
       final (run w' [] (handle_text_message room_id text' s))
         = interfere w'
             [ApiSendMessage room_id
                match session_id (state_of room_id s) with
                | Some _ => py "Still processing the previous message. Please wait."
                | None => py "Not connected. Use `/sessions` to pick a session."
                end] s).
Proof.
  intros Hfree.
  destruct (free_turn_suspensions w m room_id text Hfree) as [Hfirst Hbackend].
  split; [|split; [exact Hfirst|split; [exact Hbackend|]]].
  - rewrite (free_turn_unfold m room_id text Hfree).
    destruct (run_finally_modify w []
                (try_block WEBEX_MAX_MESSAGE_BYTES room_id text
                   (set_room_states (alter (with_processing true) room_id) m))
                (set_room_states (alter (with_processing false) room_id)))
      as [s Hs].
    unfold set_processing. rewrite Hs.
    unfold processing_of. cbn. rewrite lookup_alter_eq.
    now destruct (_room_states s !! room_id).
  - intros Hrely s c Hin.
    assert (Hset : guard_set room_id s).
    { rewrite (free_turn_unfold m room_id text Hfree) in Hin.
      pose proof (suspensions_awaits_in (guard_set room_id) w _ Hrely []
                    (awaits_in_finally (guard_set room_id) _
                       (set_room_states (alter (with_processing false) room_id))
                       (keeps_try_block room_id text (guard_set room_id) _
                          (guard_set_after_claim m room_id Hfree)))) as Hall.
      rewrite List.Forall_forall in Hall. exact (Hall (s, c) Hin). }
    split; [now apply guard_set_processing|].
    intros w' text'. now apply guarded_turn_rejected.
Qed.

End TurnFacts.

(** ** Further properties of runs *)

Section RunMoreFacts.

Context {call : Type} {reply : call -> Type} {store : Type}.
Implicit Types (w : env call reply store) (h : list call).

(** The run of [try: m except ...]: the run of [m], then of the handler
    from where [m] has raised. *)
Lemma run_catch {A : Type} w h (m : step call reply store A)
    (hd : exn -> option (store -> step call reply store A)) :
  run w h (catch_step m hd) =
  match run w h m with
  | (h', s', Returned a) => (h', s', Returned a)
  | (h', s', Raised e) =>
      match hd e with
      | Some handler => run w h' (handler s')
      | None => (h', s', Raised e)
      end
  end.
Proof.
  revert h. induction m as [s [a|e]|s c k IH]; intros h; simpl; auto.
  destruct (hd e); reflexivity.
Qed.

(** A coroutine that keeps [P] ends in a store where [P] holds, when the
    environment preserves [P]. *)
Lemma run_keeps {R : Type} (P : store -> Prop) w
    (m : step call reply store R) :
  (forall h s, P s -> P (interfere w h s)) ->
  forall h, keeps P m -> P (final (run w h m)).
Proof.
  intros Hw. induction m as [s r|s c k IH]; intros h Hm; simpl in *.
  - exact Hm.
  - destruct Hm as [Hs Hk]. apply IH, Hk, Hw, Hs.
Qed.

End RunMoreFacts.

(** ** webex_api.py: further properties of the client *)

Section ClientMoreFacts.

Import webex_api.

Variable int : str -> option Z.
Variable raises_for_status : Z -> bool.

Implicit Types (w : env call reply WebexAPI) (h : list call).

Local Abbreviation request_attempts := (request_attempts int raises_for_status).
Local Abbreviation _request := (_request int raises_for_status).
Local Abbreviation edit_message := (edit_message int raises_for_status).

Lemma requests_made_app (t u : list call) :
  requests_made (t ++ u) = (requests_made t + requests_made u)%nat.
Proof. unfold requests_made. now rewrite filter_app, length_app. Qed.

Lemma requests_made_request (t : list call) m p b q :
  requests_made (t ++ [ClientRequest m p b q]) = S (requests_made t).
Proof. rewrite requests_made_app. change (requests_made [_]) with 1%nat. lia. Qed.

Lemma requests_made_sleep (t : list call) (n : Z) :
  requests_made (t ++ [Sleep n]) = requests_made t.
Proof. rewrite requests_made_app. change (requests_made [_]) with 0%nat. lia. Qed.

Lemma backoff_bounded (attempt : Z) : backoff attempt <= 60.
Proof. unfold backoff. pose proof (Z.le_min_r (2 ^ attempt) 30). lia. Qed.

Lemma retry_after_bounded (r : response) : retry_after_seconds int r <= 60.
Proof. unfold retry_after_seconds. destruct (int _); lia. Qed.

(** The loop makes one request per attempt at most. *)
Lemma attempts_requests_made w method path body params attempts :
  forall (last : option response) h (api : WebexAPI),
    (requests_made
       (trace (run w h (request_attempts method path body params attempts last api)))
     <= requests_made h + length attempts)%nat.
Proof.
  induction attempts as [|attempt rest IH]; intros last h api.
  - destruct last; cbn [webex_api.request_attempts raise run trace fst length]; lia.
  - cbn [webex_api.request_attempts length].
    unfold bind, try_await. cbn [bind_step run].
    assert (Hnext :
      forall n last' api',
        (requests_made
           (trace (run w (h ++ [ClientRequest method path body params])
                     (bind_step (await (Sleep n) api')
                        (fun _ => request_attempts method path body params rest last'))))
         <= requests_made h + S (length rest))%nat).
    { intros n last' api'. cbn [bind_step await run].
      destruct (answer w _ (Sleep n)) as [[]|e]; cbn [bind_step run trace fst].
      - etransitivity; [apply IH|].
        rewrite requests_made_sleep, requests_made_request. lia.
      - rewrite requests_made_sleep, requests_made_request. lia. }
    assert (Hstop :
      (requests_made (h ++ [ClientRequest method path body params])
       <= requests_made h + S (length rest))%nat)
      by (rewrite requests_made_request; lia).
    destruct (answer w h (ClientRequest method path body params)) as [response|e].
    + destruct (status_code response =? 429); [apply Hnext|].
      destruct (status_code response =? 401); [exact Hstop|].
      destruct ((500 <=? status_code response) && (attempt <? MAX_RETRIES));
        [apply Hnext|].
      destruct (raises_for_status (status_code response)); [exact Hstop|].
      destruct (json_body response); exact Hstop.
    + destruct e; try exact Hstop.
      destruct (attempt <? MAX_RETRIES); [apply Hnext|exact Hstop].
Qed.

(** X1: a call of _request makes at most MAX_RETRIES = 3 HTTP requests,
    whatever the platform answers. *)
Theorem request_makes_at_most_three_requests w (method path : str)
    (body params : option json) (api : WebexAPI) :
  (requests_made (trace (run w [] (_request method path body params api))) <= 3)%nat.
Proof.
  unfold webex_api._request, bind, get_store. cbn [bind_step].
  destruct (negb (_client api)); [cbn; lia|].
  exact (attempts_requests_made w method path body params
           (seqZ 1 MAX_RETRIES) None [] api).
Qed.

(** The loop never waits more than sixty seconds at a time. *)
Lemma attempts_waits_bounded w method path body params attempts :
  forall (last : option response) h (api : WebexAPI),
    Forall wait_bounded h ->
    Forall wait_bounded
      (trace (run w h (request_attempts method path body params attempts last api))).
Proof.
  induction attempts as [|attempt rest IH]; intros last h api Hh.
  - cbn. destruct last; exact Hh.
  - cbn [webex_api.request_attempts].
    unfold bind, try_await. cbn [bind_step run].
    assert (Hreq : Forall wait_bounded (h ++ [ClientRequest method path body params])).
    { apply Forall_app. split; [exact Hh|]. repeat constructor. }
    assert (Hnext :
      forall n last' api', n <= 60 ->
        Forall wait_bounded
          (trace (run w (h ++ [ClientRequest method path body params])
                    (bind_step (await (Sleep n) api')
                       (fun _ => request_attempts method path body params rest last'))))).
    { intros n last' api' Hn. cbn.
      assert (Hsl : Forall wait_bounded
                      ((h ++ [ClientRequest method path body params]) ++ [Sleep n])).
      { apply Forall_app. split; [exact Hreq|]. repeat constructor. exact Hn. }
      destruct (answer w _ (Sleep n)) as [[]|e]; cbn; [now apply IH|exact Hsl]. }
    destruct (answer w h (ClientRequest method path body params)) as [response|e].
    + destruct (status_code response =? 429);
        [apply Hnext, retry_after_bounded|].
      destruct (status_code response =? 401); [exact Hreq|].
      destruct ((500 <=? status_code response) && (attempt <? MAX_RETRIES));
        [apply Hnext, backoff_bounded|].
      destruct (raises_for_status (status_code response)); [exact Hreq|].
      destruct (json_body response); exact Hreq.
    + destruct e; try exact Hreq.
      destruct (attempt <? MAX_RETRIES); [apply Hnext, backoff_bounded|exact Hreq].
Qed.

(** X2: no wait of _request lasts more than sixty seconds, whatever the
    Retry-After header says. *)
Theorem request_waits_sixty_seconds_at_most w (method path : str)
    (body params : option json) (api : WebexAPI) :
  Forall wait_bounded (trace (run w [] (_request method path body params api))).
Proof.
  unfold webex_api._request, bind, get_store. cbn [bind_step].
  destruct (negb (_client api)); [constructor|].
  apply attempts_waits_bounded. constructor.
Qed.

(** X3: a request answered with status 429 on the first attempt waits once,
    for the seconds of the Retry-After header capped at sixty, and is then
    sent again; a second response that is no error is returned. *)
Theorem rate_limited_request_waits_and_retries w (method path : str)
    (body params : option json) (api : WebexAPI)
    (limited served : response) (header : str) (seconds : Z) (data : json) :
  _client api = true ->
  answer w [] (ClientRequest method path body params) = Returned limited ->
  status_code limited = 429 ->
  retry_after limited = Some header ->
  int header = Some seconds ->
  answer w [ClientRequest method path body params] (Sleep (Z.min seconds 60))
    = Returned tt ->
  answer w [ClientRequest method path body params; Sleep (Z.min seconds 60)]
    (ClientRequest method path body params) = Returned served ->
  status_code served <> 429 ->
  status_code served <> 401 ->
  status_code served < 500 ->
  raises_for_status (status_code served) = false ->
  json_body served = Returned data ->
  trace (run w [] (_request method path body params api))
    = [ClientRequest method path body params; Sleep (Z.min seconds 60);
       ClientRequest method path body params] /\
  outcome (run w [] (_request method path body params api)) = Returned data.
Proof.
  intros Hclient Hfirst H429 Hheader Hint Hsleep Hsecond Hn429 Hn401 Hlt Hok Hdata.
  unfold webex_api._request, bind, get_store. cbn [bind_step].
  rewrite Hclient. cbn [negb].
  change (seqZ 1 MAX_RETRIES) with [1; 2; 3].
  cbn [webex_api.request_attempts]. unfold bind, try_await.
  cbn [bind_step run app]. rewrite Hfirst, H429. cbn [Z.eqb Pos.eqb].
  unfold retry_after_seconds. rewrite Hheader.
  change (default (py "5") (Some header)) with header. rewrite Hint.
  cbn [bind_step await run app]. rewrite Hsleep. cbn [bind_step run app].
  rewrite Hsecond.
  destruct (Z.eqb_spec (status_code served) 429); [contradiction|].
  destruct (Z.eqb_spec (status_code served) 401); [contradiction|].
  destruct (Z.leb_spec 500 (status_code served)); [lia|].
  cbn [andb]. rewrite Hok, Hdata. cbn. auto.
Qed.

(** X4: when every attempt is answered with status 429, _request makes its
    three requests, waits after each of them, the last one included, and
    then raises the "Retries exhausted" failure. *)
Theorem rate_limited_throughout_exhausts_retries w (method path : str)
    (body params : option json) (api : WebexAPI) (limited : response) :
  _client api = true ->
  status_code limited = 429 ->
  (forall h, answer w h (ClientRequest method path body params) = Returned limited) ->
  (forall h seconds, answer w h (Sleep seconds) = Returned tt) ->
  trace (run w [] (_request method path body params api))
    = [ClientRequest method path body params;
       Sleep (retry_after_seconds int limited);
       ClientRequest method path body params;
       Sleep (retry_after_seconds int limited);
       ClientRequest method path body params;
       Sleep (retry_after_seconds int limited)] /\
  outcome (run w [] (_request method path body params api))
    = Raised (HTTPStatusError (py "Retries exhausted") 429).
Proof.
  intros Hclient H429 Hreq Hsleep.
  unfold webex_api._request, bind, get_store. cbn [bind_step].
  rewrite Hclient. cbn [negb].
  change (seqZ 1 MAX_RETRIES) with [1; 2; 3].
  cbn [webex_api.request_attempts]. unfold bind, try_await.
  cbn [bind_step await run app].
  repeat (rewrite ?Hreq, ?Hsleep, ?H429; cbn [bind_step await run app Z.eqb Pos.eqb]).
  unfold raise. cbn. rewrite ?H429. auto.
Qed.

(** X5: when every attempt fails on the network, _request makes its three
    requests, waits two and then four seconds between them, and raises
    the failure of the last attempt. *)
Theorem network_failure_backs_off_and_gives_up w (method path : str)
    (body params : option json) (api : WebexAPI) (msg : str) :
  _client api = true ->
  (forall h, answer w h (ClientRequest method path body params)
             = Raised (RequestError msg)) ->
  (forall h seconds, answer w h (Sleep seconds) = Returned tt) ->
  trace (run w [] (_request method path body params api))
    = [ClientRequest method path body params; Sleep 2;
       ClientRequest method path body params; Sleep 4;
       ClientRequest method path body params] /\
  outcome (run w [] (_request method path body params api))
    = Raised (RequestError msg).
Proof.
  intros Hclient Hreq Hsleep.
  unfold webex_api._request, bind, get_store. cbn [bind_step].
  rewrite Hclient. cbn [negb].
  change (seqZ 1 MAX_RETRIES) with [1; 2; 3].
  cbn [webex_api.request_attempts]. unfold bind, try_await.
  cbn [bind_step await run app].
  repeat (rewrite ?Hreq, ?Hsleep;
          cbn [bind_step await run app Z.ltb Z.compare Pos.compare
               Pos.compare_cont MAX_RETRIES]).
  auto.
Qed.


Ltac no_call_after Hpre :=
  exfalso; cbn in Hpre; apply prefix_length in Hpre;
  rewrite !length_app in Hpre; simpl in Hpre; lia.

(** Wherever in the loop a request is answered with a status that is
    neither 429 nor a server error, the loop ends on that request. *)
Lemma attempts_final_response w method path body params attempts :
  forall (last : option response) h0 (api : WebexAPI) h (resp : response),
    (h ++ [ClientRequest method path body params]) `prefix_of`
      trace (run w h0 (request_attempts method path body params attempts last api)) ->
    (length h0 <= length h)%nat ->
    answer w h (ClientRequest method path body params) = Returned resp ->
    status_code resp <> 429 ->
    status_code resp < 500 ->
    trace (run w h0 (request_attempts method path body params attempts last api))
      = h ++ [ClientRequest method path body params].
Proof.
  set (c := ClientRequest method path body params).
  induction attempts as [|attempt rest IH];
    intros last h0 api h resp Hpre Hlen Hans Hn429 Hlt.
  - exfalso. cbn in Hpre. destruct last; cbn in Hpre;
      apply prefix_length in Hpre; rewrite length_app in Hpre; simpl in Hpre; lia.
  - cbn [webex_api.request_attempts] in *.
    unfold bind, try_await in *. cbn [bind_step run] in *. fold c in Hpre |- *.
    destruct (decide (length h = length h0)) as [Heq|Hne].
    + destruct (prefix_snoc_same _ h h0 c c Hpre (run_extends w (h0 ++ [c]) _) Heq)
        as [-> _].
      rewrite Hans.
      destruct (Z.eqb_spec (status_code resp) 429); [contradiction|].
      destruct (Z.leb_spec 500 (status_code resp)); [lia|]. cbn [andb].
      destruct (status_code resp =? 401); [reflexivity|].
      destruct (raises_for_status (status_code resp)); [reflexivity|].
      destruct (json_body resp); reflexivity.
    + assert (Hlater :
        forall n last' api',
          (h ++ [c]) `prefix_of`
            trace (run w (h0 ++ [c])
                     (bind_step (await (Sleep n) api')
                        (fun _ => request_attempts method path body params rest last'))) ->
          trace (run w (h0 ++ [c])
                   (bind_step (await (Sleep n) api')
                      (fun _ => request_attempts method path body params rest last')))
            = h ++ [c]).
      { intros n last' api' Hpre'. cbn in Hpre' |- *.
        assert (Hpos : length h <> S (length h0)).
        { apply (sleep_is_no_request _ h h0 n c method path body params Hpre').
          replace (h0 ++ [c; Sleep n]) with ((h0 ++ [c]) ++ [Sleep n])
            by now rewrite <- app_assoc.
          apply run_extends. }
        destruct (answer w (h0 ++ [c]) (Sleep n)) as [[]|e].
        - apply (IH last' _ _ h resp); try assumption.
          rewrite !length_app. simpl. lia.
        - exfalso. cbn in Hpre'. apply prefix_length in Hpre'.
          rewrite !length_app in Hpre'. simpl in Hpre'. lia. }
      destruct (answer w h0 c) as [response|e].
      * destruct (status_code response =? 429); [now apply Hlater|].
        destruct (status_code response =? 401); [no_call_after Hpre|].
        destruct ((500 <=? status_code response) && (attempt <? MAX_RETRIES));
          [now apply Hlater|].
        destruct (raises_for_status (status_code response)); [no_call_after Hpre|].
        destruct (json_body response); no_call_after Hpre.
      * destruct e; try no_call_after Hpre.
        destruct (attempt <? MAX_RETRIES); [now apply Hlater|no_call_after Hpre].
Qed.

(** X6: a response whose status is neither 429 nor a server error is never
    retried: on whichever attempt it comes, the request that receives it
    is the last call _request makes. *)
Theorem final_response_is_not_retried w (method path : str)
    (body params : option json) (api : WebexAPI) h (resp : response) :
  (h ++ [ClientRequest method path body params]) `prefix_of`
    trace (run w [] (_request method path body params api)) ->
  answer w h (ClientRequest method path body params) = Returned resp ->
  status_code resp <> 429 ->
  status_code resp < 500 ->
  trace (run w [] (_request method path body params api))
    = h ++ [ClientRequest method path body params].
Proof.
  intros Hpre Hans Hn429 Hlt.
  unfold webex_api._request, bind, get_store in *. cbn [bind_step] in *.
  destruct (negb (_client api)).
  - exfalso. cbn in Hpre. apply prefix_length in Hpre.
    rewrite length_app in Hpre. simpl in Hpre. lia.
  - apply (attempts_final_response w method path body params _ None [] api h resp);
      try assumption. simpl. lia.
Qed.

(** X7: edit_message makes the calls of its request, PUT
    /messages/<id> with the room and the text, and nothing else.  What
    the request returns is returned; when the request raises
    httpx.HTTPStatusError or httpx.RequestError, edit_message returns
    None instead; every other exception, the SystemExit of a 401
    included, is raised again. *)
Theorem edit_message_catches_request_failures w h
    (message_id room_id text : str) (api : WebexAPI) :
  trace (run w h (edit_message message_id room_id text api))
    = trace (run w h
               (_request (py "PUT") (py "/messages/" ++ message_id)
                  (Some (JDict [(py "roomId", JStr room_id);
                                (py "markdown", JStr text)]))
                  None api)) /\
  outcome (run w h (edit_message message_id room_id text api))
    = match outcome (run w h
                       (_request (py "PUT") (py "/messages/" ++ message_id)
                          (Some (JDict [(py "roomId", JStr room_id);
                                        (py "markdown", JStr text)]))
                          None api)) with
      | Returned data => Returned (Some data)
      | Raised (HTTPStatusError _ _) | Raised (RequestError _) => Returned None
      | Raised e => Raised e
      end.
Proof.
  unfold webex_api.edit_message, try_except, bind.
  rewrite run_catch, run_bind.
  destruct (run w h (_request _ _ _ _ api)) as [[h' s'] [data|e]].
  - cbn. auto.
  - destruct e; cbn; auto.
Qed.

End ClientMoreFacts.

(** ** claude_cli.py: further properties of the bridge *)

Section TextMoreFacts.

Lemma has_text_app_l (a b : str) : has_text a = true -> has_text (a ++ b) = true.
Proof.
  unfold has_text. rewrite existsb_app. intros ->. reflexivity.
Qed.

Lemma lstrip_head (s : str) (c : N) (r : str) :
  lstrip s = c :: r -> isspace c = false.
Proof.
  induction s as [|d s IH]; simpl; [discriminate|].
  destruct (isspace d) eqn:E; [exact IH|].
  intros H. injection H as <- _. exact E.
Qed.

Lemma lstrip_snoc (a : str) (c : N) :
  isspace c = false -> exists a', lstrip (a ++ [c]) = a' ++ [c].
Proof.
  intros Hc. induction a as [|d a IH]; simpl.
  - rewrite Hc. now exists [].
  - destruct (isspace d); [exact IH|]. now exists (d :: a).
Qed.

(** A stripped text that is not empty begins with a character that is
    no white space, hence no line break. *)
Lemma strip_has_text (s : str) : strip s <> [] -> has_text (strip s) = true.
Proof.
  unfold strip. destruct (lstrip s) as [|c r] eqn:E; [simpl; congruence|].
  intros _. pose proof (lstrip_head s c r E) as Hc.
  simpl rev. destruct (lstrip_snoc (rev r) c Hc) as [a' ->].
  rewrite rev_app_distr. simpl.
  unfold has_text. simpl.
  destruct (N.eqb_spec c NL) as [->|_]; [discriminate Hc|reflexivity].
Qed.

(** A text with a character other than a line break is split into at
    least one chunk, under any budget. *)
Lemma split_message_has_chunk (s : str) (B : Z) :
  has_text s = true -> pure_split_message s B <> [].
Proof.
  intros Hs. destruct (Z.leb_spec (byte_len s) B) as [Hle|Hgt].
  - unfold pure_split_message.
    destruct (Z.leb_spec (byte_len s) B); [congruence|lia].
  - rewrite split_message_emitted by assumption.
    apply split_fold_emitted.
    unfold has_text in Hs. apply existsb_exists in Hs as [c [Hin Hc]].
    apply (split_has_piece NL c); [assumption|].
    intros ->. now rewrite N.eqb_refl in Hc.
Qed.

End TextMoreFacts.

Section BridgeMoreFacts.

Import claude_cli.

Variable CLI_TIMEOUT_SECONDS : Z.
Variable decode : bytes -> str.
Variable lower : str -> str.

Implicit Types (w : env call reply log) (out : outputs).

Local Abbreviation send_message :=
  (send_message CLI_TIMEOUT_SECONDS decode lower).
Local Abbreviation report_text := (report_text decode lower).

Local Arguments report : simpl never.

Ltac answer_case :=
  match goal with
  | |- context [answer ?w ?h ?c] =>
      let E := fresh "E" in destruct (answer w h c) eqn:E; cbn
  end.

Ltac match_case :=
  match goal with
  | |- context [match ?x with _ => _ end] => is_var x; destruct x; cbn
  end.

Lemma report_text_has_text out : has_text (report_text out) = true.
Proof.
  unfold report_text.
  destruct (negb (returncode out =? 0)); [reflexivity|].
  destruct (truthy (strip (decode (stdout out)))) eqn:E; [|reflexivity].
  apply strip_has_text. now apply truthy_true.
Qed.

(** X8: whatever the environment does, the child is only ever started with
    the fixed options, the session id, the permission flag exactly when
    skip_permissions is set, and the user's message as the last argument
    behind "--"; in the working directory asked for; and with an
    environment from which CLAUDECODE is removed. *)
Theorem child_is_started_properly w (session_id message : str)
    (cwd : option str) (skip_permissions on_process_started : bool) (l : log) :
  Forall (starts_child_properly session_id message cwd skip_permissions)
    (trace (run w [] (send_message session_id message cwd skip_permissions
                        on_process_started l))).
Proof.
  unfold claude_cli.send_message, _clean_env, bind, await. cbn.
  repeat (first [answer_case | match_case]; cbn).
  all: repeat match goal with
       | |- context [run ?w ?h (report _ _ ?o ?s)] =>
           destruct (run_report decode lower w h o s) as [? ->]
       end; cbn.
  all: repeat constructor; eauto.
  all: apply lookup_delete_eq.
Qed.

(** X9: when the child cannot be started, because the executable is not
    found or because creating the process raises FileNotFoundError or
    another OSError, send_message does not raise: it returns a text that
    begins with "Error", and the child is never waited on or killed. *)
Theorem failed_start_is_reported w (session_id message : str)
    (cwd : option str) (skip_permissions on_process_started : bool)
    (l : log) (e : exn) :
  (forall h name, exists found, answer w h (Which name) = Returned found) ->
  (forall h, exists environ, answer w h Environ = Returned environ) ->
  (forall h cmd cwd' env, answer w h (CreateSubprocessExec cmd cwd' env) = Raised e) ->
  is_OSError e = true ->
  (exists text,
     outcome (run w [] (send_message session_id message cwd skip_permissions
                          on_process_started l)) = Returned text /\
     startswith text (py "Error") = true) /\
  Forall before_child_runs
    (trace (run w [] (send_message session_id message cwd skip_permissions
                        on_process_started l))).
Proof.
  intros Hwhich Henviron Hcreate He.
  unfold claude_cli.send_message, _clean_env, bind, await. cbn.
  destruct (Hwhich [] (py "claude")) as [[path|] ->]; cbn.
  - match goal with
    | |- context [answer w ?h Environ] => destruct (Henviron h) as [environ ->]
    end.
    cbn. rewrite Hcreate. cbn.
    destruct e; try discriminate He; cbn;
      (split; [eexists; split; reflexivity|repeat constructor]).
  - split; [eexists; split; reflexivity|repeat constructor].
Qed.

(** X10: whatever the environment does, a text returned by send_message
    holds a character other than a line break; it is therefore never
    empty, and what split_message returns for it, under any budget, holds
    at least one chunk (split_message raises only if the text holds a
    lone surrogate). *)
Theorem returned_text_is_never_empty w (session_id message : str)
    (cwd : option str) (skip_permissions on_process_started : bool)
    (l : log) (text : str) :
  outcome (run w [] (send_message session_id message cwd skip_permissions
                       on_process_started l)) = Returned text ->
  has_text text = true /\ text <> [] /\
  forall max_bytes,
    match split_message text max_bytes with
    | Returned chunks => chunks <> []
    | Raised e => e = UnicodeEncodeError /\ encodable text = false
    end.
Proof.
  intros Hout.
  assert (Htext : has_text text = true).
  { revert Hout.
    unfold claude_cli.send_message, _clean_env, bind, await. cbn.
    repeat (first [answer_case | match_case]; cbn).
    all: repeat match goal with
         | |- context [run ?w ?h (report _ _ ?o ?s)] =>
             destruct (run_report decode lower w h o s) as [? ->]
         end; cbn.
    all: try discriminate.
    all: intros Hout; injection Hout as <-.
    all: try reflexivity.
    all: try apply report_text_has_text.
    all: now apply has_text_app_l. }
  split; [exact Htext|]. split.
  - intros ->. discriminate Htext.
  - intros max_bytes.
    destruct (split_message_cases max_bytes text) as [[_ ->]|[H ->]].
    + now apply split_message_has_chunk.
    + now split.
Qed.

End BridgeMoreFacts.

(** ** bot.py: further properties of the splitter *)

Section SplitterMoreFacts.

Variable max_bytes : Z.

(** X11: the parts returned by _hard_split_line, put end to end, are the
    line: no character is lost, repeated or moved, under any budget.
    (Parts are returned for every line that can be encoded; for a line
    with a lone surrogate _hard_split_line raises UnicodeEncodeError.) *)
Theorem hard_split_loses_nothing (line : str) :
  match _hard_split_line line max_bytes with
  | Returned parts => concat parts = line
  | Raised e => e = UnicodeEncodeError /\ encodable line = false
  end.
Proof.
  destruct (hard_split_cases max_bytes line) as [[_ ->]|[H ->]].
  - apply hard_split_concat.
  - now split.
Qed.

Lemma each_full_snoc (l : list str) (p q : str) :
  each_full max_bytes (l ++ [p]) -> cannot_take max_bytes p q ->
  each_full max_bytes (l ++ [p; q]).
Proof.
  intros Hl Hpq. induction l as [|a l IH]; simpl in *; [auto|].
  destruct l as [|b l]; simpl in *.
  - destruct Hl as [Hab _]. auto.
  - destruct Hl as [Hab Hrest]. split; [exact Hab|]. now apply IH.
Qed.

Lemma cannot_take_grow (p q x : str) :
  q <> [] -> cannot_take max_bytes p q -> cannot_take max_bytes p (q ++ x).
Proof. destruct q; [congruence|]. intros _ H. exact H. Qed.

Lemma each_full_grow_last (l : list str) (q x : str) :
  q <> [] -> each_full max_bytes (l ++ [q]) -> each_full max_bytes (l ++ [q ++ x]).
Proof.
  intros Hq. induction l as [|a l IH]; simpl; [auto|].
  destruct l as [|b l]; simpl in *.
  - intros [Haq _]. split; [|exact I]. now apply cannot_take_grow.
  - intros [Hab Hrest]. split; [exact Hab|]. now apply IH.
Qed.

(** The loop of the hard splitter keeps every part but the running one
    full. *)
Lemma hard_fold_full (line : str) (st : list str * str) :
  each_full max_bytes (fst st ++ [snd st]) ->
  (snd st = [] -> fst st = []) ->
  let st' := fold_left (pure_hard_step max_bytes) line st in
  each_full max_bytes (fst st' ++ [snd st']) /\ (snd st' = [] -> fst st' = []).
Proof.
  revert st. induction line as [|c line IH]; intros [parts current] Hfull Hnil;
    simpl in *; [auto|].
  apply IH; unfold pure_hard_step.
  - destruct (Z.ltb_spec max_bytes (byte_len (current ++ [c]))); simpl.
    + rewrite <- app_assoc. simpl. apply each_full_snoc; [exact Hfull|].
      exact H.
    + destruct current as [|d current].
      * rewrite (Hnil eq_refl). exact I.
      * now apply each_full_grow_last.
  - destruct (max_bytes <? byte_len (current ++ [c])); simpl; [congruence|].
    intros H. destruct current; discriminate H.
Qed.

(** The hard splitter cuts as late as it can. *)
Lemma pure_hard_split_full (line : str) :
  each_full max_bytes (pure_hard_split_line line max_bytes).
Proof.
  rewrite hard_split_emitted.
  destruct (hard_fold_full line ([], []) I (fun _ => eq_refl)) as [Hfull Hnil].
  destruct (fold_left (pure_hard_step max_bytes) line ([], [])) as [parts current].
  unfold emitted. simpl in *.
  destruct current as [|c current]; simpl; [|exact Hfull].
  rewrite (Hnil eq_refl). exact I.
Qed.

(** X12: _hard_split_line cuts as late as it can: each part it returns but
    the last is full, the first character of the next part would take it
    over the budget. *)
Theorem hard_split_parts_are_full (line : str) :
  match _hard_split_line line max_bytes with
  | Returned parts => each_full max_bytes parts
  | Raised e => e = UnicodeEncodeError /\ encodable line = false
  end.
Proof.
  destruct (hard_split_cases max_bytes line) as [[_ ->]|[H ->]].
  - apply pure_hard_split_full.
  - now split.
Qed.

(** The line loop emits no empty chunk when the characters fit. *)
Lemma split_step_no_empty (st : list str * str) (line : str) :
  chars_fit line max_bytes = true ->
  Forall (fun c => c <> []) (fst st) ->
  Forall (fun c => c <> []) (fst (pure_split_step max_bytes st line)).
Proof.
  destruct st as [chunks current]. intros Hline Hch. simpl in Hch.
  unfold pure_split_step.
  destruct (max_bytes <? byte_len (if truthy current then current ++ NL :: line else line));
    [|exact Hch].
  destruct current as [|c current]; simpl.
  - destruct (max_bytes <? byte_len line); simpl; [|exact Hch].
    apply Forall_app. split; [exact Hch|]. now apply hard_split_no_empty.
  - assert (Hflush : Forall (fun c : str => c <> []) (chunks ++ [c :: current])).
    { apply Forall_app. split; [exact Hch|]. constructor; [congruence|constructor]. }
    destruct (max_bytes <? byte_len line); simpl; [|exact Hflush].
    apply Forall_app. split; [exact Hflush|]. now apply hard_split_no_empty.
Qed.

Lemma chars_fit_lines (text : str) :
  chars_fit text max_bytes = true ->
  Forall (fun l => chars_fit l max_bytes = true) (split NL text).
Proof.
  intros H. apply chars_fit_Forall in H.
  eapply Forall_impl; [apply (split_Forall _ NL text H)|].
  intros l Hl. now apply chars_fit_Forall.
Qed.

(** No chunk is empty when the text is not and its characters fit. *)
Lemma pure_split_message_no_empty (text : str) :
  text <> [] ->
  chars_fit text max_bytes = true ->
  Forall (fun c => c <> []) (pure_split_message text max_bytes).
Proof.
  intros Hne Hfit.
  destruct (Z.leb_spec (byte_len text) max_bytes) as [Hle|Hgt].
  - unfold pure_split_message.
    destruct (Z.leb_spec (byte_len text) max_bytes); [|lia].
    constructor; [exact Hne|constructor].
  - rewrite split_message_emitted by assumption.
    assert (Hinv : Forall (fun c : str => c <> [])
              (fst (fold_left (pure_split_step max_bytes) (split NL text) ([], [])))).
    { apply (fold_left_invariant
               (fun st => Forall (fun c : str => c <> []) (fst st))
               (fun l => chars_fit l max_bytes = true)).
      - intros st l Hst Hl. now apply split_step_no_empty.
      - now apply chars_fit_lines.
      - constructor. }
    destruct (fold_left (pure_split_step max_bytes) (split NL text) ([], []))
      as [chunks current].
    unfold emitted. simpl in *. destruct current; simpl; [exact Hinv|].
    apply Forall_app. split; [exact Hinv|]. constructor; [congruence|constructor].
Qed.

(** X13: split_message returns no empty chunk for a text that is not empty
    and whose characters each fit the budget (every text, from a budget
    of four bytes on): the only empty chunk it ever returns is the one
    for the empty text. *)
Theorem no_empty_chunk_but_for_empty_text (text : str) :
  text <> [] ->
  chars_fit text max_bytes = true ->
  match split_message text max_bytes with
  | Returned chunks => Forall (fun c => c <> []) chunks
  | Raised e => e = UnicodeEncodeError /\ encodable text = false
  end.
Proof.
  intros Hne Hfit.
  destruct (split_message_cases max_bytes text) as [[_ ->]|[H ->]].
  - now apply pure_split_message_no_empty.
  - now split.
Qed.

Lemma split_app_sep (sep : N) (a b : str) :
  split sep (a ++ sep :: b) = split sep a ++ split sep b.
Proof.
  induction a as [|c a IH]; simpl.
  - now rewrite N.eqb_refl.
  - destruct (c =? sep)%N; [now rewrite IH|].
    rewrite IH. pose proof (split_not_nil sep a) as Hnn.
    destruct (split sep a); [congruence|reflexivity].
Qed.

(** The pieces of a split hold no separator, and splitting such a piece
    again gives the piece. *)
Lemma split_piece_whole (sep : N) (s : str) :
  Forall (fun l => split sep l = [l]) (split sep s).
Proof.
  induction s as [|c s IH]; simpl; [repeat constructor|].
  destruct (N.eqb_spec c sep) as [->|Hne].
  - constructor; [reflexivity|exact IH].
  - destruct (split sep s) as [|l ls]; simpl.
    + constructor; [|constructor]. simpl.
      destruct (N.eqb_spec c sep); [contradiction|reflexivity].
    + inversion IH as [|? ? Hl Hls]; subst. constructor; [|exact Hls].
      simpl. destruct (N.eqb_spec c sep); [contradiction|]. now rewrite Hl.
Qed.

(** The lines of all the chunks a loop state will have emitted. *)
Local Abbreviation lines_of st := (concat (map (split NL) (emitted st))).

Lemma filter_nonempty_snoc (ls : list str) (l : str) :
  filter (fun l : str => l <> []) (ls ++ [l]) =
  filter (fun l : str => l <> []) ls ++ (if truthy l then [l] else []).
Proof.
  rewrite filter_app. f_equal. destruct l; reflexivity.
Qed.

Lemma lines_of_state (chunks : list str) (current : str) :
  lines_of (chunks, current)
  = concat (map (split NL) chunks) ++
    (if truthy current then split NL current else []).
Proof.
  unfold emitted. cbn [fst snd]. destruct (truthy current).
  - rewrite map_app, concat_app. cbn [map concat]. now rewrite app_nil_r.
  - now rewrite app_nil_r.
Qed.

Lemma filter_nonempty_line (line : str) :
  split NL line = [line] ->
  filter (fun l : str => l <> []) (if truthy line then split NL line else [])
  = if truthy line then [line] else [].
Proof. intros ->. destruct line; reflexivity. Qed.

(** As long as the lines fit the budget, the line loop keeps them whole:
    it only drops empty ones. *)
Lemma split_step_keeps_lines (st : list str * str) (seen : list str) (line : str) :
  byte_len line <= max_bytes ->
  split NL line = [line] ->
  filter (fun l : str => l <> []) (lines_of st)
    = filter (fun l : str => l <> []) seen ->
  filter (fun l : str => l <> []) (lines_of (pure_split_step max_bytes st line))
    = filter (fun l : str => l <> []) (seen ++ [line]).
Proof.
  intros Hfit Hline Hinv. rewrite filter_nonempty_snoc, <- Hinv. clear Hinv.
  destruct st as [chunks current]. unfold pure_split_step.
  destruct (Z.ltb_spec max_bytes (byte_len line)) as [Hbig|_]; [lia|].
  destruct current as [|c current].
  - change (truthy []) with false. cbv iota.
    destruct (Z.ltb_spec max_bytes (byte_len line)) as [Hbig|_]; [lia|].
    rewrite !lines_of_state. change (truthy []) with false. cbv iota.
    rewrite app_nil_r, filter_app. f_equal. now apply filter_nonempty_line.
  - change (truthy (c :: current)) with true. cbv iota.
    destruct (max_bytes <? byte_len ((c :: current) ++ NL :: line)).
    + cbv iota beta. rewrite !lines_of_state.
      change (truthy (c :: current)) with true. cbv iota.
      rewrite map_app, concat_app. cbn [map concat]. rewrite app_nil_r.
      rewrite filter_app. f_equal. now apply filter_nonempty_line.
    + rewrite !lines_of_state.
      change (truthy (c :: current)) with true.
      change (truthy ((c :: current) ++ NL :: line)) with true. cbv iota.
      rewrite split_app_sep, Hline, app_assoc.
      apply filter_nonempty_snoc.
Qed.

Lemma split_fold_keeps_lines (lines seen : list str) (st : list str * str) :
  Forall (fun l => byte_len l <= max_bytes) lines ->
  Forall (fun l => split NL l = [l]) lines ->
  filter (fun l : str => l <> []) (lines_of st)
    = filter (fun l : str => l <> []) seen ->
  filter (fun l : str => l <> [])
    (lines_of (fold_left (pure_split_step max_bytes) lines st))
    = filter (fun l : str => l <> []) (seen ++ lines).
Proof.
  intros Hfit. revert seen st.
  induction Hfit as [|l lines Hl _ IH]; intros seen st Hwhole Hinv; simpl.
  - now rewrite app_nil_r.
  - inversion Hwhole as [|? ? Hlw Hrest]; subst.
    change (l :: lines) with ([l] ++ lines). rewrite app_assoc.
    apply IH; [exact Hrest|]. now apply split_step_keeps_lines.
Qed.

(** No line that fits is cut. *)
Lemma pure_split_message_keeps_lines (text : str) :
  Forall (fun l => byte_len l <= max_bytes) (split NL text) ->
  concat (map nonempty_lines (pure_split_message text max_bytes))
    = nonempty_lines text.
Proof.
  intros Hfit. unfold nonempty_lines.
  assert (Hflat : forall chunks : list str,
            concat (map (fun c => filter (fun l : str => l <> []) (split NL c)) chunks)
            = filter (fun l : str => l <> []) (concat (map (split NL) chunks))).
  { induction chunks as [|c chunks IH]; simpl; [reflexivity|].
    now rewrite filter_app, IH. }
  rewrite Hflat.
  destruct (Z.leb_spec (byte_len text) max_bytes) as [Hle|Hgt].
  - unfold pure_split_message.
    destruct (Z.leb_spec (byte_len text) max_bytes); [|lia].
    simpl. now rewrite app_nil_r.
  - rewrite split_message_emitted by assumption.
    apply (split_fold_keeps_lines (split NL text) [] ([], []) Hfit).
    + apply split_piece_whole.
    + reflexivity.
Qed.

(** X14: when every line of the text fits the budget, no line is cut: the
    lines of the chunks returned that are not empty are the lines of the
    text that are not empty, in the same order. *)
Theorem fitting_lines_are_kept_whole (text : str) :
  Forall (fun l => byte_len l <= max_bytes) (split NL text) ->
  match split_message text max_bytes with
  | Returned chunks => concat (map nonempty_lines chunks) = nonempty_lines text
  | Raised e => e = UnicodeEncodeError /\ encodable text = false
  end.
Proof.
  intros Hfit.
  destruct (split_message_cases max_bytes text) as [[_ ->]|[H ->]].
  - now apply pure_split_message_keeps_lines.
  - now split.
Qed.

End SplitterMoreFacts.

(** ** bot.py: further properties of the polling loop *)

Section PollMoreFacts.

Variable is_authorized : str -> bool.
Variable bot_id : option str.

Implicit Types (w : env call reply memory) (h : list call) (m : memory).

Local Abbreviation poll_room := (poll_room is_authorized bot_id).
Local Abbreviation process_message := (process_message is_authorized bot_id).

Lemma keeps_process_message (room_id : str) (msg : message) Q :
  keeps_coro Q (process_message room_id msg).
Proof.
  unfold bot.process_message.
  destruct (decide (personId msg = bot_id)); [auto with keeps|].
  destruct (negb (is_authorized _)); [auto with keeps|].
  destruct (negb (truthy _)); [auto with keeps|].
  apply (keeps_await Q (Dispatch room_id _)).
Qed.

Lemma collect_new_returns (cursor : option str) (messages : list message) :
  Forall (fun msg => id msg <> None) messages ->
  exists new_messages, collect_new cursor messages = Returned new_messages.
Proof.
  induction 1 as [|msg messages Hid _ [new IH]]; [now exists []|].
  cbn. unfold subscript_id. destruct (id msg) as [i|]; [|congruence].
  destruct (decide (Some i = cursor)); [now exists []|].
  rewrite IH. now exists (msg :: new).
Qed.

(** Where the cursor is after a poll. *)
Lemma poll_moves_cursor_first_aux w m (room_id newest_id : str)
    (newest : message) (older : list message) :
  keeps_cursors w ->
  answer w [] (ApiListMessages room_id 10) = Returned (newest :: older) ->
  id newest = Some newest_id ->
  Forall (fun msg => id msg <> None) older ->
  cursor_at room_id newest_id (final (run w [] (poll_room room_id m))).
Proof.
  intros Hkeep Hans Hid Hids.
  assert (Hrely : forall h s, cursor_at room_id newest_id s ->
                              cursor_at room_id newest_id (interfere w h s)).
  { intros h s [Hl Hi]. unfold cursor_at. destruct (Hkeep h s) as [-> ->]. now split. }
  unfold bot.poll_room, bind, await. cbn [bind_step run]. rewrite Hans.
  cbn [bind_step app]. unfold subscript_id. rewrite Hid.
  cbn [of_result ret bind_step get_store].
  destruct (Hkeep [ApiListMessages room_id 10] m) as [Hl Hi].
  destruct (decide (room_id ∈ initialized_rooms _)) as [Hinit|Hnew].
  - destruct (decide (last_seen _ !! room_id = Some newest_id)) as [Hsame|Hmoved].
    + cbn. now split.
    + match goal with
      | |- context [collect_new ?cursor ?page] =>
          destruct (collect_new_returns cursor page) as [new Hnew];
          [constructor; [congruence|exact Hids]|rewrite Hnew]
      end. cbn [of_result ret bind_step modify].
      apply (run_keeps (cursor_at room_id newest_id) w _ Hrely).
      apply keeps_for_each.
      * intros msg. apply keeps_process_message.
      * split; [apply lookup_insert_eq|exact Hinit].
  - cbn. split; [apply lookup_insert_eq|].
    apply elem_of_union. left. now apply elem_of_singleton.
Qed.

(** X15: whatever the dispatches do, return or raise, a poll that has
    fetched a page of messages with ids leaves the cursor of the room on
    the newest message and the room initialized: the cursor moves before
    anything is dispatched, also when a dispatch raises. *)
Theorem poll_moves_cursor_first w m (room_id newest_id : str)
    (newest : message) (older : list message) :
  keeps_cursors w ->
  answer w [] (ApiListMessages room_id 10) = Returned (newest :: older) ->
  id newest = Some newest_id ->
  Forall (fun msg => id msg <> None) older ->
  cursor_at room_id newest_id (final (run w [] (poll_room room_id m))).
Proof. apply poll_moves_cursor_first_aux. Qed.

(** A poll that finds the cursor on the newest message only fetches. *)
Lemma poll_room_nothing_new w m (room_id newest_id : str)
    (newest : message) (older : list message) :
  keeps_cursors w ->
  answer w [] (ApiListMessages room_id 10) = Returned (newest :: older) ->
  id newest = Some newest_id ->
  cursor_at room_id newest_id m ->
  trace (run w [] (poll_room room_id m)) = [ApiListMessages room_id 10] /\
  outcome (run w [] (poll_room room_id m)) = Returned tt.
Proof.
  intros Hkeep Hans Hid [Hcur Hinit].
  unfold bot.poll_room, bind, await. cbn [bind_step run]. rewrite Hans.
  cbn [bind_step app]. unfold subscript_id. rewrite Hid.
  cbn [of_result ret bind_step get_store].
  destruct (Hkeep [ApiListMessages room_id 10] m) as [Hl Hi].
  rewrite Hl, Hi.
  destruct (decide (room_id ∈ initialized_rooms m)); [|contradiction].
  destruct (decide (last_seen m !! room_id = Some newest_id)); [|contradiction].
  cbn. auto.
Qed.

(** X16: after a poll of a room, a second poll that fetches the same page
    dispatches nothing: it makes no call but the fetch, whatever the first
    poll dispatched and however its dispatches ended. *)
Theorem second_poll_of_same_page_dispatches_nothing w w' m
    (room_id newest_id : str) (newest : message) (older : list message) :
  keeps_cursors w -> keeps_cursors w' ->
  answer w [] (ApiListMessages room_id 10) = Returned (newest :: older) ->
  answer w' [] (ApiListMessages room_id 10) = Returned (newest :: older) ->
  id newest = Some newest_id ->
  Forall (fun msg => id msg <> None) older ->
  trace (run w' [] (poll_room room_id (final (run w [] (poll_room room_id m)))))
    = [ApiListMessages room_id 10] /\
  outcome (run w' [] (poll_room room_id (final (run w [] (poll_room room_id m)))))
    = Returned tt.
Proof.
  intros Hkeep Hkeep' Hans Hans' Hid Hids.
  apply (poll_room_nothing_new w' _ room_id newest_id newest older); try assumption.
  now apply (poll_moves_cursor_first_aux w m room_id newest_id newest older).
Qed.

End PollMoreFacts.

(** ** bot.py: further properties of a turn of the polling loop *)

Section CycleMoreFacts.

Variable is_authorized : str -> bool.
Variable bot_id : option str.

Implicit Types (w : env call reply memory) (h : list call) (m : memory).

Local Abbreviation poll_cycle := (poll_cycle is_authorized bot_id).

(** How a turn of the loop ends when its waits return. *)
Lemma poll_cycle_run w m :
  sleeps_return w ->
  match run w [] (poll_cycle m) with
  | (h, _, Returned _) => exists h', h = h' ++ [Sleep]
  | (_, _, Raised e) => is_Exception e = false
  end.
Proof.
  intros Hsleep. unfold bot.poll_cycle.
  unfold bind at 1. unfold try_except. rewrite run_bind, run_catch.
  destruct (run w [] _) as [[h' s'] [a|e]].
  - cbn. rewrite Hsleep. now exists h'.
  - destruct e; cbn; rewrite ?Hsleep; cbn; rewrite ?Hsleep; eauto.
Qed.

(** X17: as long as its waits are not interrupted, a turn of the polling
    loop never ends with an exception that derives from Exception: a
    failure of the platform, a message or a room without an id, a failure
    inside dispatch, all are caught, and the turn then ends with a wait.
    Only SystemExit, KeyboardInterrupt and a cancellation leave the
    loop. *)
Theorem poll_cycle_survives_errors w m :
  sleeps_return w ->
  match outcome (run w [] (poll_cycle m)) with
  | Returned _ => exists h, trace (run w [] (poll_cycle m)) = h ++ [Sleep]
  | Raised e => is_Exception e = false
  end.
Proof.
  intros Hsleep. pose proof (poll_cycle_run w m Hsleep) as Hrun.
  destruct (run w [] (poll_cycle m)) as [[h s] [a|e]]; exact Hrun.
Qed.

(** X18: when the rooms cannot be listed, the turn waits twice: once in the
    except clause and once more at the end of the loop body, so the next
    poll comes after two intervals. *)
Theorem failed_listing_waits_twice w m (e : exn) :
  answer w [] (ApiListDirectRooms 50) = Raised e ->
  is_Exception e = true ->
  sleeps_return w ->
  trace (run w [] (poll_cycle m)) = [ApiListDirectRooms 50; Sleep; Sleep] /\
  outcome (run w [] (poll_cycle m)) = Returned tt.
Proof.
  intros Hans He Hsleep. unfold bot.poll_cycle, bind, try_except, await.
  cbn [bind_step catch_step run app]. rewrite Hans. cbn [bind_step catch_step].
  destruct e; try discriminate He; cbn; rewrite !Hsleep; cbn; auto.
Qed.

End CycleMoreFacts.

(** ** bot.py: further properties of the conversational turn *)

Section TurnMoreFacts.

Variable WEBEX_MAX_MESSAGE_BYTES : Z.

Implicit Types (w : env call reply memory) (h : list call) (m : memory).

Local Abbreviation handle_text_message :=
  (handle_text_message WEBEX_MAX_MESSAGE_BYTES).
Local Abbreviation relay_turn := (relay_turn WEBEX_MAX_MESSAGE_BYTES).

Local Arguments split_message : simpl never.
Local Arguments truthy : simpl never.

(** [finally: modify f] changes neither the calls nor the outcome. *)
Lemma run_finally_modify_same {R : Type} w h
    (x : step call reply memory R) (f : memory -> memory) :
  trace (run w h (finally_step x (modify f))) = trace (run w h x) /\
  outcome (run w h (finally_step x (modify f))) = outcome (run w h x).
Proof.
  revert h. induction x as [s r|s c k IH]; intros h; simpl.
  - split; reflexivity.
  - apply IH.
Qed.

(** Sending the chunks one by one, when each send returns. *)
Lemma run_send_each w (room_id : str) (chunks : list str) :
  sends_return room_id w ->
  forall h s,
    trace (run w h (for_each chunks
                      (fun chunk => bind (await (ApiSendMessage room_id chunk))
                                         (fun _ => ret tt)) s))
      = h ++ map (ApiSendMessage room_id) chunks /\
    outcome (run w h (for_each chunks
                        (fun chunk => bind (await (ApiSendMessage room_id chunk))
                                           (fun _ => ret tt)) s))
      = Returned tt.
Proof.
  intros Hsend. induction chunks as [|chunk chunks IH]; intros h s.
  - cbn. rewrite app_nil_r. auto.
  - set (body := fun chunk : str =>
                    bind (await (ApiSendMessage room_id chunk))
                      (fun _ => ret (call:=call) (reply:=reply) (store:=memory) tt))
      in *.
    change (for_each (chunk :: chunks) body s)
      with (bind_step (body chunk s) (fun _ => for_each chunks body)).
    rewrite run_bind.
    assert (Hb : run w h (body chunk s)
                 = (h ++ [ApiSendMessage room_id chunk],
                    interfere w (h ++ [ApiSendMessage room_id chunk]) s,
                    Returned tt)).
    { unfold body, bind, await. cbn.
      destruct (Hsend h chunk) as [sent ->]. reflexivity. }
    rewrite Hb.
    destruct (IH (h ++ [ApiSendMessage room_id chunk])
                 (interfere w (h ++ [ApiSendMessage room_id chunk]) s)) as [-> ->].
    cbn [map]. rewrite <- app_assoc. auto.
Qed.

(** A turn for a room that is not connected. *)
Lemma disconnected_turn w m (room_id text : str) :
  session_id (state_of room_id m) = None ->
  trace (run w [] (handle_text_message room_id text m))
    = [ApiSendMessage room_id not_connected] /\
  final (run w [] (handle_text_message room_id text m))
    = interfere w [ApiSendMessage room_id not_connected] (with_state room_id m).
Proof.
  unfold state_of, with_state.
  unfold bot.handle_text_message, get_state, get_store, bind.
  cbn [bind_step].
  destruct (_room_states m !! room_id) as [state|]; cbn; intros Hsid;
    rewrite ?Hsid; cbn; destruct (answer w [] _); cbn; auto.
Qed.

(** X19: a text message for a room that is not connected, or that the bot
    has never seen, is answered with the prompt to pick a session and
    nothing else: the backend is not called, and the only write to the
    memory is the state object get_state creates for a new room. *)
Theorem disconnected_turn_only_prompts w m (room_id text : str) :
  session_id (state_of room_id m) = None ->
  trace (run w [] (handle_text_message room_id text m))
    = [ApiSendMessage room_id not_connected] /\
  final (run w [] (handle_text_message room_id text m))
    = interfere w [ApiSendMessage room_id not_connected] (with_state room_id m).
Proof. apply disconnected_turn. Qed.

(** The turn of a connected, idle room up to the answer of the backend:
    the placeholder is sent, then the backend is called with the session,
    the working directory and the mode of the room. *)
Lemma turn_until_backend w m (room_id text : str) (state : BotState)
    (thinking : message) :
  _room_states m !! room_id = Some state ->
  session_id state <> None ->
  processing state = false ->
  leaves_room room_id w ->
  answer w [] (ApiSendMessage room_id thinking_text) = Returned thinking ->
  exists s,
    run w [] (handle_text_message room_id text m) =
    run w [ApiSendMessage room_id thinking_text;
           CliSendMessage (session_id state) text (session_cwd state)
             (skip_permissions state)]
      (finally_step
         (catch_step
            (bind_step
               (Finish s
                  (answer w [ApiSendMessage room_id thinking_text]
                     (CliSendMessage (session_id state) text (session_cwd state)
                        (skip_permissions state))))
               (fun response =>
                  bind (of_result (split_message response WEBEX_MAX_MESSAGE_BYTES))
                    (fun chunks =>
                  match chunks with
                  | [] => raise IndexError
                  | first :: remaining =>
                      bind
                        match id thinking with
                        | Some i =>
                            if truthy i then
                              bind (await (ApiEditMessage i room_id first))
                                (fun result =>
                                   match result with
                                   | None =>
                                       bind (await (ApiSendMessage room_id first))
                                         (fun _ => ret tt)
                                   | Some _ => ret tt
                                   end)
                            else bind (await (ApiSendMessage room_id first))
                                   (fun _ => ret tt)
                        | None => bind (await (ApiSendMessage room_id first))
                                    (fun _ => ret tt)
                        end
                        (fun _ =>
                           for_each remaining
                             (fun chunk =>
                                bind (await (ApiSendMessage room_id chunk))
                                  (fun _ => ret tt)))
                  end)))
            (fun e => if is_Exception e
                      then Some (on_error room_id (id thinking)) else None))
         (set_processing room_id false)).
Proof.
  intros Hst Hsid Hproc Hleave Hthink.
  assert (Hfree : guard_free room_id m) by (exists state; auto).
  rewrite (free_turn_unfold WEBEX_MAX_MESSAGE_BYTES m room_id text Hfree).
  unfold try_block, try_except_Exception, try_except, bind, await.
  cbn [bind_step catch_step finally_step run app].
  rewrite Hthink. cbn [bind_step catch_step finally_step ret].
  unfold bot.relay_turn, current, get_store, bind, await.
  cbn [bind_step catch_step finally_step ret run app].
  rewrite Hleave. cbn [set_room_states _room_states].
  rewrite lookup_alter_eq, Hst.
  cbn [fmap option_fmap option_map default from_option with_processing
       session_id session_cwd skip_permissions].
  eexists. reflexivity.
Qed.

(** The sends of the remaining chunks, under the clauses of the turn. *)
Lemma run_remaining_chunks w (room_id : str) (remaining : list str) h s
    (hd : exn -> option (memory -> step call reply memory unit)) :
  sends_return room_id w ->
  trace (run w h
           (finally_step
              (catch_step
                 (for_each remaining
                    (fun chunk => bind (await (ApiSendMessage room_id chunk))
                                       (fun _ => ret tt)) s) hd)
              (set_processing room_id false)))
    = h ++ map (ApiSendMessage room_id) remaining /\
  outcome (run w h
             (finally_step
                (catch_step
                   (for_each remaining
                      (fun chunk => bind (await (ApiSendMessage room_id chunk))
                                         (fun _ => ret tt)) s) hd)
                (set_processing room_id false)))
    = Returned tt.
Proof.
  intros Hsend. unfold set_processing.
  destruct (run_finally_modify_same w h
              (catch_step
                 (for_each remaining
                    (fun chunk => bind (await (ApiSendMessage room_id chunk))
                                       (fun _ => ret tt)) s) hd)
              (set_room_states (alter (with_processing false) room_id)))
    as [-> ->].
  rewrite run_catch.
  destruct (run_send_each w room_id remaining Hsend h s) as [Ht Ho].
  destruct (run w h _) as [[h' s'] r]. cbn in Ht, Ho. subst. cbn. auto.
Qed.

(** X20: in a connected, idle room whose state the other tasks leave alone,
    a turn sends the placeholder, calls the backend with the session, the
    working directory and the mode of the room, and delivers every chunk
    of the response in order: the first by editing the placeholder, and
    by a new message when the edit has returned None; the others by new
    messages. *)
Theorem turn_delivers_every_chunk w m (room_id text : str) (state : BotState)
    (thinking : message) (i response first : str) (remaining : list str)
    (result : option message) :
  _room_states m !! room_id = Some state ->
  session_id state <> None ->
  processing state = false ->
  leaves_room room_id w ->
  sends_return room_id w ->
  answer w [] (ApiSendMessage room_id thinking_text) = Returned thinking ->
  id thinking = Some i ->
  truthy i = true ->
  answer w [ApiSendMessage room_id thinking_text]
    (CliSendMessage (session_id state) text (session_cwd state)
       (skip_permissions state)) = Returned response ->
  split_message response WEBEX_MAX_MESSAGE_BYTES = Returned (first :: remaining) ->
  answer w [ApiSendMessage room_id thinking_text;
            CliSendMessage (session_id state) text (session_cwd state)
              (skip_permissions state)]
    (ApiEditMessage i room_id first) = Returned result ->
  trace (run w [] (handle_text_message room_id text m))
    = [ApiSendMessage room_id thinking_text;
       CliSendMessage (session_id state) text (session_cwd state)
         (skip_permissions state);
       ApiEditMessage i room_id first] ++
      match result with
      | None => [ApiSendMessage room_id first]
      | Some _ => []
      end ++
      map (ApiSendMessage room_id) remaining /\
  outcome (run w [] (handle_text_message room_id text m)) = Returned tt.
Proof.
  intros Hst Hsid Hproc Hleave Hsend Hthink Hid Htruthy Hcli Hsplit Hedit.
  destruct (turn_until_backend w m room_id text state thinking
              Hst Hsid Hproc Hleave Hthink) as [s ->].
  rewrite Hcli. cbn [bind_step]. rewrite Hsplit, Hid, Htruthy.
  match goal with
  | |- trace ?r = _ /\ outcome ?r = _ => remember r as x eqn:Hx
  end.
  unfold bind at 1 in Hx. cbn [of_result ret bind_step] in Hx.
  unfold bind at 1 in Hx. unfold bind at 1 in Hx. unfold await at 1 in Hx.
  cbn [bind_step catch_step finally_step run app] in Hx. rewrite Hedit in Hx.
  cbn [bind_step] in Hx.
  destruct result as [edited|].
  - cbn [bind_step ret app] in Hx.
    match type of Hx with
    | _ = run w ?h (finally_step (catch_step (for_each _ _ ?s0) ?hd) _) =>
        destruct (run_remaining_chunks w room_id remaining h s0 hd Hsend)
          as [Ht Ho]
    end.
    rewrite <- Hx in Ht, Ho. auto.
  - unfold bind at 1 in Hx. unfold await at 1 in Hx.
    cbn [bind_step catch_step finally_step run app] in Hx.
    match type of Hx with
    | context [answer w ?h (ApiSendMessage room_id first)] =>
        destruct (Hsend h first) as [sent Hsent]; rewrite Hsent in Hx
    end.
    cbn [bind_step ret] in Hx.
    match type of Hx with
    | _ = run w ?h (finally_step (catch_step (for_each _ _ ?s0) ?hd) _) =>
        destruct (run_remaining_chunks w room_id remaining h s0 hd Hsend)
          as [Ht Ho]
    end.
    rewrite <- Hx in Ht, Ho. auto.
Qed.

(** X21: when the backend raises an exception that derives from Exception,
    the turn does not raise: it replaces the placeholder with the fixed
    error notice, which says nothing of the exception, and returns. *)
Theorem backend_failure_is_reported w m (room_id text : str) (state : BotState)
    (thinking : message) (i : str) (e : exn) (result : option message) :
  _room_states m !! room_id = Some state ->
  session_id state <> None ->
  processing state = false ->
  leaves_room room_id w ->
  answer w [] (ApiSendMessage room_id thinking_text) = Returned thinking ->
  id thinking = Some i ->
  truthy i = true ->
  answer w [ApiSendMessage room_id thinking_text]
    (CliSendMessage (session_id state) text (session_cwd state)
       (skip_permissions state)) = Raised e ->
  is_Exception e = true ->
  answer w [ApiSendMessage room_id thinking_text;
            CliSendMessage (session_id state) text (session_cwd state)
              (skip_permissions state)]
    (ApiEditMessage i room_id error_text) = Returned result ->
  trace (run w [] (handle_text_message room_id text m))
    = [ApiSendMessage room_id thinking_text;
       CliSendMessage (session_id state) text (session_cwd state)
         (skip_permissions state);
       ApiEditMessage i room_id error_text] /\
  outcome (run w [] (handle_text_message room_id text m)) = Returned tt.
Proof.
  intros Hst Hsid Hproc Hleave Hthink Hid Htruthy Hcli He Hedit.
  destruct (turn_until_backend w m room_id text state thinking
              Hst Hsid Hproc Hleave Hthink) as [s ->].
  rewrite Hcli. cbn [bind_step catch_step]. rewrite He, Hid.
  unfold on_error. rewrite Htruthy. unfold bind, await.
  cbn [bind_step finally_step run app]. rewrite Hedit. cbn. auto.
Qed.

(** X22: an exception of the backend that does not derive from Exception,
    SystemExit, KeyboardInterrupt or a cancellation, is not caught: the
    turn raises it, and no error notice is sent. *)
Theorem interrupt_is_not_swallowed w m (room_id text : str) (state : BotState)
    (thinking : message) (e : exn) :
  _room_states m !! room_id = Some state ->
  session_id state <> None ->
  processing state = false ->
  leaves_room room_id w ->
  answer w [] (ApiSendMessage room_id thinking_text) = Returned thinking ->
  answer w [ApiSendMessage room_id thinking_text]
    (CliSendMessage (session_id state) text (session_cwd state)
       (skip_permissions state)) = Raised e ->
  is_Exception e = false ->
  trace (run w [] (handle_text_message room_id text m))
    = [ApiSendMessage room_id thinking_text;
       CliSendMessage (session_id state) text (session_cwd state)
         (skip_permissions state)] /\
  outcome (run w [] (handle_text_message room_id text m)) = Raised e.
Proof.
  intros Hst Hsid Hproc Hleave Hthink Hcli He.
  destruct (turn_until_backend w m room_id text state thinking
              Hst Hsid Hproc Hleave Hthink) as [s ->].
  rewrite Hcli. cbn [bind_step catch_step]. rewrite He. cbn. auto.
Qed.

End TurnMoreFacts.

(** ** bot.py: properties of the commands on the conversation state *)

Section CommandFacts.

Implicit Types (w : env call reply memory) (h : list call) (m : memory).

(** The state of the room after [handle_safe]. *)
Lemma run_handle_safe w m (room_id : str) :
  leaves_room room_id w ->
  skip_permissions
    (state_of room_id (final (run w [] (handle_safe room_id m))))
    = negb (skip_permissions (state_of room_id m)) /\
  trace (run w [] (handle_safe room_id m))
    = [ApiSendMessage room_id
         (if negb (skip_permissions (state_of room_id m))
          then mode_skip_permissions else mode_safe)].
Proof.
  intros Hleave. unfold state_of.
  unfold handle_safe, get_state, get_store, bind, modify, await, ret.
  cbn [bind_step].
  destruct (_room_states m !! room_id) as [state|] eqn:Hst; cbn [bind_step].
  - destruct (skip_permissions state) eqn:Hskip; cbn [negb bind_step run app];
      destruct (answer w [] _); cbn [bind_step run final trace fst snd];
      rewrite Hleave; cbn [set_room_states _room_states];
      rewrite lookup_alter_eq, Hst; cbn; rewrite Hskip; auto.
  - cbn [BotState_default skip_permissions negb bind_step run app].
    destruct (answer w [] _); cbn [bind_step run final trace fst snd];
      rewrite Hleave; cbn [set_room_states _room_states];
      rewrite lookup_alter_eq, lookup_insert_eq; cbn; auto.
Qed.

(** X23: /safe flips the mode of the room, a room the bot has never seen
    going from the default, safe, to skip-permissions, and the one
    message it sends announces the mode the room is now in. *)
Theorem safe_announces_the_new_mode w m (room_id : str) :
  leaves_room room_id w ->
  skip_permissions
    (state_of room_id (final (run w [] (handle_safe room_id m))))
    = negb (skip_permissions (state_of room_id m)) /\
  trace (run w [] (handle_safe room_id m))
    = [ApiSendMessage room_id
         (if negb (skip_permissions (state_of room_id m))
          then mode_skip_permissions else mode_safe)].
Proof. apply run_handle_safe. Qed.

(** X24: /safe twice gives the mode of the room back, whether or not the
    two announcements could be sent. *)
Theorem safe_twice_restores_the_mode w w' m (room_id : str) :
  leaves_room room_id w ->
  leaves_room room_id w' ->
  skip_permissions
    (state_of room_id
       (final (run w' [] (handle_safe room_id
                            (final (run w [] (handle_safe room_id m)))))))
    = skip_permissions (state_of room_id m).
Proof.
  intros Hleave Hleave'.
  destruct (run_handle_safe w' (final (run w [] (handle_safe room_id m)))
              room_id Hleave') as [-> _].
  destruct (run_handle_safe w m room_id Hleave) as [-> _].
  apply negb_involutive.
Qed.

(** The state of the room after [handle_disconnect]. *)
Lemma run_handle_disconnect w m (room_id : str) :
  leaves_room room_id w ->
  session_id (state_of room_id (final (run w [] (handle_disconnect room_id m))))
    = None /\
  skip_permissions
    (state_of room_id (final (run w [] (handle_disconnect room_id m))))
    = skip_permissions (state_of room_id m) /\
  processing
    (state_of room_id (final (run w [] (handle_disconnect room_id m))))
    = processing (state_of room_id m).
Proof.
  intros Hleave. unfold state_of.
  unfold handle_disconnect, get_state, get_store, bind, modify, await, ret.
  cbn [bind_step].
  destruct (_room_states m !! room_id) as [state|] eqn:Hst; cbn [bind_step].
  - destruct (session_id state) as [sid|] eqn:Hsid; cbn [bind_step run app];
      destruct (answer w [] _); cbn [bind_step run final trace fst snd];
      rewrite Hleave; cbn [set_room_states _room_states];
      rewrite ?lookup_alter_eq, Hst; cbn; rewrite ?Hsid; auto.
  - cbn [BotState_default session_id bind_step run app].
    destruct (answer w [] _); cbn [bind_step run final trace fst snd];
      rewrite Hleave; cbn [set_room_states _room_states];
      rewrite lookup_insert_eq; cbn; auto.
Qed.

(** X25: after /disconnect the room has no session, whatever it had before
    and whether or not the confirmation could be sent, while its mode and
    its single-flight guard are as they were; a text message that follows
    is answered with the prompt to pick a session and does not reach the
    backend. *)
Theorem text_after_disconnect_is_refused w m (room_id : str) :
  leaves_room room_id w ->
  session_id (state_of room_id (final (run w [] (handle_disconnect room_id m))))
    = None /\
  skip_permissions
    (state_of room_id (final (run w [] (handle_disconnect room_id m))))
    = skip_permissions (state_of room_id m) /\
  processing
    (state_of room_id (final (run w [] (handle_disconnect room_id m))))
    = processing (state_of room_id m) /\
  forall w' (max_bytes : Z) (text : str),
    trace (run w' [] (handle_text_message max_bytes room_id text
                        (final (run w [] (handle_disconnect room_id m)))))
      = [ApiSendMessage room_id not_connected].
Proof.
  intros Hleave.
  destruct (run_handle_disconnect w m room_id Hleave) as (Hsid & Hskip & Hproc).
  repeat (split; [assumption|]).
  intros w' max_bytes text.
  now apply (disconnected_turn max_bytes w').
Qed.

End CommandFacts.

(** ** The claims at concrete inputs *)



(** C2, counterexample: a turn of a connected room is suspended on the
    backend, with the guard set; /disconnect runs there, and leaves the
    guard set; a second turn that starts then is not answered with the
    busy reply but with the prompt of a room that is not connected. *)
Lemma C2_counterexample :
  guard_free (py "room") fresh /\
  In (busy,
      bot.CliSendMessage (Some (py "s1")) (py "hi") (Some (py "/tmp")) true)
    (suspensions calm [] (bot.handle_text_message 7439 (py "room") (py "hi") fresh)) /\
  processing_of (py "room")
    (final (run calm [] (bot.handle_disconnect (py "room") busy))) = true /\
  trace (run calm []
           (bot.handle_text_message 7439 (py "room") (py "again")
              (final (run calm [] (bot.handle_disconnect (py "room") busy)))))
    = [bot.ApiSendMessage (py "room")
         (py "Not connected. Use `/sessions` to pick a session.")].
Proof.
  split; [exists connected; split; [reflexivity|split; [reflexivity|discriminate]]|].
  split; [right; left; reflexivity|].
  split; reflexivity.
Qed.

Lemma C2_witness :
  guard_free (py "room") fresh /\
  processing_of (py "room")
    (final (run calm [] (bot.handle_text_message 7439 (py "room") (py "hi") fresh)))
  = false /\
  suspensions calm [] (bot.handle_text_message 7439 (py "room") (py "hi") fresh)
  = [(busy, bot.ApiSendMessage (py "room") (py "Thinking..."));
     (busy, bot.CliSendMessage (Some (py "s1")) (py "hi") (Some (py "/tmp")) true);
     (busy, bot.ApiEditMessage (py "m1") (py "room") (py "hello"))] /\
  processing_of (py "room") busy = true /\
  forall w' (text' : str),
    trace (run w' [] (bot.handle_text_message 7439 (py "room") text' busy))
      = [bot.ApiSendMessage (py "room")
           (py "Still processing the previous message. Please wait.")] /\
    final (run w' [] (bot.handle_text_message 7439 (py "room") text' busy))
      = interfere w'
          [bot.ApiSendMessage (py "room")
             (py "Still processing the previous message. Please wait.")] busy.
Proof.
  assert (Hfree : guard_free (py "room") fresh).
  { exists connected. split; [reflexivity|]. split; [reflexivity|discriminate]. }
  split; [exact Hfree|].
  destruct (C2_single_flight_guard 7439 calm fresh (py "room") (py "hi") Hfree)
    as (Hclear & _ & _ & Hbusy).
  split; [exact Hclear|]. split; [reflexivity|].
  apply (Hbusy (fun h s Hs => Hs) busy
           (bot.CliSendMessage (Some (py "s1")) (py "hi") (Some (py "/tmp")) true)).
  right. left. reflexivity.
Defined.

Lemma C5_witness :
  keeps_cursors calm /\
  answer calm [] (bot.ApiListMessages (py "room") 10)
    = Returned (user_message "a" "newest" :: tl feed) /\
  bot.id (user_message "a" "newest") = Some (py "a") /\
  (py "room" ∉ bot.initialized_rooms fresh) /\
  trace (run calm [] (bot.poll_room everyone (Some (py "bot")) (py "room") fresh))
    = [bot.ApiListMessages (py "room") 10] /\
  outcome (run calm [] (bot.poll_room everyone (Some (py "bot")) (py "room") fresh))
    = Returned tt /\
  bot.last_seen
    (final (run calm [] (bot.poll_room everyone (Some (py "bot")) (py "room") fresh)))
    !! (py "room") = Some (py "a") /\
  (py "room" ∈ bot.initialized_rooms
     (final (run calm [] (bot.poll_room everyone (Some (py "bot")) (py "room") fresh)))).
Proof.
  assert (Hkeep : keeps_cursors calm) by (intros h m; split; reflexivity).
  assert (Hnew : py "room" ∉ bot.initialized_rooms fresh)
    by apply not_elem_of_empty.
  split; [exact Hkeep|]. split; [reflexivity|]. split; [reflexivity|].
  split; [exact Hnew|].
  apply (C5_first_poll_marks_position everyone (Some (py "bot")) calm fresh
           (py "room") (py "a") (user_message "a" "newest") (tl feed));
    [exact Hkeep | reflexivity | reflexivity | exact Hnew].
Defined.

Lemma C6_witness :
  trace (run calm [] (bot.poll_room everyone (Some (py "bot")) (py "room")
                        (polled "x")))
    = [bot.ApiListMessages (py "room") 10;
       bot.Dispatch (py "room") (py "second");
       bot.Dispatch (py "room") (py "newest")] /\
  outcome (run calm [] (bot.poll_room everyone (Some (py "bot")) (py "room")
                          (polled "x")))
    = Returned tt /\
  bot.last_seen
    (final (run calm [] (bot.poll_room everyone (Some (py "bot")) (py "room")
                           (polled "x"))))
    !! (py "room") = Some (py "a").
Proof.
  apply (C6_dispatches_newer_oldest_first everyone (Some (py "bot")) calm
           (polled "x") (py "room")
           (user_message "a" "newest") (user_message "b" " second ")
           (user_message "x" "seen") (user_message "c" "oldest")
           (py "a") (py "b") (py "x") (py "newest") (py "second")).
  - intros h room_id text. reflexivity.
  - intros h m. split; reflexivity.
  - reflexivity.
  - reflexivity.
  - reflexivity.
  - reflexivity.
  - vm_compute. discriminate.
  - vm_compute. discriminate.
  - vm_compute. reflexivity.
  - apply lookup_singleton_eq.
  - vm_compute. reflexivity.
  - vm_compute. reflexivity.
Defined.

Lemma C10_witness :
  trace (run crowded [] (bot.poll_room only_user (Some (py "bot")) (py "room")
                           (polled "gone")))
    = [bot.ApiListMessages (py "room") 10;
       bot.Dispatch (py "room") (py "oldest");
       bot.Dispatch (py "room") (py "second");
       bot.Dispatch (py "room") (py "newest")] /\
  outcome (run crowded [] (bot.poll_room only_user (Some (py "bot")) (py "room")
                             (polled "gone")))
    = Returned tt /\
  bot.last_seen
    (final (run crowded [] (bot.poll_room only_user (Some (py "bot")) (py "room")
                              (polled "gone"))))
    !! (py "room") = Some (py "a").
Proof.
  assert (Hret : dispatch_returns crowded) by (intros h room_id text; reflexivity).
  assert (Hkeep : keeps_cursors crowded) by (intros h m; split; reflexivity).
  assert (Hinit : py "room" ∈ bot.initialized_rooms (polled "gone"))
    by (vm_compute; reflexivity).
  assert (Hall : Forall (fun msg => exists i, bot.id msg = Some i /\
                           Some i <> bot.last_seen (polled "gone") !! py "room")
                   (user_message "a" "newest" :: tl mixed_feed)).
  { repeat constructor; eexists; (split; [reflexivity|vm_compute; discriminate]). }
  exact (C10_lost_cursor_replays_the_page only_user (Some (py "bot")) crowded
           (polled "gone") (py "room") (py "a")
           (user_message "a" "newest") (tl mixed_feed)
           Hret Hkeep eq_refl eq_refl Hinit Hall).
Defined.



Lemma C7_witness :
  trace (run limited_then_refused []
           (webex_api._request (fun _ => Some 10) (fun status => 400 <=? status)
              (py "GET") (py "/rooms") None None started))
    = [list_rooms; webex_api.Sleep 10] ++ [list_rooms] /\
  outcome (run limited_then_refused []
             (webex_api._request (fun _ => Some 10) (fun status => 400 <=? status)
                (py "GET") (py "/rooms") None None started))
    = Raised unauthorized.
Proof.
  apply (C7_unauthorized_is_fatal (fun _ => Some 10) (fun status => 400 <=? status)
           limited_then_refused (py "GET") (py "/rooms") None None started
           [list_rooms; webex_api.Sleep 10]
           {| webex_api.status_code := 401;
              webex_api.retry_after := Some (py "10");
              webex_api.json_body := Returned webex_api.JNull |}).
  - exists []. reflexivity.
  - reflexivity.
  - reflexivity.
Defined.

Lemma C8_witness :
  (exists h,
     trace (run (child None) []
              (claude_cli.send_message 300 as_code_points unchanged
                 (py "s1") (py "hi") (Some (py "/tmp")) true false []))
     = h ++ [claude_cli.Communicate 300; claude_cli.Kill; claude_cli.Wait]) /\
  outcome (run (child None) []
             (claude_cli.send_message 300 as_code_points unchanged
                (py "s1") (py "hi") (Some (py "/tmp")) true false []))
  = Returned (py "Error: CLI timed out after 300 seconds. The process was killed.").
Proof.
  assert (Hin : In (claude_cli.Communicate 300)
                  (trace (run (child None) []
                            (claude_cli.send_message 300 as_code_points unchanged
                               (py "s1") (py "hi") (Some (py "/tmp")) true false []))))
    by (vm_compute; tauto).
  exact (C8_timeout_kills_waits_and_reports 300 as_code_points unchanged
           (child None) (py "s1") (py "hi") (Some (py "/tmp")) true false [] (-9)
           (fun h => eq_refl) (fun h => eq_refl) (fun h => eq_refl) Hin).
Defined.

Lemma C9_witness :
  outcome (run (child (Some (1, "token=abc"))) []
             (claude_cli.send_message 300 as_code_points unchanged
                (py "s1") (py "hi") (Some (py "/tmp")) true false []))
  = outcome (run (child (Some (1, "another failure"))) []
               (claude_cli.send_message 300 as_code_points unchanged
                  (py "s1") (py "hi") (Some (py "/tmp")) true false [])) /\
  trace (run (child (Some (1, "token=abc"))) []
           (claude_cli.send_message 300 as_code_points unchanged
              (py "s1") (py "hi") (Some (py "/tmp")) true false []))
  = trace (run (child (Some (1, "another failure"))) []
             (claude_cli.send_message 300 as_code_points unchanged
                (py "s1") (py "hi") (Some (py "/tmp")) true false [])).
Proof.
  apply (C9_stderr_is_not_echoed 300 as_code_points unchanged
           (child (Some (1, "token=abc"))) (child (Some (1, "another failure")))
           (py "s1") (py "hi") (Some (py "/tmp")) true false [] []).
  - intros h c Hc. destruct c; try reflexivity. now destruct (Hc timeout).
  - intros h timeout. cbn. split; [reflexivity|]. split; [reflexivity|].
    intros _. reflexivity.
Defined.

(** ** The further properties at concrete inputs *)

Lemma rate_limited_request_waits_and_retries_witness :
  trace (run limited_then_served []
           (webex_api._request (fun _ => Some 10) (fun status => 400 <=? status)
              (py "GET") (py "/rooms") None None started))
    = [list_rooms; webex_api.Sleep (Z.min 10 60); list_rooms] /\
  outcome (run limited_then_served []
             (webex_api._request (fun _ => Some 10) (fun status => 400 <=? status)
                (py "GET") (py "/rooms") None None started))
    = Returned webex_api.JNull.
Proof.
  apply (rate_limited_request_waits_and_retries
           (fun _ => Some 10) (fun status => 400 <=? status)
           limited_then_served (py "GET") (py "/rooms") None None started
           (responded 429) (responded 200) (py "10") 10 webex_api.JNull);
    try reflexivity; cbn; lia.
Defined.

Lemma rate_limited_throughout_exhausts_retries_witness :
  trace (run always_limited []
           (webex_api._request (fun _ => Some 10) (fun status => 400 <=? status)
              (py "GET") (py "/rooms") None None started))
    = [list_rooms;
       webex_api.Sleep (webex_api.retry_after_seconds (fun _ => Some 10)
                          (responded 429));
       list_rooms;
       webex_api.Sleep (webex_api.retry_after_seconds (fun _ => Some 10)
                          (responded 429));
       list_rooms;
       webex_api.Sleep (webex_api.retry_after_seconds (fun _ => Some 10)
                          (responded 429))] /\
  outcome (run always_limited []
             (webex_api._request (fun _ => Some 10) (fun status => 400 <=? status)
                (py "GET") (py "/rooms") None None started))
    = Raised (HTTPStatusError (py "Retries exhausted") 429).
Proof.
  apply (rate_limited_throughout_exhausts_retries
           (fun _ => Some 10) (fun status => 400 <=? status)
           always_limited (py "GET") (py "/rooms") None None started
           (responded 429)).
  - reflexivity.
  - reflexivity.
  - intros h. reflexivity.
  - intros h seconds. reflexivity.
Defined.

Lemma network_failure_backs_off_and_gives_up_witness :
  trace (run unreachable []
           (webex_api._request (fun _ => Some 10) (fun status => 400 <=? status)
              (py "GET") (py "/rooms") None None started))
    = [list_rooms; webex_api.Sleep 2; list_rooms; webex_api.Sleep 4; list_rooms] /\
  outcome (run unreachable []
             (webex_api._request (fun _ => Some 10) (fun status => 400 <=? status)
                (py "GET") (py "/rooms") None None started))
    = Raised (RequestError (py "down")).
Proof.
  apply (network_failure_backs_off_and_gives_up
           (fun _ => Some 10) (fun status => 400 <=? status)
           unreachable (py "GET") (py "/rooms") None None started (py "down")).
  - reflexivity.
  - intros h. reflexivity.
  - intros h seconds. reflexivity.
Defined.

Lemma final_response_is_not_retried_witness :
  trace (run limited_then_refused []
           (webex_api._request (fun _ => Some 10) (fun status => 400 <=? status)
              (py "GET") (py "/rooms") None None started))
    = [list_rooms; webex_api.Sleep 10] ++ [list_rooms].
Proof.
  apply (final_response_is_not_retried
           (fun _ => Some 10) (fun status => 400 <=? status)
           limited_then_refused (py "GET") (py "/rooms") None None started
           [list_rooms; webex_api.Sleep 10]
           {| webex_api.status_code := 401;
              webex_api.retry_after := Some (py "10");
              webex_api.json_body := Returned webex_api.JNull |}).
  - exists []. reflexivity.
  - reflexivity.
  - cbn. lia.
  - cbn. lia.
Defined.

Lemma failed_start_is_reported_witness :
  (exists text,
     outcome (run (no_child (OSError (py "denied"))) []
                (claude_cli.send_message 300 as_code_points unchanged
                   (py "s1") (py "hi") (Some (py "/tmp")) true false []))
       = Returned text /\
     startswith text (py "Error") = true) /\
  Forall before_child_runs
    (trace (run (no_child (OSError (py "denied"))) []
              (claude_cli.send_message 300 as_code_points unchanged
                 (py "s1") (py "hi") (Some (py "/tmp")) true false []))).
Proof.
  apply (failed_start_is_reported 300 as_code_points unchanged
           (no_child (OSError (py "denied")))
           (py "s1") (py "hi") (Some (py "/tmp")) true false []
           (OSError (py "denied"))).
  - intros h name. eexists. reflexivity.
  - intros h. eexists. reflexivity.
  - intros h cmd cwd' env. reflexivity.
  - reflexivity.
Defined.

Lemma returned_text_is_never_empty_witness :
  has_text (claude_cli.timed_out 300) = true /\
  claude_cli.timed_out 300 <> [] /\
  forall max_bytes,
    match bot.split_message (claude_cli.timed_out 300) max_bytes with
    | Returned chunks => chunks <> []
    | Raised e => e = UnicodeEncodeError /\ encodable (claude_cli.timed_out 300) = false
    end.
Proof.
  apply (returned_text_is_never_empty 300 as_code_points unchanged
           (child None) (py "s1") (py "hi") (Some (py "/tmp")) true false []
           (claude_cli.timed_out 300)).
  reflexivity.
Defined.

Lemma no_empty_chunk_but_for_empty_text_witness :
  bot.split_message (py "ab" ++ NL :: [233%N; 8364%N; 128512%N; 100%N]) 4
    = Returned [py "ab"; [233%N]; [8364%N]; [128512%N]; [100%N]] /\
  Forall (fun c => c <> [])
    [py "ab"; [233%N]; [8364%N]; [128512%N]; [100%N]].
Proof.
  split; [reflexivity|].
  assert (Hne : py "ab" ++ NL :: [233%N; 8364%N; 128512%N; 100%N] <> [])
    by (vm_compute; discriminate).
  exact (no_empty_chunk_but_for_empty_text 4
           (py "ab" ++ NL :: [233%N; 8364%N; 128512%N; 100%N]) Hne eq_refl).
Defined.

Lemma fitting_lines_are_kept_whole_witness :
  bot.split_message (py "ab" ++ NL :: py "cd" ++ NL :: NL :: py "ef") 5
    = Returned [py "ab" ++ NL :: py "cd"; py "ef"] /\
  concat (map nonempty_lines [py "ab" ++ NL :: py "cd"; py "ef"])
    = nonempty_lines (py "ab" ++ NL :: py "cd" ++ NL :: NL :: py "ef").
Proof.
  split; [reflexivity|].
  assert (Hfit : Forall (fun l => byte_len l <= 5)
                   (split NL (py "ab" ++ NL :: py "cd" ++ NL :: NL :: py "ef")))
    by (vm_compute; repeat constructor; discriminate).
  exact (fitting_lines_are_kept_whole 5
           (py "ab" ++ NL :: py "cd" ++ NL :: NL :: py "ef") Hfit).
Defined.

Lemma poll_moves_cursor_first_witness :
  cursor_at (py "room") (py "a")
    (final (run (broken_dispatch (RuntimeError (py "boom"))) []
              (bot.poll_room everyone (Some (py "bot")) (py "room") (polled "x")))).
Proof.
  apply (poll_moves_cursor_first everyone (Some (py "bot"))
           (broken_dispatch (RuntimeError (py "boom"))) (polled "x")
           (py "room") (py "a") (user_message "a" "newest") (tl feed)).
  - intros h m. split; reflexivity.
  - reflexivity.
  - reflexivity.
  - repeat constructor; discriminate.
Defined.

Lemma second_poll_of_same_page_dispatches_nothing_witness :
  trace (run calm []
           (bot.poll_room everyone (Some (py "bot")) (py "room")
              (final (run (broken_dispatch (RuntimeError (py "boom"))) []
                        (bot.poll_room everyone (Some (py "bot")) (py "room")
                           (polled "x"))))))
    = [bot.ApiListMessages (py "room") 10] /\
  outcome (run calm []
             (bot.poll_room everyone (Some (py "bot")) (py "room")
                (final (run (broken_dispatch (RuntimeError (py "boom"))) []
                          (bot.poll_room everyone (Some (py "bot")) (py "room")
                             (polled "x"))))))
    = Returned tt.
Proof.
  apply (second_poll_of_same_page_dispatches_nothing everyone (Some (py "bot"))
           (broken_dispatch (RuntimeError (py "boom"))) calm (polled "x")
           (py "room") (py "a") (user_message "a" "newest") (tl feed)).
  - intros h m. split; reflexivity.
  - intros h m. split; reflexivity.
  - reflexivity.
  - reflexivity.
  - reflexivity.
  - repeat constructor; discriminate.
Defined.

Lemma poll_cycle_survives_errors_witness :
  match outcome (run (failing (RuntimeError (py "boom"))) []
                   (bot.poll_cycle everyone (Some (py "bot")) fresh)) with
  | Returned _ =>
      exists h,
        trace (run (failing (RuntimeError (py "boom"))) []
                 (bot.poll_cycle everyone (Some (py "bot")) fresh))
        = h ++ [bot.Sleep]
  | Raised e => is_Exception e = false
  end.
Proof.
  apply (poll_cycle_survives_errors everyone (Some (py "bot"))
           (failing (RuntimeError (py "boom"))) fresh).
  intros h. reflexivity.
Defined.

Lemma failed_listing_waits_twice_witness :
  trace (run (failing (RequestError (py "down"))) []
           (bot.poll_cycle everyone (Some (py "bot")) fresh))
    = [bot.ApiListDirectRooms 50; bot.Sleep; bot.Sleep] /\
  outcome (run (failing (RequestError (py "down"))) []
             (bot.poll_cycle everyone (Some (py "bot")) fresh))
    = Returned tt.
Proof.
  apply (failed_listing_waits_twice everyone (Some (py "bot"))
           (failing (RequestError (py "down"))) fresh (RequestError (py "down"))).
  - reflexivity.
  - reflexivity.
  - intros h. reflexivity.
Defined.

Lemma disconnected_turn_only_prompts_witness :
  trace (run calm [] (bot.handle_text_message 7439 (py "room") (py "hi") blank))
    = [bot.ApiSendMessage (py "room") (py "Not connected. Use `/sessions` to pick a session.")] /\
  final (run calm [] (bot.handle_text_message 7439 (py "room") (py "hi") blank))
    = interfere calm [bot.ApiSendMessage (py "room") (py "Not connected. Use `/sessions` to pick a session.")]
        (with_state (py "room") blank).
Proof.
  apply (disconnected_turn_only_prompts 7439 calm blank (py "room") (py "hi")).
  reflexivity.
Defined.

Lemma turn_delivers_every_chunk_witness :
  trace (run edit_refused [] (bot.handle_text_message 4 (py "room") (py "hi") fresh))
    = [bot.ApiSendMessage (py "room") (py "Thinking...");
       bot.CliSendMessage (Some (py "s1")) (py "hi") (Some (py "/tmp")) true;
       bot.ApiEditMessage (py "m1") (py "room") (py "ab");
       bot.ApiSendMessage (py "room") (py "ab");
       bot.ApiSendMessage (py "room") (py "cdef");
       bot.ApiSendMessage (py "room") (py "gh");
       bot.ApiSendMessage (py "room") (py "ij")] /\
  outcome (run edit_refused []
             (bot.handle_text_message 4 (py "room") (py "hi") fresh))
    = Returned tt.
Proof.
  assert (Hsid : bot.session_id connected <> None) by discriminate.
  exact (turn_delivers_every_chunk 4 edit_refused fresh (py "room") (py "hi")
           connected (user_message "m1" "") (py "m1")
           (py "ab" ++ NL :: py "cdefgh" ++ NL :: py "ij")
           (py "ab") [py "cdef"; py "gh"; py "ij"] None
           eq_refl Hsid eq_refl (fun h m => eq_refl)
           (fun h text => ex_intro _ (user_message "m1" "") eq_refl)
           eq_refl eq_refl eq_refl eq_refl eq_refl eq_refl).
Defined.

Lemma backend_failure_is_reported_witness :
  trace (run (failing (RuntimeError (py "boom"))) []
           (bot.handle_text_message 7439 (py "room") (py "hi") fresh))
    = [bot.ApiSendMessage (py "room") (py "Thinking...");
       bot.CliSendMessage (Some (py "s1")) (py "hi") (Some (py "/tmp")) true;
       bot.ApiEditMessage (py "m1") (py "room") (py "An error occurred while processing your message. Check the bot logs for details.")] /\
  outcome (run (failing (RuntimeError (py "boom"))) []
             (bot.handle_text_message 7439 (py "room") (py "hi") fresh))
    = Returned tt.
Proof.
  apply (backend_failure_is_reported 7439 (failing (RuntimeError (py "boom")))
           fresh (py "room") (py "hi") connected (user_message "m1" "") (py "m1")
           (RuntimeError (py "boom")) (Some (user_message "m1" ""))).
  - reflexivity.
  - discriminate.
  - reflexivity.
  - intros h m. reflexivity.
  - reflexivity.
  - reflexivity.
  - reflexivity.
  - reflexivity.
  - reflexivity.
  - reflexivity.
Defined.

Lemma interrupt_is_not_swallowed_witness :
  trace (run (failing CancelledError) []
           (bot.handle_text_message 7439 (py "room") (py "hi") fresh))
    = [bot.ApiSendMessage (py "room") (py "Thinking...");
       bot.CliSendMessage (Some (py "s1")) (py "hi") (Some (py "/tmp")) true] /\
  outcome (run (failing CancelledError) []
             (bot.handle_text_message 7439 (py "room") (py "hi") fresh))
    = Raised CancelledError.
Proof.
  apply (interrupt_is_not_swallowed 7439 (failing CancelledError)
           fresh (py "room") (py "hi") connected (user_message "m1" "")
           CancelledError).
  - reflexivity.
  - discriminate.
  - reflexivity.
  - intros h m. reflexivity.
  - reflexivity.
  - reflexivity.
  - reflexivity.
Defined.

Lemma safe_announces_the_new_mode_witness :
  bot.skip_permissions
    (state_of (py "room") (final (run calm [] (bot.handle_safe (py "room") blank))))
    = true /\
  trace (run calm [] (bot.handle_safe (py "room") blank))
    = [bot.ApiSendMessage (py "room")
         (py "**Mode: skip-permissions**" ++ NL ::
          py "Claude will execute tools without asking for approval.")].
Proof.
  exact (safe_announces_the_new_mode calm blank (py "room") (fun h m => eq_refl)).
Defined.

Lemma safe_twice_restores_the_mode_witness :
  bot.skip_permissions
    (state_of (py "room")
       (final (run calm [] (bot.handle_safe (py "room")
                              (final (run calm [] (bot.handle_safe (py "room") fresh)))))))
    = bot.skip_permissions (state_of (py "room") fresh).
Proof.
  apply (safe_twice_restores_the_mode calm calm fresh (py "room")).
  - intros h m. reflexivity.
  - intros h m. reflexivity.
Defined.

Lemma text_after_disconnect_is_refused_witness :
  bot.session_id
    (state_of (py "room")
       (final (run calm [] (bot.handle_disconnect (py "room") fresh))))
    = None /\
  bot.skip_permissions
    (state_of (py "room")
       (final (run calm [] (bot.handle_disconnect (py "room") fresh))))
    = bot.skip_permissions (state_of (py "room") fresh) /\
  bot.processing
    (state_of (py "room")
       (final (run calm [] (bot.handle_disconnect (py "room") fresh))))
    = bot.processing (state_of (py "room") fresh) /\
  forall w' (max_bytes : Z) (text : str),
    trace (run w' [] (bot.handle_text_message max_bytes (py "room") text
                        (final (run calm [] (bot.handle_disconnect (py "room") fresh)))))
      = [bot.ApiSendMessage (py "room") (py "Not connected. Use `/sessions` to pick a session.")].
Proof.
  apply (text_after_disconnect_is_refused calm fresh (py "room")).
  intros h m. reflexivity.
Defined.
